(** * paymentd: authorization handlers and the FritzPay transaction loop

    A shallow embedding of
    - [pkg/service/api/v1/auth.go]   (basic auth, token issue, token verify),
    - [pkg/service/api/handler.go]   (the recovering top-level handler),
    - [pkg/service/provider/fritzpay/init.go] (the retrying transaction of
      [InitPayment]),
    together with a model of the authorization container and keychain that
    the handlers call (package [pkg/service], described in the design
    document). *)

From Stdlib Require Import ZArith Lia Ascii String List Bool.
From Stdlib Require Import DecimalString DecimalPos DecimalZ.
From stdpp Require Import base option list gmap strings.
From Equations Require Import Equations.

Local Open Scope string_scope.
Local Open Scope Z_scope.
Local Open Scope list_scope.

(** ** Go values *)

(** Go's [error]: the sentinel values the sources compare against, the
    failure kinds of the authorization container, and any other error. *)
Inductive error : Type :=
| ErrEntryNotFound                 (* config.ErrEntryNotFound *)
| ErrMismatchedHashAndPassword     (* bcrypt.ErrMismatchedHashAndPassword *)
| ErrNoCookie                      (* http.ErrNoCookie *)
| ErrMalformedToken
| ErrKeyNotFound
| ErrInvalidSignature
| ErrInvalidState
| ErrNotEncoded
| ErrEmptyKeychain
| ErrOther (msg : string).

Definition error_eqb (e1 e2 : error) : bool :=
  match e1, e2 with
  | ErrEntryNotFound, ErrEntryNotFound => true
  | ErrMismatchedHashAndPassword, ErrMismatchedHashAndPassword => true
  | ErrNoCookie, ErrNoCookie => true
  | ErrMalformedToken, ErrMalformedToken => true
  | ErrKeyNotFound, ErrKeyNotFound => true
  | ErrInvalidSignature, ErrInvalidSignature => true
  | ErrInvalidState, ErrInvalidState => true
  | ErrNotEncoded, ErrNotEncoded => true
  | ErrEmptyKeychain, ErrEmptyKeychain => true
  | ErrOther m1, ErrOther m2 => String.eqb m1 m2
  | _, _ => false
  end.

(** A Go pair [(value, err)] of which exactly one side is meaningful. *)
Inductive result (A : Type) : Type :=
| Ok (a : A)
| Err (e : error).
Arguments Ok {A} a.
Arguments Err {A} e.

(** ** Package [strings], for the one-byte separators the handlers use *)

Module GoStrings.

(** [strings.Index] followed by the two slices [s[:m]] and [s[m+1:]]. *)
Fixpoint cut (sep : ascii) (s : string) : option (string * string) :=
  match s with
  | EmptyString => None
  | String c s' =>
      if Ascii.eqb c sep then Some (EmptyString, s')
      else match cut sep s' with
           | Some (hd, tl) => Some (String c hd, tl)
           | None => None
           end
  end.

(** [strings.Count]. *)
Fixpoint Count (s : string) (sep : ascii) : nat :=
  match s with
  | EmptyString => 0%nat
  | String c s' => ((if Ascii.eqb c sep then 1 else 0) + Count s' sep)%nat
  end.

(** The loop of [genSplit]: at most [cuts] separators are consumed, the
    rest of the string is the last element. *)
Fixpoint genSplit (sep : ascii) (cuts : nat) (s : string) : list string :=
  match cuts with
  | O => [s]
  | S cuts' =>
      match cut sep s with
      | None => [s]
      | Some (hd, tl) => hd :: genSplit sep cuts' tl
      end
  end.

(** [strings.Split(s, sep)] is [genSplit] with [n = Count(s, sep) + 1]. *)
Definition Split (s : string) (sep : ascii) : list string :=
  genSplit sep (Count s sep) s.

(** [strings.SplitN(s, sep, n)]: [n = 0] gives nil, [n < 0] all parts,
    [n > 0] at most [n] parts. *)
Definition SplitN (s : string) (sep : ascii) (n : Z) : list string :=
  if n =? 0 then []
  else if n <? 0 then Split s sep
  else genSplit sep (Z.to_nat (n - 1)) s.

(** [strings.Join] with a one-byte separator. *)
Fixpoint Join (l : list string) (sep : ascii) : string :=
  match l with
  | [] => EmptyString
  | [x] => x
  | x :: rest => x +:+ String sep (Join rest sep)
  end.

(** [strings.IndexByte(s, c) < 0]. *)
Fixpoint lacks (c : ascii) (s : string) : bool :=
  match s with
  | EmptyString => true
  | String c' s' => negb (Ascii.eqb c' c) && lacks c s'
  end.

End GoStrings.

(** ** Package [encoding/base64]: [StdEncoding.DecodeString]

    The standard alphabet with [=] padding; carriage returns and line feeds
    are skipped, the bits left over in a padded quantum are dropped. *)

Module Base64.

Definition value (c : ascii) : option N :=
  let n := N_of_ascii c in
  if (65 <=? n)%N && (n <=? 90)%N then Some (n - 65)%N
  else if (97 <=? n)%N && (n <=? 122)%N then Some (n - 71)%N
  else if (48 <=? n)%N && (n <=? 57)%N then Some (n + 4)%N
  else if (n =? 43)%N then Some 62%N
  else if (n =? 47)%N then Some 63%N
  else None.

Definition is_pad (c : ascii) : bool := Ascii.eqb c "="%char.

Fixpoint dropNewlines (s : string) : string :=
  match s with
  | EmptyString => EmptyString
  | String c s' =>
      if Ascii.eqb c "010"%char || Ascii.eqb c "013"%char then dropNewlines s'
      else String c (dropNewlines s')
  end.

Definition byte (n : N) : ascii := ascii_of_N (n mod 256).

Fixpoint decodeQuanta (s : string) : result string :=
  match s with
  | EmptyString => Ok EmptyString
  | String c0 (String c1 (String c2 (String c3 rest))) =>
      match value c0, value c1 with
      | Some v0, Some v1 =>
          match value c2, value c3 with
          | Some v2, Some v3 =>
              let n := (v0 * 262144 + v1 * 4096 + v2 * 64 + v3)%N in
              match decodeQuanta rest with
              | Ok tl =>
                  Ok (String (byte (n / 65536))
                        (String (byte (n / 256)) (String (byte n) tl)))
              | Err e => Err e
              end
          | Some v2, None =>
              if is_pad c3 && String.eqb rest "" then
                let n := (v0 * 262144 + v1 * 4096 + v2 * 64)%N in
                Ok (String (byte (n / 65536))
                      (String (byte (n / 256)) EmptyString))
              else Err (ErrOther "illegal base64 data")
          | None, _ =>
              if is_pad c2 && is_pad c3 && String.eqb rest "" then
                let n := (v0 * 262144 + v1 * 4096)%N in
                Ok (String (byte (n / 65536)) EmptyString)
              else Err (ErrOther "illegal base64 data")
          end
      | _, _ => Err (ErrOther "illegal base64 data")
      end
  | _ => Err (ErrOther "illegal base64 data")
  end.

Definition DecodeString (s : string) : result string :=
  decodeQuanta (dropNewlines s).

End Base64.

(** ** Package [net/http]: requests, response writers, cookies *)

Record Cookie : Type := mkCookie {
  cookie_Name : string;
  cookie_Value : string;
  cookie_Path : string;
  cookie_Expires : Z;
  cookie_HttpOnly : bool;
  cookie_Secure : bool
}.

Record Request : Type := mkRequest {
  req_Method : string;
  req_Path : string;
  req_Header : gmap string string;
  req_Cookies : gmap string string
}.

(** [r.Header.Get(k)]: the empty string when the header is absent. *)
Definition Header_Get (r : Request) (k : string) : string :=
  default "" (req_Header r !! k).

(** [r.Cookie(name)]: [http.ErrNoCookie] when there is no such cookie. *)
Definition Request_Cookie (r : Request) (name : string) : result string :=
  match req_Cookies r !! name with
  | Some v => Ok v
  | None => Err ErrNoCookie
  end.

Record ResponseWriter : Type := mkResponseWriter {
  rw_header : gmap string string;
  rw_cookies : list Cookie;
  rw_status : option Z;          (* None: WriteHeader not called yet *)
  rw_body : string;
  rw_write_err : option error    (* what Write returns on this connection *)
}.

Definition StatusOK : Z := 200.
Definition StatusUnauthorized : Z := 401.
Definition StatusInternalServerError : Z := 500.

Definition emptyResponse : ResponseWriter :=
  {| rw_header := ∅; rw_cookies := []; rw_status := None;
     rw_body := ""; rw_write_err := None |}.

(** The payload of an authorization container. *)
Abbreviation Payload := (gmap string string).

(** ** Effects of a handler

    A handler changes the response writer and the request context, emits
    log records and calls its collaborators; an index out of range ends it
    with a run-time panic. *)

Inductive Lvl : Type := LvlCrit | LvlError | LvlWarn | LvlInfo | LvlDebug.

Inductive Role : Type := RoleSuccess | RoleFailed.

Inductive Event : Type :=
| EvLog (lvl : Lvl) (msg : string)
| EvSleep
| EvNewAuthorization
| EvSetPayload (k v : string)        (* auth.Payload[k] = v *)
| EvExpires (t : Z)                  (* auth.Expires(t) *)
| EvBinKey                           (* Keychain().BinKey() *)
| EvEncode                           (* auth.Encode(key) *)
| EvSerialized                       (* auth.Serialized() *)
| EvMarshal                          (* json.Marshal(resp) *)
| EvSetCookie (c : Cookie)           (* http.SetCookie(w, c) *)
| EvWrite (b : string)               (* w.Write(b) *)
| EvWriteHeader (code : Z)           (* w.WriteHeader(code) *)
| EvReadFrom (s : string)            (* auth.ReadFrom(strings.NewReader(s)) *)
| EvExpiryCheck (expiry now : Z)     (* auth.Expiry().Before(time.Now()) *)
| EvMatchKey                         (* Keychain().MatchKey(auth) *)
| EvKeyCount                         (* Keychain().KeyCount() *)
| EvDecode                           (* auth.Decode(key) *)
| EvSetRequestContextVar (p : Payload)
| EvServeHTTP (which : Role)         (* success / failed .ServeHTTP(w, r) *)
| EvEntryByNameDB (name : string).   (* config.EntryByNameDB(a.ctx.PaymentDB(), name) *)

Record World : Type := mkWorld {
  w : ResponseWriter;
  ctxvar : option Payload      (* request context, key ContextVarAuthKey *)
}.

Inductive Outcome (A : Type) : Type :=
| Returned (a : A) (σ : World) (evs : list Event)
| Panicked (msg : string) (σ : World) (evs : list Event).
Arguments Returned {A} a σ evs.
Arguments Panicked {A} msg σ evs.

Definition HandlerM (A : Type) : Type := World -> Outcome A.

Definition ret {A} (a : A) : HandlerM A := fun σ => Returned a σ [].

Definition bind {A B} (m : HandlerM A) (k : A -> HandlerM B) : HandlerM B :=
  fun σ =>
    match m σ with
    | Returned a σ1 e1 =>
        match k a σ1 with
        | Returned b σ2 e2 => Returned b σ2 (e1 ++ e2)
        | Panicked msg σ2 e2 => Panicked msg σ2 (e1 ++ e2)
        end
    | Panicked msg σ1 e1 => Panicked msg σ1 e1
    end.

Declare Scope handler_scope.
Delimit Scope handler_scope with handler.
Notation "x <- m ;; k" := (bind m (fun x => k))
  (at level 100, m at next level, right associativity) : handler_scope.
Notation "m ;; k" := (bind m (fun _ => k))
  (at level 100, right associativity) : handler_scope.
Local Open Scope handler_scope.

Definition emit (e : Event) : HandlerM unit := fun σ => Returned tt σ [e].

Definition panic {A} (msg : string) : HandlerM A := fun σ => Panicked msg σ [].

Definition events {A} (o : Outcome A) : list Event :=
  match o with Returned _ _ evs | Panicked _ _ evs => evs end.

Definition world {A} (o : Outcome A) : World :=
  match o with Returned _ σ _ | Panicked _ σ _ => σ end.

Definition panicked {A} (o : Outcome A) : bool :=
  match o with Returned _ _ _ => false | Panicked _ _ _ => true end.

(** The outcome [o] of a run that came after the events [evs]. *)
Definition prefixed {A} (evs : list Event) (o : Outcome A) : Outcome A :=
  match o with
  | Returned b σ e => Returned b σ (evs ++ e)
  | Panicked msg σ e => Panicked msg σ (evs ++ e)
  end.

(** [l[i]]: a run-time panic when [i] is out of range. *)
Definition index (l : list string) (i : nat) : HandlerM string :=
  match l !! i with
  | Some x => ret x
  | None => panic "runtime error: index out of range"
  end.

Definition log (lvl : Lvl) (msg : string) : HandlerM unit := emit (EvLog lvl msg).

(** [w.Header().Set(k, v)]. *)
Definition Header_Set (k v : string) : HandlerM unit :=
  fun σ =>
    Returned tt
      {| w := {| rw_header := <[k := v]> (rw_header (w σ));
                 rw_cookies := rw_cookies (w σ);
                 rw_status := rw_status (w σ);
                 rw_body := rw_body (w σ);
                 rw_write_err := rw_write_err (w σ) |};
         ctxvar := ctxvar σ |} [].

(** [w.WriteHeader(code)]: the first status written is the one sent. *)
Definition WriteHeader_rw (code : Z) (rw : ResponseWriter) : ResponseWriter :=
  match rw_status rw with
  | Some _ => rw
  | None =>
      {| rw_header := rw_header rw; rw_cookies := rw_cookies rw;
         rw_status := Some code; rw_body := rw_body rw;
         rw_write_err := rw_write_err rw |}
  end.

Definition WriteHeader (code : Z) : HandlerM unit :=
  fun σ =>
    Returned tt {| w := WriteHeader_rw code (w σ); ctxvar := ctxvar σ |}
      [EvWriteHeader code].

(** [w.Write(b)]: an implicit [WriteHeader(200)], then the bytes; the
    connection's error, if any, is returned instead. *)
Definition Write (b : string) : HandlerM (option error) :=
  fun σ =>
    match rw_write_err (w σ) with
    | Some e => Returned (Some e) σ [EvWrite b]
    | None =>
        let rw := WriteHeader_rw StatusOK (w σ) in
        Returned None
          {| w := {| rw_header := rw_header rw; rw_cookies := rw_cookies rw;
                     rw_status := rw_status rw;
                     rw_body := rw_body rw +:+ b;
                     rw_write_err := rw_write_err rw |};
             ctxvar := ctxvar σ |} [EvWrite b]
    end.

(** [http.SetCookie(w, c)]. *)
Definition SetCookie (c : Cookie) : HandlerM unit :=
  fun σ =>
    Returned tt
      {| w := {| rw_header := rw_header (w σ);
                 rw_cookies := rw_cookies (w σ) ++ [c];
                 rw_status := rw_status (w σ);
                 rw_body := rw_body (w σ);
                 rw_write_err := rw_write_err (w σ) |};
         ctxvar := ctxvar σ |} [EvSetCookie c].

(** [service.SetRequestContextVar(r, service.ContextVarAuthKey, p)]. *)
Definition SetRequestContextVar (p : Payload) : HandlerM unit :=
  fun σ => Returned tt {| w := w σ; ctxvar := Some p |} [EvSetRequestContextVar p].

(** A downstream [http.Handler]: it sees the request and its context and
    writes to the response. *)
Definition Handler : Type := Request -> World -> World.

Definition ServeHTTP (which : Role) (h : Handler) (r : Request) : HandlerM unit :=
  fun σ => Returned tt (h r σ) [EvServeHTTP which].

(** ** The collaborators of the admin API

    Package [pkg/service] (the authorization container and the keychain) is
    used by the handlers through this interface.  Methods with a pointer
    receiver that mutate the container return the new container next to
    their [error]. *)

Class AuthorizationAPI : Type := {
  HashFn : Type;
  sha256_New : HashFn;
  Authorization : Type;
  Key : Type;
  Keychain : Type;
  NewAuthorization : HashFn -> Authorization;
  auth_SetPayload : string -> string -> Authorization -> Authorization;
  auth_Expires : Z -> Authorization -> Authorization;
  auth_Expiry : Authorization -> Z;
  auth_Payload : Authorization -> Payload;
  auth_Encode : Key -> Authorization -> option error * Authorization;
  auth_Serialized : Authorization -> result string;
  auth_ReadFrom : string -> Authorization -> option error * Authorization;
  auth_Decode : Key -> Authorization -> option error * Authorization;
  kc_BinKey : Keychain -> result Key;
  kc_MatchKey : Keychain -> Authorization -> result Key;
  kc_KeyCount : Keychain -> Z
}.

(** The receiver [a *AdminAPI] with what it reaches through [a.ctx], the
    package-level constants of [v1] that [auth.go] names, and the library
    calls whose results the handlers branch on. *)
Record AdminAPI `{AuthorizationAPI} : Type := mkAdminAPI {
  (* a.ctx.Config().API.Cookie *)
  cfg_AllowCookieAuth : bool;
  cfg_HttpOnly : bool;
  cfg_Secure : bool;
  (* a.ctx.Keychain() *)
  ctx_Keychain : Keychain;
  (* config.EntryByNameDB(a.ctx.PaymentDB(), name): the entry's Value *)
  EntryByNameDB : string -> result string;
  (* package constants *)
  ConfigNameSystemPassword : string;
  AuthUserIDKey : string;
  systemUserID : string;
  AuthLifetime : Z;
  AuthCookieName : string;
  ServicePath : string;
  (* library calls *)
  bcrypt_CompareHashAndPassword : string -> string -> option error;
  base64_DecodeString : string -> result string;
  json_Marshal : string -> result string;  (* of GetCredentialsResponse{Authorization} *)
  time_Now : Z
}.

Section AuthGo.

Context `{API : AuthorizationAPI}.

(** *** auth.go *)

Definition authorizationHash (a : AdminAPI) : HashFn := sha256_New.

Definition dquote : string := String "034"%char EmptyString.

Definition requestBasicAuth : HandlerM unit :=
  Header_Set "WWW-Authenticate" ("Basic realm=" +:+ dquote +:+ "Authorization" +:+ dquote) ;;
  WriteHeader StatusUnauthorized.

Definition respondWithAuthorization (a : AdminAPI) : HandlerM unit :=
  emit EvNewAuthorization ;;
  let auth := NewAuthorization (authorizationHash a) in
  emit (EvSetPayload (AuthUserIDKey a) (systemUserID a)) ;;
  let auth := auth_SetPayload (AuthUserIDKey a) (systemUserID a) auth in
  emit (EvExpires (time_Now a + AuthLifetime a)) ;;
  let auth := auth_Expires (time_Now a + AuthLifetime a) auth in
  emit EvBinKey ;;
  match kc_BinKey (ctx_Keychain a) with
  | Err _ =>
      log LvlError "error retrieving key from keychain" ;;
      WriteHeader StatusInternalServerError
  | Ok key =>
      emit EvEncode ;;
      match auth_Encode key auth with
      | (Some _, _) =>
          log LvlError "error encoding authorization" ;;
          WriteHeader StatusInternalServerError
      | (None, auth) =>
          emit EvSerialized ;;
          match auth_Serialized auth with
          | Err _ =>
              log LvlError "error serializing authorization" ;;
              WriteHeader StatusInternalServerError
          | Ok resp_Authorization =>
              emit EvMarshal ;;
              match json_Marshal a resp_Authorization with
              | Err _ =>
                  log LvlError "error encoding JSON respone" ;;
                  WriteHeader StatusInternalServerError
              | Ok jsonResp =>
                  (if cfg_AllowCookieAuth a then
                     SetCookie {| cookie_Name := AuthCookieName a;
                                  cookie_Value := resp_Authorization;
                                  cookie_Path := ServicePath a;
                                  cookie_Expires := auth_Expiry auth;
                                  cookie_HttpOnly := cfg_HttpOnly a;
                                  cookie_Secure := cfg_Secure a |}
                   else ret tt) ;;
                  err <- Write jsonResp ;;
                  match err with
                  | Some _ => log LvlError "error writing HTTP response"
                  | None => ret tt
                  end
              end
          end
      end
  end.

Definition authenticateSystemPassword (a : AdminAPI) (pw : string) : HandlerM unit :=
  emit (EvEntryByNameDB (ConfigNameSystemPassword a)) ;;
  match EntryByNameDB a (ConfigNameSystemPassword a) with
  | Err err =>
      if error_eqb err ErrEntryNotFound then
        log LvlError "no password entry" ;;
        WriteHeader StatusInternalServerError
      else
        log LvlError "error retrieving password entry" ;;
        WriteHeader StatusInternalServerError
  | Ok pwEntry_Value =>
      match bcrypt_CompareHashAndPassword a pwEntry_Value pw with
      | Some err =>
          if error_eqb err ErrMismatchedHashAndPassword then
            emit EvSleep ;;
            WriteHeader StatusUnauthorized
          else
            log LvlError "error checking password" ;;
            WriteHeader StatusInternalServerError
      | None => respondWithAuthorization a
      end
  end.

Definition authenticateBasicAuth (a : AdminAPI) (r : Request) : HandlerM unit :=
  if String.eqb (Header_Get r "Authorization") "" then requestBasicAuth
  else
    let parts := GoStrings.SplitN (Header_Get r "Authorization") " "%char 2 in
    parts_0 <- index parts 0 ;;
    if negb (String.eqb parts_0 "Basic") then requestBasicAuth
    else
      parts_1 <- index parts 1 ;;
      match base64_DecodeString a parts_1 with
      | Err _ => requestBasicAuth
      | Ok auth =>
          let parts := GoStrings.Split auth ":"%char in
          if negb (Nat.eqb (length parts) 2) then requestBasicAuth
          else
            parts_1 <- index parts 1 ;;
            authenticateSystemPassword a parts_1
      end.

(** Lines 195-225 of [AuthHandler]: what happens once [authStr] is set. *)
Definition AuthHandler_verify (a : AdminAPI) (success failed : Handler)
    (r : Request) (authStr : string) : HandlerM unit :=
  emit EvNewAuthorization ;;
  let auth := NewAuthorization (authorizationHash a) in
  emit (EvReadFrom authStr) ;;
  match auth_ReadFrom authStr auth with
  | (Some _, _) =>
      log LvlDebug "error reading authorization" ;;
      ServeHTTP RoleFailed failed r
  | (None, auth) =>
      emit (EvExpiryCheck (auth_Expiry auth) (time_Now a)) ;;
      if auth_Expiry auth <? time_Now a then
        log LvlDebug "authorization expired" ;;
        ServeHTTP RoleFailed failed r
      else
        emit EvMatchKey ;;
        match kc_MatchKey (ctx_Keychain a) auth with
        | Err _ =>
            emit EvKeyCount ;;
            log LvlDebug "error retrieving matching key from keychain" ;;
            ServeHTTP RoleFailed failed r
        | Ok key =>
            emit EvDecode ;;
            match auth_Decode key auth with
            | (Some _, _) =>
                log LvlDebug "error decoding authorization" ;;
                ServeHTTP RoleFailed failed r
            | (None, auth) =>
                SetRequestContextVar (auth_Payload auth) ;;
                ServeHTTP RoleSuccess success r
            end
        end
  end.

Definition AuthHandler (a : AdminAPI) (success failed : Handler)
    (r : Request) : HandlerM unit :=
  let authStr := Header_Get r "Authorization" in
  if String.eqb authStr "" then
    if negb (cfg_AllowCookieAuth a) then
      log LvlDebug "missing authorization header" ;;
      ServeHTTP RoleFailed failed r
    else
      match Request_Cookie r (AuthCookieName a) with
      | Err err =>
          if negb (error_eqb err ErrNoCookie) then
            log LvlWarn "error retrieving auth cookie" ;;
            WriteHeader StatusInternalServerError
          else
            ServeHTTP RoleFailed failed r
      | Ok c_Value => AuthHandler_verify a success failed r c_Value
      end
  else AuthHandler_verify a success failed r authStr.

(** The failed handler of [AuthRequiredHandler]. *)
Definition unauthorized : Handler :=
  fun _ σ => {| w := WriteHeader_rw StatusUnauthorized (w σ); ctxvar := ctxvar σ |}.

Definition AuthRequiredHandler (a : AdminAPI) (parent : Handler) (r : Request)
  : HandlerM unit :=
  AuthHandler a parent unauthorized r.

(** *** handler.go: [Handler.ServeHTTP]

    The deferred calls run in reverse order when [h.mux.ServeHTTP]
    returns or panics: first [service.Clear(r)], then the function that
    recovers a panic and logs it.  [service.Clear] drops the request's
    context. *)
Definition Handler_ServeHTTP (mux : Request -> HandlerM unit) (r : Request)
  : HandlerM unit :=
  fun σ =>
    match mux r σ with
    | Returned _ σ' evs =>
        Returned tt {| w := w σ'; ctxvar := None |} evs
    | Panicked _ σ' evs =>
        Returned tt {| w := w σ'; ctxvar := None |}
          (evs ++ [EvLog LvlCrit "panic on serving HTTP"])
    end.

End AuthGo.

(** ** The authorization container and the keychain

    Package [pkg/service] declares [Authorization] and [Keychain]; the
    handlers above only call them.  The definitions of this module follow
    the design document (sections 3, 4 and 7). *)

Module Spec.

(** *** Codec helpers: integers in decimal, bytes in hexadecimal *)

(** Modelled from the spec: the transport-safe encoding of section 4.2 is
    left open there; integers are written in decimal. *)
Definition format_int (z : Z) : string := NilZero.string_of_int (Z.to_int z).

(** Modelled from the spec: the inverse of [format_int]; anything that is
    not a decimal integer is rejected. *)
Definition parse_int (s : string) : option Z :=
  option_map Z.of_int (NilZero.int_of_string s).

(** Modelled from the spec: byte strings are written in lower-case
    hexadecimal, which is safe in headers, cookies and URLs. *)
Definition hex_digit (n : N) : ascii :=
  match n with
  | 0%N => "0" | 1%N => "1" | 2%N => "2" | 3%N => "3"
  | 4%N => "4" | 5%N => "5" | 6%N => "6" | 7%N => "7"
  | 8%N => "8" | 9%N => "9" | 10%N => "a" | 11%N => "b"
  | 12%N => "c" | 13%N => "d" | 14%N => "e" | _ => "f"
  end%char.

Definition hex_value (c : ascii) : option N :=
  let n := N_of_ascii c in
  if (48 <=? n)%N && (n <=? 57)%N then Some (n - 48)%N
  else if (97 <=? n)%N && (n <=? 102)%N then Some (n - 87)%N
  else None.

Fixpoint hex (s : string) : string :=
  match s with
  | EmptyString => EmptyString
  | String c s' =>
      let n := N_of_ascii c in
      String (hex_digit (n / 16)) (String (hex_digit (n mod 16)) (hex s'))
  end.

Fixpoint unhex (s : string) : option string :=
  match s with
  | EmptyString => Some EmptyString
  | String _ EmptyString => None
  | String hi (String lo s') =>
      match hex_value hi, hex_value lo, unhex s' with
      | Some h, Some l, Some rest =>
          Some (String (ascii_of_N (16 * h + l)) rest)
      | _, _, _ => None
      end
  end.

(** *** Keys and the signer *)

(** Modelled from the spec: [KeychainKey] of section 3; the type is
    declared in package [pkg/service], which is not among the sources. *)
Record KeychainKey : Type := mkKey {
  key_id : Z;
  key_secret : string;
  key_createdAt : Z;
  key_retired : bool
}.

(** Modelled from the spec: the Signer of section 4.1, a deterministic
    keyed tag [sign(secret, message)]; the keyed hash itself is left
    open. *)
Record Signer : Type := mkSigner {
  sign : string -> string -> string
}.

(** Modelled from the spec: [verify(secret, message, tag)] of section
    4.1 compares the recomputed tag with the given one. *)
Definition verify (S : Signer) (secret message tag : string) : bool :=
  String.eqb (sign S secret message) tag.

(** *** Codec *)

(** Modelled from the spec: the canonical bytes of the payload mapping
    (section 4.3, [encode]); the byte layout is this model's choice:
    [hex(k)=hex(v)] items joined by [&]. *)
Definition marshal_item (kv : string * string) : string :=
  hex (fst kv) +:+ String "="%char (hex (snd kv)).

Definition marshal_payload (p : Payload) : string :=
  GoStrings.Join (map marshal_item (map_to_list p)) "&"%char.

(** Modelled from the spec: unmarshalling of the payload bytes into the
    mapping (section 4.3, [decode]), the inverse of [marshal_payload]. *)
Definition unmarshal_item (s : string) : option (string * string) :=
  match GoStrings.Split s "="%char with
  | [k; v] =>
      match unhex k, unhex v with
      | Some k', Some v' => Some (k', v')
      | _, _ => None
      end
  | _ => None
  end.

Fixpoint unmarshal_items (l : list string) : option (list (string * string)) :=
  match l with
  | [] => Some []
  | s :: rest =>
      match unmarshal_item s, unmarshal_items rest with
      | Some kv, Some kvs => Some (kv :: kvs)
      | _, _ => None
      end
  end.

Definition unmarshal_payload (s : string) : option Payload :=
  if String.eqb s "" then Some ∅
  else option_map list_to_map (unmarshal_items (GoStrings.Split s "&"%char)).

(** Modelled from the spec: the canonical bytes over
    [(keyID, expiry, payload)] in a fixed field order, the message that
    is signed (section 4.3). *)
Definition canonical (keyID expiry : Z) (payloadBytes : string) : string :=
  GoStrings.Join [format_int keyID; format_int expiry; payloadBytes] "."%char.

(** Modelled from the spec: [Codec.serialize] of section 4.2; the wire
    form is four dot-separated fields, the byte fields in hexadecimal. *)
Definition serialize (keyID expiry : Z) (payloadBytes signature : string) : string :=
  GoStrings.Join
    [format_int keyID; format_int expiry; hex payloadBytes; hex signature]
    "."%char.

(** Modelled from the spec: [Codec.parse] of section 4.2; it needs no key
    and fails on a wrong field count or an undecodable field. *)
Definition parse (s : string) : result (Z * Z * string * string) :=
  match GoStrings.Split s "."%char with
  | [f_id; f_exp; f_payload; f_sig] =>
      match parse_int f_id, parse_int f_exp, unhex f_payload, unhex f_sig with
      | Some keyID, Some expiry, Some payloadBytes, Some signature =>
          Ok (keyID, expiry, payloadBytes, signature)
      | _, _, _, _ => Err ErrMalformedToken
      end
  | _ => Err ErrMalformedToken
  end.

(** *** Authorization token *)

(** Modelled from the spec: the states of the state machine of section
    4.3. *)
Inductive Lifecycle : Type := Empty | Building | Encoded | Parsed | Trusted.

(** Modelled from the spec: [AuthorizationToken] of section 3, with the
    lifecycle state of section 4.3. *)
Record Token : Type := mkToken {
  tok_signer : Signer;
  tok_state : Lifecycle;
  tok_payload : option Payload;     (* None: unset, or not yet unmarshalled *)
  tok_expiry : option Z;
  tok_keyID : Z;
  tok_rawPayload : string;
  tok_signature : string;
  tok_trusted : bool
}.

(** Modelled from the spec: [new(signer)]. *)
Definition new (S : Signer) : Token :=
  {| tok_signer := S; tok_state := Empty; tok_payload := None;
     tok_expiry := None; tok_keyID := 0; tok_rawPayload := "";
     tok_signature := ""; tok_trusted := false |}.

Definition unencoded (t : Token) : bool :=
  match tok_state t with Empty | Building => true | _ => false end.

(** Modelled from the spec: [setPayload(mapping)]. *)
Definition setPayload (p : Payload) (t : Token) : option error * Token :=
  if unencoded t then
    (None, {| tok_signer := tok_signer t; tok_state := Building;
              tok_payload := Some p; tok_expiry := tok_expiry t;
              tok_keyID := tok_keyID t; tok_rawPayload := tok_rawPayload t;
              tok_signature := tok_signature t; tok_trusted := tok_trusted t |})
  else (Some ErrInvalidState, t).

(** Modelled from the spec: [setExpiry(timestamp)]. *)
Definition setExpiry (e : Z) (t : Token) : option error * Token :=
  if unencoded t then
    (None, {| tok_signer := tok_signer t; tok_state := Building;
              tok_payload := tok_payload t; tok_expiry := Some e;
              tok_keyID := tok_keyID t; tok_rawPayload := tok_rawPayload t;
              tok_signature := tok_signature t; tok_trusted := tok_trusted t |})
  else (Some ErrInvalidState, t).

(** Modelled from the spec: [encode(key)]. *)
Definition encode (key : KeychainKey) (t : Token) : option error * Token :=
  match tok_state t, tok_payload t, tok_expiry t with
  | Building, Some p, Some e =>
      let raw := marshal_payload p in
      (None, {| tok_signer := tok_signer t; tok_state := Encoded;
                tok_payload := Some p; tok_expiry := Some e;
                tok_keyID := key_id key; tok_rawPayload := raw;
                tok_signature :=
                  sign (tok_signer t) (key_secret key)
                    (canonical (key_id key) e raw);
                tok_trusted := true |})
  | _, _, _ => (Some ErrInvalidState, t)
  end.

(** Modelled from the spec: [serialized()]. *)
Definition serialized (t : Token) : result string :=
  match tok_state t, tok_expiry t with
  | Encoded, Some e =>
      Ok (serialize (tok_keyID t) e (tok_rawPayload t) (tok_signature t))
  | _, _ => Err ErrNotEncoded
  end.

(** Modelled from the spec: [readFrom(string)]. *)
Definition readFrom (s : string) (t : Token) : option error * Token :=
  match tok_state t with
  | Empty =>
      match parse s with
      | Ok (keyID, e, raw, sig) =>
          (None, {| tok_signer := tok_signer t; tok_state := Parsed;
                    tok_payload := None; tok_expiry := Some e;
                    tok_keyID := keyID; tok_rawPayload := raw;
                    tok_signature := sig; tok_trusted := false |})
      | Err err => (Some err, t)
      end
  | _ => (Some ErrInvalidState, t)
  end.

(** Modelled from the spec: [decode(key)]; no clock is among its
    arguments. *)
Definition decode (key : KeychainKey) (t : Token) : option error * Token :=
  match tok_state t, tok_expiry t with
  | Parsed, Some e =>
      if verify (tok_signer t) (key_secret key)
           (canonical (tok_keyID t) e (tok_rawPayload t)) (tok_signature t)
      then
        match unmarshal_payload (tok_rawPayload t) with
        | Some p =>
            (None, {| tok_signer := tok_signer t; tok_state := Trusted;
                      tok_payload := Some p; tok_expiry := Some e;
                      tok_keyID := tok_keyID t;
                      tok_rawPayload := tok_rawPayload t;
                      tok_signature := tok_signature t;
                      tok_trusted := true |})
        | None => (Some ErrMalformedToken, t)
        end
      else (Some ErrInvalidSignature, t)
  | _, _ => (Some ErrInvalidState, t)
  end.

(** Modelled from the spec: [expiry()], readable once set or parsed. *)
Definition expiry (t : Token) : Z := default 0 (tok_expiry t).

(** Modelled from the spec: the payload as the caller can read it, that
    is only on a trusted token. *)
Definition payload (t : Token) : option Payload :=
  if tok_trusted t then tok_payload t else None.

(** *** Keychain *)

(** Modelled from the spec: [Keychain] of sections 3 and 4.4, newest key
    first. *)
Record Keychain : Type := mkKeychain {
  kc_keys : list KeychainKey;
  kc_nextID : Z
}.

Definition emptyKeychain : Keychain := {| kc_keys := []; kc_nextID := 1 |}.

(** Modelled from the spec: [currentKey()]. *)
Definition currentKey (kc : Keychain) : result KeychainKey :=
  match List.find (fun k => negb (key_retired k)) (kc_keys kc) with
  | Some k => Ok k
  | None => Err ErrEmptyKeychain
  end.

(** Modelled from the spec: [matchKey(keyID)]. *)
Definition matchKey (kc : Keychain) (keyID : Z) : result KeychainKey :=
  match List.find (fun k => key_id k =? keyID) (kc_keys kc) with
  | Some k => Ok k
  | None => Err ErrKeyNotFound
  end.

(** Modelled from the spec: [keyCount()]. *)
Definition keyCount (kc : Keychain) : Z := Z.of_nat (length (kc_keys kc)).

Definition retire (k : KeychainKey) : KeychainKey :=
  {| key_id := key_id k; key_secret := key_secret k;
     key_createdAt := key_createdAt k; key_retired := true |}.

(** Modelled from the spec: [rotate(newSecret)], at clock reading [now]. *)
Definition rotate (newSecret : string) (now : Z) (kc : Keychain)
  : KeychainKey * Keychain :=
  let k := {| key_id := kc_nextID kc; key_secret := newSecret;
              key_createdAt := now; key_retired := false |} in
  (k, {| kc_keys := k :: map retire (kc_keys kc);
         kc_nextID := kc_nextID kc + 1 |}).

(** Modelled from the spec: [purge(olderThan)]. *)
Definition purge (olderThan : Z) (kc : Keychain) : Keychain :=
  {| kc_keys :=
       List.filter
         (fun k => negb (key_retired k && (key_createdAt k <? olderThan)))
         (kc_keys kc);
     kc_nextID := kc_nextID kc |}.

End Spec.

(** The container and keychain as the handlers of [auth.go] use them:
    [auth.Payload[k] = v] and [auth.Expires(t)] return no error. *)
#[export] Instance SpecAPI (S : Spec.Signer) : AuthorizationAPI := {|
  HashFn := Spec.Signer;
  sha256_New := S;
  Authorization := Spec.Token;
  Key := Spec.KeychainKey;
  Keychain := Spec.Keychain;
  NewAuthorization := Spec.new;
  auth_SetPayload k v t :=
    snd (Spec.setPayload (<[k := v]> (default ∅ (Spec.tok_payload t))) t);
  auth_Expires e t := snd (Spec.setExpiry e t);
  auth_Expiry := Spec.expiry;
  auth_Payload t := default ∅ (Spec.payload t);
  auth_Encode := Spec.encode;
  auth_Serialized := Spec.serialized;
  auth_ReadFrom := Spec.readFrom;
  auth_Decode := Spec.decode;
  kc_BinKey := Spec.currentKey;
  kc_MatchKey kc t := Spec.matchKey kc (Spec.tok_keyID t);
  kc_KeyCount := Spec.keyCount
|}.

(** ** fritzpay/init.go: the transaction of [InitPayment] *)

Module FritzPay.

(** The errors the database calls of [InitPayment] answer with. *)
Inductive DBError : Type :=
| ErrPaymentNotFound               (* fritzpay.ErrPaymentNotFound *)
| ErrPaymentTransactionNotFound    (* payment.ErrPaymentTransactionNotFound *)
| ErrDBLockTimeout                 (* paymentService.ErrDBLockTimeout *)
| MySQLError (Number : Z)          (* *mysql.MySQLError *)
| ErrSQL (msg : string).

(** What [InitPayment] returns next to a nil handler. *)
Inductive InitError : Type :=
| ErrDB
| ErrConflict
| ErrDisabled (methodID : Z).

Inductive TxEvent : Type :=
| TxLog (lvl : Lvl) (msg : string)
| TxLabel (retries : Z)            (* control reaches beginTx *)
| TxBegin
| TxPaymentByPaymentID
| TxInsertPayment
| TxPaymentTransaction
| TxSetPaymentTransaction
| TxCommit
| TxRollback
| TxSleep.

Definition PaymentStatusPending : string := "pending".

(** The answers of the database during one pass through the code after
    the label; a call that the pass does not reach is not consulted. *)
Record Answers : Type := mkAnswers {
  ans_Begin : option DBError;
  ans_PaymentByPaymentIDTx : string * option DBError;   (* MethodKey, err *)
  ans_InsertPaymentTx : option DBError;
  ans_PaymentTransaction : string * option DBError;     (* Status, err *)
  ans_SetPaymentTransaction : option DBError;
  ans_Commit : option DBError;
  ans_Rollback : option DBError
}.

(** How a pass ends: with [goto beginTx] after [retries++], or with a
    [return]; the latter carries the variables [tx != nil] and [commit]
    that the deferred function reads. *)
Inductive Flow : Type :=
| Goto_beginTx
| Return (err : option InitError) (tx_open commit : bool).

(** Lines 53-121: from [Begin] to the final [return]. *)
Definition pass (methodKey : string) (d : Answers) : list TxEvent * Flow :=
  match ans_Begin d with
  | Some _ =>
      ([TxBegin; TxLog LvlCrit "error on begin tx"], Return (Some ErrDB) false true)
  | None =>
      let after_payment (evs : list TxEvent) : list TxEvent * Flow :=
        match ans_PaymentTransaction d with
        | (_, Some (ErrDBLockTimeout | MySQLError _ | ErrSQL _ | ErrPaymentNotFound)) =>
            (evs ++ [TxPaymentTransaction;
                     TxLog LvlError "error retrieving payment transaction"],
             Return (Some ErrDB) true false)
        | (currentStatus, _) =>
            let commit_tx (evs : list TxEvent) : list TxEvent * Flow :=
              match ans_Commit d with
              | Some (MySQLError 1213) =>
                  (evs ++ [TxCommit; TxSleep], Goto_beginTx)
              | Some _ =>
                  (evs ++ [TxCommit; TxLog LvlCrit "error on commit"],
                   Return (Some ErrDB) true true)
              | None => (evs ++ [TxCommit], Return None true true)
              end in
            if negb (String.eqb currentStatus PaymentStatusPending) then
              match ans_SetPaymentTransaction d with
              | Some ErrDBLockTimeout =>
                  (evs ++ [TxPaymentTransaction; TxSetPaymentTransaction; TxSleep],
                   Goto_beginTx)
              | Some _ =>
                  (evs ++ [TxPaymentTransaction; TxSetPaymentTransaction;
                           TxLog LvlError "error setting payment tx"],
                   Return (Some ErrDB) true false)
              | None =>
                  commit_tx (evs ++ [TxPaymentTransaction; TxSetPaymentTransaction])
              end
            else commit_tx (evs ++ [TxPaymentTransaction])
        end in
      match ans_PaymentByPaymentIDTx d with
      | (_, Some (ErrPaymentTransactionNotFound | ErrDBLockTimeout
                 | MySQLError _ | ErrSQL _)) =>
          ([TxBegin; TxPaymentByPaymentID;
            TxLog LvlError "error retrieving payment id"],
           Return (Some ErrDB) true false)
      | (registeredMethodKey, None) =>
          if negb (String.eqb registeredMethodKey methodKey) then
            ([TxBegin; TxPaymentByPaymentID;
              TxLog LvlCrit "payment does exist but has a different method key"],
             Return (Some ErrConflict) true false)
          else after_payment [TxBegin; TxPaymentByPaymentID]
      | (_, Some ErrPaymentNotFound) =>
          match ans_InsertPaymentTx d with
          | Some _ =>
              ([TxBegin; TxPaymentByPaymentID; TxInsertPayment;
                TxLog LvlError "error creating new payment"],
               Return (Some ErrDB) true false)
          | None => after_payment [TxBegin; TxPaymentByPaymentID; TxInsertPayment]
          end
      end
  end.

(** The deferred function: roll back an open, uncommitted transaction. *)
Definition deferred (tx_open commit : bool) (d : Answers) : list TxEvent :=
  if tx_open && negb commit then
    match ans_Rollback d with
    | Some _ => [TxRollback; TxLog LvlCrit "error on rollback"]
    | None => [TxRollback]
    end
  else [].

(** The label [beginTx] and what follows it.  [db retries] are the
    answers of the database in the pass that starts with the counter at
    [retries]; [tx_open] is [tx != nil].  Go's [int] is 64 bits wide and
    the counter stays at or below [maxRetries], so [retries++] never
    wraps. *)
Equations? beginTx (maxRetries : Z) (methodKey : string) (db : Z -> Answers)
    (tx_open : bool) (retries : Z) : list TxEvent * option InitError
    by wf (Z.to_nat (maxRetries - retries)) lt :=
  beginTx maxRetries methodKey db tx_open retries with Z_ge_dec retries maxRetries => {
    | left _ =>
        (* no need to roll back: commit = true *)
        ([TxLabel retries; TxLog LvlCrit "too many retries on tx. aborting..."]
           ++ deferred tx_open true (db retries),
         Some ErrDB);
    | right _ with pass methodKey (db retries) => {
        | (evs, Return err tx_open' commit) =>
            (TxLabel retries :: evs ++ deferred tx_open' commit (db retries), err);
        | (evs, Goto_beginTx) =>
            let rest := beginTx maxRetries methodKey db true (retries + 1) in
            (TxLabel retries :: evs ++ fst rest, snd rest)
      }
  }.
Proof. lia. Qed.

(** The package variable [Debug]. *)
Definition debugLog (Debug : bool) : list TxEvent :=
  if Debug then [TxLog LvlDebug "initialize payment"] else [].

(** [Driver.InitPayment], up to the handler it returns on success. *)
Definition InitPayment (Debug : bool) (maxRetries : Z) (methodID : Z)
    (methodDisabled : bool) (methodKey : string) (db : Z -> Answers)
  : list TxEvent * option InitError :=
  if methodDisabled then
    (debugLog Debug ++ [TxLog LvlWarn "payment requested with disabled payment method"],
     Some (ErrDisabled methodID))
  else
    let run := beginTx maxRetries methodKey db false 0 in
    (debugLog Debug ++ fst run, snd run).

(** The values of the counter each time control reaches the label. *)
Fixpoint labels (evs : list TxEvent) : list Z :=
  match evs with
  | [] => []
  | TxLabel r :: evs' => r :: labels evs'
  | _ :: evs' => labels evs'
  end.

(** [l] counts up from [r] in steps of one. *)
Fixpoint counts_from (r : Z) (l : list Z) : Prop :=
  match l with
  | [] => True
  | x :: l' => x = r /\ counts_from (r + 1) l'
  end.

(** The two answers after which the code says [goto beginTx]. *)
Definition retriable (d : Answers) : Prop :=
  ans_SetPaymentTransaction d = Some ErrDBLockTimeout
  \/ ans_Commit d = Some (MySQLError 1213).

End FritzPay.

(** ** A concrete installation, for evaluating the handlers

    The keyed tag below is a stand-in with the Signer's interface (it is
    no MAC); the JSON encoder quotes its argument without escaping, which
    is exact for the serialized tokens of [Spec]. *)

Module Demo.

Definition signer : Spec.Signer :=
  {| Spec.sign secret message := Spec.hex secret +:+ "/" +:+ Spec.hex message |}.

Definition marshal (authorization : string) : result string :=
  Ok ("{" +:+ dquote +:+ "Authorization" +:+ dquote +:+ ":"
      +:+ dquote +:+ authorization +:+ dquote +:+ "}").

Definition bcrypt (hash pw : string) : option error :=
  if String.eqb hash ("bcrypt:" +:+ pw) then None
  else Some ErrMismatchedHashAndPassword.

Definition key1 : Spec.KeychainKey :=
  {| Spec.key_id := 1; Spec.key_secret := "s1";
     Spec.key_createdAt := 1000; Spec.key_retired := false |}.

Definition keychain : Spec.Keychain :=
  {| Spec.kc_keys := [key1]; Spec.kc_nextID := 2 |}.

Definition admin (kc : Spec.Keychain) (now : Z) : @AdminAPI (SpecAPI signer) :=
  {| cfg_AllowCookieAuth := true;
     cfg_HttpOnly := true;
     cfg_Secure := false;
     ctx_Keychain := kc : @Keychain (SpecAPI signer);
     EntryByNameDB name :=
       if String.eqb name "SystemPassword" then Ok "bcrypt:secret"
       else Err ErrEntryNotFound;
     ConfigNameSystemPassword := "SystemPassword";
     AuthUserIDKey := "uid";
     systemUserID := "42";
     AuthLifetime := 3600;
     AuthCookieName := "auth";
     ServicePath := "/v1";
     bcrypt_CompareHashAndPassword := bcrypt;
     base64_DecodeString := Base64.DecodeString;
     json_Marshal := marshal;
     time_Now := now |}.

Definition request (authorization : string) : Request :=
  {| req_Method := "GET"; req_Path := "/v1/authorization/basic";
     req_Header := {[ "Authorization" := authorization ]};
     req_Cookies := ∅ |}.

Definition fresh : World := {| w := emptyResponse; ctxvar := None |}.

(** A parent handler that answers 200 with the user id it finds in the
    request context. *)
Definition parent : Handler :=
  fun _ σ =>
    {| w := {| rw_header := rw_header (w σ); rw_cookies := rw_cookies (w σ);
               rw_status := Some StatusOK;
               rw_body := default "" (p ← ctxvar σ; p !! "uid");
               rw_write_err := rw_write_err (w σ) |};
       ctxvar := ctxvar σ |}.

(** The token the issuing path hands out at clock reading 5000. *)
Definition issued : string :=
  Eval vm_compute in
    match respondWithAuthorization (admin keychain 5000) fresh with
    | Returned _ σ _ =>
        match rw_cookies (w σ) with
        | c :: _ => cookie_Value c
        | [] => ""
        end
    | Panicked _ _ _ => ""
    end.

(** A database on which every commit deadlocks. *)
Definition deadlocked : FritzPay.Answers :=
  {| FritzPay.ans_Begin := None;
     FritzPay.ans_PaymentByPaymentIDTx := ("fritzpay_demo", None);
     FritzPay.ans_InsertPaymentTx := None;
     FritzPay.ans_PaymentTransaction := ("open", None);
     FritzPay.ans_SetPaymentTransaction := None;
     FritzPay.ans_Commit := Some (FritzPay.MySQLError 1213);
     FritzPay.ans_Rollback := None |}.

End Demo.

(** ** Pipelines and observations used in the statements *)

(** The token string a request carries for [AuthHandler]: the
    Authorization header, or the auth cookie when the header is empty and
    cookie authorization is allowed. *)
Definition tokenString `{AuthorizationAPI} (a : AdminAPI) (r : Request) : option string :=
  if String.eqb (Header_Get r "Authorization") "" then
    if cfg_AllowCookieAuth a then req_Cookies r !! AuthCookieName a else None
  else Some (Header_Get r "Authorization").

(** The three verification failures: [ReadFrom] answers an error, or
    [MatchKey] does, or [Decode] does. *)
Definition verification_fails `{AuthorizationAPI} (a : AdminAPI) (authStr : string) : bool :=
  match auth_ReadFrom authStr (NewAuthorization sha256_New) with
  | (Some _, _) => true
  | (None, auth) =>
      match kc_MatchKey (ctx_Keychain a) auth with
      | Err _ => true
      | Ok key =>
          match auth_Decode key auth with
          | (Some _, _) => true
          | (None, _) => false
          end
      end
  end.

(** The container [respondWithAuthorization] hands to [Encode]. *)
Definition freshAuthorization `{AuthorizationAPI} (a : AdminAPI) : Authorization :=
  auth_Expires (time_Now a + AuthLifetime a)
    (auth_SetPayload (AuthUserIDKey a) (systemUserID a)
       (NewAuthorization sha256_New)).

(** The cookie [respondWithAuthorization] sets for the serialized string. *)
Definition authCookie `{AuthorizationAPI} (a : AdminAPI) (auth : Authorization)
    (s : string) : Cookie :=
  {| cookie_Name := AuthCookieName a; cookie_Value := s;
     cookie_Path := ServicePath a; cookie_Expires := auth_Expiry auth;
     cookie_HttpOnly := cfg_HttpOnly a; cookie_Secure := cfg_Secure a |}.

(** Key retrieval, [Encode] or [Serialized] answers an error. *)
Definition issue_fails `{AuthorizationAPI} (a : AdminAPI) : bool :=
  match kc_BinKey (ctx_Keychain a) with
  | Err _ => true
  | Ok key =>
      match auth_Encode key (freshAuthorization a) with
      | (Some _, _) => true
      | (None, auth) =>
          match auth_Serialized auth with
          | Err _ => true
          | Ok _ => false
          end
      end
  end.

(** The calls of [respondWithAuthorization] up to and including the one
    for the signing key. *)
Definition issue_prefix `{AuthorizationAPI} (a : AdminAPI) : list Event :=
  [EvNewAuthorization; EvSetPayload (AuthUserIDKey a) (systemUserID a);
   EvExpires (time_Now a + AuthLifetime a); EvBinKey].

(** The world after [w.WriteHeader(http.StatusInternalServerError)]. *)
Definition server_error (σ : World) : World :=
  {| w := WriteHeader_rw StatusInternalServerError (w σ); ctxvar := ctxvar σ |}.

(** The parsed token's expiry lies before the clock reading. *)
Definition expired `{AuthorizationAPI} (a : AdminAPI) (authStr : string) : bool :=
  match auth_ReadFrom authStr (NewAuthorization sha256_New) with
  | (Some _, _) => false
  | (None, auth) => auth_Expiry auth <? time_Now a
  end.

(** The steps of the verify path among the events of a run. *)
Inductive Step : Type := StepReadFrom | StepExpiryCheck | StepMatchKey | StepDecode.

Fixpoint steps (evs : list Event) : list Step :=
  match evs with
  | [] => []
  | EvReadFrom _ :: evs' => StepReadFrom :: steps evs'
  | EvExpiryCheck _ _ :: evs' => StepExpiryCheck :: steps evs'
  | EvMatchKey :: evs' => StepMatchKey :: steps evs'
  | EvDecode :: evs' => StepDecode :: steps evs'
  | _ :: evs' => steps evs'
  end.

Definition Step_eqb (s1 s2 : Step) : bool :=
  match s1, s2 with
  | StepReadFrom, StepReadFrom | StepExpiryCheck, StepExpiryCheck
  | StepMatchKey, StepMatchKey | StepDecode, StepDecode => true
  | _, _ => false
  end.

(** [l1] is an initial segment of [l2]. *)
Fixpoint initial_segment (l1 l2 : list Step) : bool :=
  match l1, l2 with
  | [], _ => true
  | x :: l1', y :: l2' => Step_eqb x y && initial_segment l1' l2'
  | _ :: _, [] => false
  end.

(** The order of the design document: expiry is compared after decode. *)
Definition documented_order : list Step :=
  [StepReadFrom; StepMatchKey; StepDecode; StepExpiryCheck].

(** The order of [AuthHandler]: expiry is compared right after parsing. *)
Definition handler_order : list Step :=
  [StepReadFrom; StepExpiryCheck; StepMatchKey; StepDecode].

Definition is_serve (which : Role) (e : Event) : bool :=
  match e, which with
  | EvServeHTTP RoleSuccess, RoleSuccess | EvServeHTTP RoleFailed, RoleFailed => true
  | _, _ => false
  end.

Definition is_exposure (e : Event) : bool :=
  match e with EvSetRequestContextVar _ => true | _ => false end.

Definition is_output (e : Event) : bool :=
  match e with EvWrite _ | EvSetCookie _ => true | _ => false end.

(** A log record at a level that reports a fault. *)
Definition is_fault_log (e : Event) : bool :=
  match e with EvLog (LvlCrit | LvlError | LvlWarn) _ => true | _ => false end.

(** The decoded credentials of HTTP Basic: user id, colon, password. *)
Definition basicCredentials (user pw : string) : string :=
  user +:+ String ":"%char pw.

(** Issue and verify with the container of [Spec], as the two handlers do:
    set payload and expiry, encode, serialize; read, decode. *)
Definition issueToken (S : Spec.Signer) (key : Spec.KeychainKey) (p : Payload) (e : Z)
  : result string :=
  let t := snd (Spec.setPayload p (Spec.new S)) in
  let t := snd (Spec.setExpiry e t) in
  match Spec.encode key t with
  | (Some err, _) => Err err
  | (None, t) => Spec.serialized t
  end.

(** The signature that [encode] stores. *)
Definition issuedTag (S : Spec.Signer) (key : Spec.KeychainKey) (p : Payload) (e : Z)
  : string :=
  Spec.sign S (Spec.key_secret key)
    (Spec.canonical (Spec.key_id key) e (Spec.marshal_payload p)).

Definition verifyToken (S : Spec.Signer) (key : Spec.KeychainKey) (s : string)
  : result Spec.Token :=
  match Spec.readFrom s (Spec.new S) with
  | (Some err, _) => Err err
  | (None, t) =>
      match Spec.decode key t with
      | (Some err, _) => Err err
      | (None, t) => Ok t
      end
  end.

(** The five ways through lines 195-225. *)
Inductive verify_run `{API : AuthorizationAPI} (a : AdminAPI) (success failed : Handler)
    (r : Request) (authStr : string) (σ : World) : Outcome unit -> Prop :=
| run_malformed err auth :
    auth_ReadFrom authStr (NewAuthorization sha256_New) = (Some err, auth) ->
    verify_run a success failed r authStr σ
      (Returned tt (failed r σ)
         [EvNewAuthorization; EvReadFrom authStr;
          EvLog LvlDebug "error reading authorization"; EvServeHTTP RoleFailed])
| run_expired auth :
    auth_ReadFrom authStr (NewAuthorization sha256_New) = (None, auth) ->
    auth_Expiry auth < time_Now a ->
    verify_run a success failed r authStr σ
      (Returned tt (failed r σ)
         [EvNewAuthorization; EvReadFrom authStr;
          EvExpiryCheck (auth_Expiry auth) (time_Now a);
          EvLog LvlDebug "authorization expired"; EvServeHTTP RoleFailed])
| run_no_key auth err :
    auth_ReadFrom authStr (NewAuthorization sha256_New) = (None, auth) ->
    time_Now a <= auth_Expiry auth ->
    kc_MatchKey (ctx_Keychain a) auth = Err err ->
    verify_run a success failed r authStr σ
      (Returned tt (failed r σ)
         [EvNewAuthorization; EvReadFrom authStr;
          EvExpiryCheck (auth_Expiry auth) (time_Now a);
          EvMatchKey; EvKeyCount;
          EvLog LvlDebug "error retrieving matching key from keychain";
          EvServeHTTP RoleFailed])
| run_bad_signature auth key err auth' :
    auth_ReadFrom authStr (NewAuthorization sha256_New) = (None, auth) ->
    time_Now a <= auth_Expiry auth ->
    kc_MatchKey (ctx_Keychain a) auth = Ok key ->
    auth_Decode key auth = (Some err, auth') ->
    verify_run a success failed r authStr σ
      (Returned tt (failed r σ)
         [EvNewAuthorization; EvReadFrom authStr;
          EvExpiryCheck (auth_Expiry auth) (time_Now a);
          EvMatchKey; EvDecode;
          EvLog LvlDebug "error decoding authorization"; EvServeHTTP RoleFailed])
| run_authorized auth key auth' :
    auth_ReadFrom authStr (NewAuthorization sha256_New) = (None, auth) ->
    time_Now a <= auth_Expiry auth ->
    kc_MatchKey (ctx_Keychain a) auth = Ok key ->
    auth_Decode key auth = (None, auth') ->
    verify_run a success failed r authStr σ
      (Returned tt
         (success r {| w := w σ; ctxvar := Some (auth_Payload auth') |})
         [EvNewAuthorization; EvReadFrom authStr;
          EvExpiryCheck (auth_Expiry auth) (time_Now a);
          EvMatchKey; EvDecode;
          EvSetRequestContextVar (auth_Payload auth'); EvServeHTTP RoleSuccess]).

(** ** auth.go: [GetAuthorization] *)

Definition StatusNotFound : Z := 404.
Definition StatusMethodNotAllowed : Z := 405.

(** [path.Split]: the text up to and including the last slash, and the
    text after it. *)
Fixpoint path_Split (p : string) : string * string :=
  match p with
  | EmptyString => (EmptyString, EmptyString)
  | String c p' =>
      let (dir, file) := path_Split p' in
      match dir with
      | String _ _ => (String c dir, file)
      | EmptyString =>
          if Ascii.eqb c "/"%char then (String c EmptyString, file)
          else (EmptyString, String c file)
      end
  end.

(** [getAuthorizationMethod]; [path.Clean] is the library's. *)
Definition getAuthorizationMethod (path_Clean : string -> string) (p : string) : string :=
  snd (path_Split (path_Clean p)).

(** The handler that [GetAuthorization] returns. *)
Definition GetAuthorization `{AuthorizationAPI} (path_Clean : string -> string)
    (a : AdminAPI) (r : Request) : HandlerM unit :=
  Header_Set "Content-Type" "application/json" ;;
  if negb (String.eqb (req_Method r) "GET") then
    WriteHeader StatusMethodNotAllowed
  else if String.eqb (getAuthorizationMethod path_Clean (req_Path r)) "basic" then
    authenticateBasicAuth a r
  else
    WriteHeader StatusNotFound.

(** The number of times a handler of the given role is served. *)
Definition served (which : Role) (evs : list Event) : nat :=
  length (List.filter (is_serve which) evs).

Definition is_sleep (e : Event) : bool :=
  match e with EvSleep => true | _ => false end.

(** The scheme word of an Authorization header: the text before the first
    space, or all of it. *)
Definition scheme (h : string) : string :=
  match GoStrings.cut " "%char h with
  | Some (hd, _) => hd
  | None => h
  end.

(** The response after [requestBasicAuth]. *)
Definition challenged (σ : World) : World :=
  {| w := WriteHeader_rw StatusUnauthorized
            {| rw_header :=
                 <["WWW-Authenticate" :=
                     "Basic realm=" +:+ dquote +:+ "Authorization" +:+ dquote]>
                   (rw_header (w σ));
               rw_cookies := rw_cookies (w σ);
               rw_status := rw_status (w σ);
               rw_body := rw_body (w σ);
               rw_write_err := rw_write_err (w σ) |};
     ctxvar := ctxvar σ |}.

(** [path.Clean] on a path that is clean already. *)
Definition alreadyClean (p : string) : string := p.

(** An installation whose payment database holds no system password. *)
Definition adminWithoutPassword : @AdminAPI (SpecAPI Demo.signer) :=
  {| cfg_AllowCookieAuth := false;
     cfg_HttpOnly := true;
     cfg_Secure := false;
     ctx_Keychain := Demo.keychain : @Keychain (SpecAPI Demo.signer);
     EntryByNameDB _ := Err ErrEntryNotFound;
     ConfigNameSystemPassword := "SystemPassword";
     AuthUserIDKey := "uid";
     systemUserID := "42";
     AuthLifetime := 3600;
     AuthCookieName := "auth";
     ServicePath := "/v1";
     bcrypt_CompareHashAndPassword := Demo.bcrypt;
     base64_DecodeString := Base64.DecodeString;
     json_Marshal := Demo.marshal;
     time_Now := 5000 |}.

(** A request that carries the token in the auth cookie only. *)
Definition cookieRequest (token : string) : Request :=
  {| req_Method := "GET"; req_Path := "/v1/payment";
     req_Header := ∅;
     req_Cookies := {[ "auth" := token ]} |}.

(** ** env/log.go: the daemon log format *)

Module Utf8.

Definition RuneError : N := 65533.
Definition MaxRune : N := 1114111.

(** The table [first] and the accept ranges of package [unicode/utf8]:
    for a leading byte, the length of the sequence and the bounds of its
    second byte; [None] for a byte that starts no sequence. *)
Definition leading (s0 : N) : option (N * N * N) :=
  if (194 <=? s0)%N && (s0 <=? 223)%N then Some (2, 128, 191)%N
  else if (s0 =? 224)%N then Some (3, 160, 191)%N
  else if (225 <=? s0)%N && (s0 <=? 236)%N then Some (3, 128, 191)%N
  else if (s0 =? 237)%N then Some (3, 128, 159)%N
  else if (238 <=? s0)%N && (s0 <=? 239)%N then Some (3, 128, 191)%N
  else if (s0 =? 240)%N then Some (4, 144, 191)%N
  else if (241 <=? s0)%N && (s0 <=? 243)%N then Some (4, 128, 191)%N
  else if (s0 =? 244)%N then Some (4, 128, 143)%N
  else None.

Definition within (lo hi x : N) : bool := (lo <=? x)%N && (x <=? hi)%N.

(** [for _, r := range s]: the runes of [s]; a byte that starts no valid
    sequence yields [RuneError] and is skipped alone. *)
Fixpoint RangeString (s : string) : list N :=
  match s with
  | EmptyString => []
  | String c0 t0 =>
      let s0 := N_of_ascii c0 in
      if (s0 <? 128)%N then s0 :: RangeString t0
      else
        let invalid := RuneError :: RangeString t0 in
        match leading s0, t0 with
        | Some (sz, lo, hi), String c1 t1 =>
            let s1 := N_of_ascii c1 in
            if negb (within lo hi s1) then invalid
            else if (sz =? 2)%N then
              N.lor (N.shiftl (N.land s0 31) 6) (N.land s1 63) :: RangeString t1
            else
              match t1 with
              | String c2 t2 =>
                  let s2 := N_of_ascii c2 in
                  if negb (within 128 191 s2) then invalid
                  else if (sz =? 3)%N then
                    N.lor (N.lor (N.shiftl (N.land s0 15) 12)
                                 (N.shiftl (N.land s1 63) 6))
                          (N.land s2 63) :: RangeString t2
                  else
                    match t2 with
                    | String c3 t3 =>
                        let s3 := N_of_ascii c3 in
                        if negb (within 128 191 s3) then invalid
                        else
                          N.lor (N.lor (N.lor (N.shiftl (N.land s0 7) 18)
                                              (N.shiftl (N.land s1 63) 12))
                                       (N.shiftl (N.land s2 63) 6))
                                (N.land s3 63) :: RangeString t3
                    | EmptyString => invalid
                    end
              | EmptyString => invalid
              end
        | _, _ => invalid
        end
  end.

(** The conversion [byte(x)]: the low eight bits. *)
Definition byte (x : N) : ascii := ascii_of_N (x mod 256).

(** The continuation byte [tx | byte(x)&maskx]. *)
Definition continuation (x : N) : ascii := byte (N.lor 128 (N.land x 63)).

(** [utf8.EncodeRune]. *)
Definition EncodeRune (r : N) : string :=
  if (r <=? 127)%N then String (byte r) EmptyString
  else if (r <=? 2047)%N then
    String (byte (N.lor 192 (N.shiftr r 6))) (String (continuation r) EmptyString)
  else
    let r := if (MaxRune <? r)%N || within 55296 57343 r then RuneError else r in
    if (r <=? 65535)%N then
      String (byte (N.lor 224 (N.shiftr r 12)))
        (String (continuation (N.shiftr r 6)) (String (continuation r) EmptyString))
    else
      String (byte (N.lor 240 (N.shiftr r 18)))
        (String (continuation (N.shiftr r 12))
           (String (continuation (N.shiftr r 6))
              (String (continuation r) EmptyString))).

End Utf8.

Module Log.

Definition errorKey : string := "ERROR".

Definition sdCrit : string := "<2>".
Definition sdErr : string := "<3>".
Definition sdWarning : string := "<4>".
Definition sdInfo : string := "<6>".
Definition sdDebug : string := "<7>".

Definition backslash : ascii := "092"%char.

(** The first three statements of the loop body: a rune at or below the
    space, an equals sign or a double quote asks for quotes. *)
Definition needsQuotes (r : N) : bool :=
  (r <=? 32)%N || (r =? 61)%N || (r =? 34)%N.

(** The [switch r] of the loop body: what is written for one rune. *)
Definition escapeRune (r : N) : string :=
  if (r =? 92)%N || (r =? 34)%N then
    String backslash (String (Utf8.byte r) EmptyString)
  else if (r =? 10)%N then String backslash "n"
  else if (r =? 13)%N then String backslash "r"
  else if (r =? 9)%N then String backslash "t"
  else Utf8.EncodeRune r.

(** One turn of [for _, r := range s]; the state is [needQuotes] and the
    buffer [e]. *)
Definition escapeStep (st : bool * string) (r : N) : bool * string :=
  ((if needsQuotes r then true else fst st), snd st +:+ escapeRune r).

(** [escapeString]: the buffer starts with a double quote and ends with
    one; both are cut off again when no quotes are needed. *)
Definition escapeString (s : string) : string :=
  let st := fold_left escapeStep (Utf8.RangeString s) (false, dquote) in
  let e := snd st +:+ dquote in
  let start_stop :=
    if fst st then (0, String.length e)%nat
    else (1, String.length e - 1)%nat in
  substring (fst start_stop) (snd start_stop - fst start_stop) e.

(** A value of type [interface{}] as [logValue] tells them apart, in the
    order of its type switch; what a library call renders (time layout,
    [strconv.FormatFloat], [Error()], [String()], the verb [%+v]) is
    carried by the value. *)
Inductive GoValue : Type :=
| VNil
| VTime (formatted : string)          (* v.Format(timeFormat) *)
| VError (message : string)           (* v.Error() *)
| VStringer (text : string)           (* v.String() *)
| VBool (b : bool)
| VFloat (formatted : string)         (* strconv.FormatFloat(v, 'f', 3, 64) *)
| VInt (z : Z)
| VString (s : string)
| VOther (rendered : string).         (* fmt.Sprintf("%+v", v) *)

(** [fmt.Sprintf("%d", v)]. *)
Definition Sprintf_d (z : Z) : string := NilZero.string_of_int (Z.to_int z).

Definition logValue (value : GoValue) : string :=
  match value with
  | VNil => "nil"
  | VTime formatted => formatted
  | VError message => message
  | VStringer text => text
  | VBool b => if b then "true" else "false"
  | VFloat formatted => formatted
  | VInt z => Sprintf_d z
  | VString s => escapeString s
  | VOther rendered => escapeString rendered
  end.

Definition logLevel (buf : string) (lvl : Lvl) : string :=
  match lvl with
  | LvlCrit => buf +:+ sdCrit
  | LvlError => buf +:+ sdErr
  | LvlWarn => buf +:+ sdWarning
  | LvlInfo => buf +:+ sdInfo
  | LvlDebug => buf +:+ sdDebug
  end.

(** How [logRecord] ends: it returns, or [ctx[i+1]] is out of range; the
    buffer is what has been written by then. *)
Inductive LogRun : Type :=
| Logged (buf : string)
| LogPanic (buf : string).

(** The loop of [logRecord] from index [i] on, [ctx] being [ctx[i:]];
    [first] is [i == 0]. *)
Fixpoint logRecord_from (first : bool) (buf : string) (ctx : list GoValue) : LogRun :=
  match ctx with
  | [] => Logged (buf +:+ String "010"%char EmptyString)
  | ctx_i :: rest =>
      let buf := if first then buf else buf +:+ " " in
      match rest with
      | [] => LogPanic buf
      | ctx_i1 :: rest' =>
          let v := logValue ctx_i1 in
          let kv :=
            match ctx_i with
            | VString k => (k, v)
            | _ => (errorKey, logValue (VString EmptyString))
            end in
          logRecord_from false (buf +:+ fst kv +:+ "=" +:+ snd kv) rest'
      end
  end.

Definition logRecord (buf : string) (ctx : list GoValue) : LogRun :=
  logRecord_from true buf ctx.

(** A [log15.Record]: the key names, the time as [timeFormat] renders it,
    the level, the message and the context. *)
Record log15_Record : Type := mk_log15_Record {
  KeyNames_Time : string;
  KeyNames_Msg : string;
  KeyNames_Lvl : string;
  rec_Time : string;
  rec_Lvl : Lvl;
  rec_Msg : string;
  rec_Ctx : list GoValue
}.

(** [log15.Lvl.String]. *)
Definition Lvl_String (lvl : Lvl) : string :=
  match lvl with
  | LvlCrit => "crit" | LvlError => "eror" | LvlWarn => "warn"
  | LvlInfo => "info" | LvlDebug => "dbug"
  end.

(** The function that [DaemonFormat] returns. *)
Definition DaemonFormat (r : log15_Record) : LogRun :=
  let common :=
    [VString (KeyNames_Time r); VTime (rec_Time r);
     VString (KeyNames_Lvl r); VStringer (Lvl_String (rec_Lvl r));
     VString (KeyNames_Msg r); VString (rec_Msg r)] in
  logRecord (logLevel EmptyString (rec_Lvl r)) (common ++ rec_Ctx r).

(** All bytes of [s] satisfy [P]. *)
Fixpoint all_bytes (P : N -> bool) (s : string) : bool :=
  match s with
  | EmptyString => true
  | String c s' => P (N_of_ascii c) && all_bytes P s'
  end.

Definition is_ascii (s : string) : bool := all_bytes (fun n => (n <? 128)%N) s.

(** No line feed, carriage return or tab. *)
Definition unbroken (s : string) : bool :=
  all_bytes (fun n => negb ((n =? 10)%N || (n =? 13)%N || (n =? 9)%N)) s.

(** No byte at or below the space, no equals sign, no double quote. *)
Definition bare (s : string) : bool :=
  all_bytes (fun n => negb ((n <=? 32)%N || (n =? 61)%N || (n =? 34)%N)) s.

(** Bare and free of backslashes. *)
Definition plain (s : string) : bool :=
  all_bytes (fun n => negb ((n <=? 32)%N || (n =? 61)%N || (n =? 34)%N || (n =? 92)%N)) s.

Definition quoted (s : string) : Prop :=
  exists body, s = dquote +:+ body +:+ dquote.

Definition is_string (v : GoValue) : bool :=
  match v with VString _ => true | _ => false end.

(** The keys of a context are newline-free strings, its values strings. *)
Fixpoint string_pairs (ctx : list GoValue) : bool :=
  match ctx with
  | [] => true
  | VString k :: VString _ :: rest =>
      all_bytes (fun n => negb (n =? 10)%N) k && string_pairs rest
  | _ => false
  end.

(** The number of line feeds. *)
Fixpoint newlines (s : string) : nat :=
  match s with
  | EmptyString => 0%nat
  | String c s' => ((if (N_of_ascii c =? 10)%N then 1 else 0) + newlines s')%nat
  end.

End Log.

(** ** Observations on the log format *)

(** What the loop of [escapeString] appends to the buffer for the runes
    [rs]. *)
Fixpoint escapeBody (rs : list N) : string :=
  match rs with
  | [] => EmptyString
  | r :: rs' => Log.escapeRune r +:+ escapeBody rs'
  end.

(** Reading an escaped value back: a backslash and the byte after it stand
    for one byte. *)
Definition unescapeByte (c : ascii) : ascii :=
  if Ascii.eqb c "n"%char then "010"%char
  else if Ascii.eqb c "r"%char then "013"%char
  else if Ascii.eqb c "t"%char then "009"%char
  else c.

Fixpoint unescape (s : string) : string :=
  match s with
  | EmptyString => EmptyString
  | String c rest =>
      if Ascii.eqb c Log.backslash then
        match rest with
        | String d rest' => String (unescapeByte d) (unescape rest')
        | EmptyString => String c EmptyString
        end
      else String c (unescape rest)
  end.

Fixpoint dropLast (s : string) : string :=
  match s with
  | EmptyString => EmptyString
  | String c EmptyString => EmptyString
  | String c rest => String c (dropLast rest)
  end.

(** A value that starts with a double quote loses its first and last
    byte. *)
Definition unquote (s : string) : string :=
  match s with
  | String c rest => if Ascii.eqb c "034"%char then dropLast rest else s
  | EmptyString => EmptyString
  end.

Definition readBack (s : string) : string := unescape (unquote s).

(** The keys of a context are newline-free strings and its values are
    rendered without a line feed. *)
Fixpoint one_line_pairs (ctx : list Log.GoValue) : bool :=
  match ctx with
  | [] => true
  | Log.VString k :: v :: rest =>
      Nat.eqb (Log.newlines k) 0 && Nat.eqb (Log.newlines (Log.logValue v)) 0
      && one_line_pairs rest
  | _ => false
  end.

(** The syslog severity that sd-daemon(3) gives a level: critical 2,
    error 3, warning 4, informational 6, debug 7. *)
Definition severity (lvl : Lvl) : string :=
  match lvl with
  | LvlCrit => "2"
  | LvlError => "3"
  | LvlWarn => "4"
  | LvlInfo => "6"
  | LvlDebug => "7"
  end.

(** All bytes have the top bit set. *)
Definition high (s : string) : bool := Log.all_bytes (fun n => (128 <=? n)%N) s.

(** ** package payment (the second half of init.go) *)

Module Payment.

Definition PaymentStatusNone : string := "uninitialized".
Definition PaymentStatusOpen : string := "open".
Definition PaymentStatusPending : string := "pending".
Definition PaymentStatusPaid : string := "paid".

(** The dynamic types that [Scan] tells apart in its argument. *)
Inductive SqlValue : Type :=
| SqlBytes (src : string)      (* []byte *)
| SqlNil                       (* nil *)
| SqlString (str : string)     (* string *)
| SqlOther (typeName : string).

(** [PaymentTransactionStatus.Scan]: the error and the status behind
    the receiver afterwards. *)
Definition Scan (s : string) (v : SqlValue) : option error * string :=
  match v with
  | SqlBytes src => (None, src)
  | SqlNil => (None, PaymentStatusNone)
  | SqlString str => (None, str)
  | SqlOther typeName =>
      (Some (ErrOther ("cannot scan " +:+ typeName
                         +:+ " into *payment.PaymentTransactionStatus")), s)
  end.

(** [PaymentTransactionStatus.String]. *)
Definition Status_String (s : string) : string := s.

(** [PaymentTransactionStatus.Value]. *)
Definition Value (s : string) : SqlValue * option error :=
  (SqlString (Status_String s), None).

(** [PaymentTransactionStatus.Valid]. *)
Definition Valid (s : string) : bool := negb (String.eqb s "").

(** [dec.Dec] of package godec: an unscaled integer of any size and a
    scale; the number is [unscaled * 10^(-scale)]. *)
Record Dec : Type := mkDec {
  dec_unscaled : Z;
  dec_scale : Z
}.

Definition NewDecInt64 (x : Z) : Dec := {| dec_unscaled := x; dec_scale := 0 |}.

(** [SetScale] keeps the unscaled value. *)
Definition SetScale (sc : Z) (d : Dec) : Dec :=
  {| dec_unscaled := dec_unscaled d; dec_scale := sc |}.

(** [z.Add(x, y)] of package godec: the operand of the smaller scale is
    brought to the greater one, then the unscaled values are added. *)
Definition Dec_Add (x y : Dec) : Dec :=
  if dec_scale x =? dec_scale y then
    {| dec_unscaled := dec_unscaled x + dec_unscaled y; dec_scale := dec_scale x |}
  else if dec_scale y <? dec_scale x then
    {| dec_unscaled :=
         dec_unscaled x + dec_unscaled y * 10 ^ (dec_scale x - dec_scale y);
       dec_scale := dec_scale x |}
  else
    {| dec_unscaled :=
         dec_unscaled x * 10 ^ (dec_scale y - dec_scale x) + dec_unscaled y;
       dec_scale := dec_scale y |}.

Record PaymentTransaction : Type := mkPaymentTransaction {
  Timestamp : Z;
  Amount : Z;                 (* int64 *)
  Subunits : Z;               (* int8 *)
  Currency : string;
  Status : string;
  Comment : option string     (* sql.NullString *)
}.

(** [PaymentTransaction.Decimal]. *)
Definition Decimal (p : PaymentTransaction) : Dec :=
  SetScale (Subunits p) (NewDecInt64 (Amount p)).

(** One turn of the loop of [Balance]. *)
Definition Balance_step (b : gmap string Dec) (tx : PaymentTransaction)
  : gmap string Dec :=
  let am := Decimal tx in
  match b !! Currency tx with
  | Some cur => <[Currency tx := Dec_Add cur am]> b
  | None => <[Currency tx := am]> b
  end.

(** [PaymentTransactionList.Balance]. *)
Definition Balance (p : list PaymentTransaction) : gmap string Dec :=
  fold_left Balance_step p ∅.

(** The transactions in one currency, in list order. *)
Definition in_currency (c : string) (p : list PaymentTransaction)
  : list PaymentTransaction :=
  List.filter (fun tx => String.eqb (Currency tx) c) p.

(** The greatest scale among the transactions, starting from [s]. *)
Definition max_scale (s : Z) (p : list PaymentTransaction) : Z :=
  fold_left (fun m tx => Z.max m (Subunits tx)) p s.

(** The sum of the amounts, each brought to the scale [S]. *)
Fixpoint sum_at_scale (S : Z) (p : list PaymentTransaction) : Z :=
  match p with
  | [] => 0
  | tx :: p' => Amount tx * 10 ^ (S - Subunits tx) + sum_at_scale S p'
  end.

End Payment.

(** What the loop of [Balance] leaves under one currency: the entry [o]
    there before, then the transactions [l] of that currency. *)
Definition accumulate (o : option Payment.Dec) (l : list Payment.PaymentTransaction)
  : option Payment.Dec :=
  fold_left
    (fun o tx =>
       Some match o with
            | Some cur => Payment.Dec_Add cur (Payment.Decimal tx)
            | None => Payment.Decimal tx
            end)
    l o.

(** Three transactions in two currencies and with different subunits. *)
Definition ledger : list Payment.PaymentTransaction :=
  [ {| Payment.Timestamp := 1; Payment.Amount := 1250; Payment.Subunits := 2;
       Payment.Currency := "EUR"; Payment.Status := "open"; Payment.Comment := None |};
    {| Payment.Timestamp := 2; Payment.Amount := 7; Payment.Subunits := 0;
       Payment.Currency := "USD"; Payment.Status := "open"; Payment.Comment := None |};
    {| Payment.Timestamp := 3; Payment.Amount := -5; Payment.Subunits := 1;
       Payment.Currency := "EUR"; Payment.Status := "paid"; Payment.Comment := None |} ].

(** ** main.go (cmd/paymentd): [loadConfig] and [connectDB] *)

Module Main.

Inductive MainEvent : Type :=
| MLog (lvl : Lvl) (msg : string)
| MGetenv (name : string)
| MOpen (name : string)              (* os.Open *)
| MReadConfig (name : string)
| MClose (name : string)
| MSqlOpen (type dsn : string)       (* sql.Open *)
| MSetMaxOpenConns (dsn : string) (n : Z)
| MSetMaxIdleConns (dsn : string) (n : Z)
| MSetPrincipalDB (w : string) (ro : option string)
| MSetPaymentDB (w : string) (ro : option string).

Definition envVarConfigFileName : string := "PAYMENTDCFG".

(** The environment and the file system as [loadConfig] meets them. *)
Record OS : Type := mkOS {
  Getenv : string -> string;
  Open : string -> option error;
  ReadConfig : string -> option error;
  Close : string -> option error
}.

(** How [loadConfig] ends: it returns with the global [cfgFileName], the
    configuration being the default one or read from that file, or it
    calls [os.Exit]. *)
Inductive Loaded : Type :=
| Returns (cfgFileName : string) (fromFile : bool)
| Exit (code : Z).

Definition exiting (evs : list MainEvent) : list MainEvent * Loaded :=
  (evs ++ [MLog LvlInfo "exiting..."], Exit 1).

(** [loadConfig]; the argument is the flag [-c]. *)
Definition loadConfig (os : OS) (cfgFileName : string) : list MainEvent * Loaded :=
  let fromEnv :=
    String.eqb cfgFileName "" &&
    negb (String.eqb (Getenv os envVarConfigFileName) "") in
  let evs0 :=
    if String.eqb cfgFileName "" then
      if fromEnv then
        [MGetenv envVarConfigFileName; MGetenv envVarConfigFileName;
         MLog LvlInfo "using config file name from env"]
      else [MGetenv envVarConfigFileName]
    else [] in
  let cfgFileName := if fromEnv then Getenv os envVarConfigFileName else cfgFileName in
  if String.eqb cfgFileName "" then
    (evs0 ++ [MLog LvlInfo "no config file provided. trying default config..."],
     Returns cfgFileName false)
  else
    let evs1 := evs0 ++ [MLog LvlInfo "opening config file..."; MOpen cfgFileName] in
    match Open os cfgFileName with
    | Some _ => exiting (evs1 ++ [MLog LvlCrit "could not open config file"])
    | None =>
        let evs2 := evs1 ++ [MReadConfig cfgFileName] in
        match ReadConfig os cfgFileName with
        | Some _ => exiting (evs2 ++ [MLog LvlCrit "error reading config file"])
        | None =>
            let evs3 := evs2 ++ [MClose cfgFileName] in
            match Close os cfgFileName with
            | Some _ => exiting (evs3 ++ [MLog LvlCrit "error closing config file"])
            | None => (evs3, Returns cfgFileName true)
            end
        end
    end.

(** One database of the configuration: what its [Type()] and [DSN()]
    return. *)
Record DBConn : Type := mkDBConn {
  conn_Type : string;
  conn_DSN : string
}.

(** [cfg.Database]. *)
Record Database : Type := mkDatabase {
  Principal_Write : option DBConn;
  Principal_ReadOnly : option DBConn;
  Payment_Write : option DBConn;
  Payment_ReadOnly : option DBConn;
  MaxOpenConns : Z;
  MaxIdleConns : Z
}.

(** [sql.Open] followed by the two pool limits; a handle is named by its
    data source name. *)
Definition openLimited (sql_Open : string -> string -> option error) (d : Database)
    (c : DBConn) : list MainEvent * option error :=
  match sql_Open (conn_Type c) (conn_DSN c) with
  | Some err => ([MSqlOpen (conn_Type c) (conn_DSN c)], Some err)
  | None =>
      ([MSqlOpen (conn_Type c) (conn_DSN c);
        MSetMaxOpenConns (conn_DSN c) (MaxOpenConns d);
        MSetMaxIdleConns (conn_DSN c) (MaxIdleConns d)], None)
  end.

(** The write handle and the optional read-only handle of one database. *)
Definition openPair (sql_Open : string -> string -> option error) (d : Database)
    (write : DBConn) (readOnly : option DBConn)
  : list MainEvent * result (string * option string) :=
  match openLimited sql_Open d write with
  | (evs, Some err) => (evs, Err err)
  | (evs, None) =>
      match readOnly with
      | None => (evs, Ok (conn_DSN write, None))
      | Some ro =>
          match openLimited sql_Open d ro with
          | (evs', Some err) => (evs ++ evs', Err err)
          | (evs', None) => (evs ++ evs', Ok (conn_DSN write, Some (conn_DSN ro)))
          end
      end
  end.

(** [connectDB]. *)
Definition connectDB (sql_Open : string -> string -> option error) (d : Database)
  : list MainEvent * option error :=
  match Principal_Write d with
  | None => ([], Some (ErrOther "principal write DB config error"))
  | Some pw =>
      match openPair sql_Open d pw (Principal_ReadOnly d) with
      | (evs, Err err) => (evs, Some err)
      | (evs, Ok (w, ro)) =>
          let evs := evs ++ [MSetPrincipalDB w ro] in
          match Payment_Write d with
          | None => (evs, Some (ErrOther "payment write DB config error"))
          | Some yw =>
              match openPair sql_Open d yw (Payment_ReadOnly d) with
              | (evs', Err err) => (evs ++ evs', Some err)
              | (evs', Ok (w', ro')) =>
                  (evs ++ evs' ++ [MSetPaymentDB w' ro'], None)
              end
          end
      end
  end.

Definition is_sql_open (e : MainEvent) : bool :=
  match e with MSqlOpen _ _ => true | _ => false end.

Definition is_os_open (e : MainEvent) : bool :=
  match e with MOpen _ => true | _ => false end.

(** Every configured database opens. *)
Definition all_open (sql_Open : string -> string -> option error) (d : Database) : bool :=
  let opens (c : option DBConn) :=
    match c with
    | None => true
    | Some c => match sql_Open (conn_Type c) (conn_DSN c) with None => true | Some _ => false end
    end in
  opens (Principal_Write d) && opens (Principal_ReadOnly d)
  && opens (Payment_Write d) && opens (Payment_ReadOnly d).

(** The file name [loadConfig] settles on: the flag [-c], or the
    environment variable when the flag is empty. *)
Definition configName (os : OS) (flag : string) : string :=
  if String.eqb flag "" then Getenv os envVarConfigFileName else flag.

(** What [loadConfig] does before it opens a file whose name is set. *)
Definition preamble (os : OS) (flag : string) : list MainEvent :=
  if String.eqb flag "" then
    [MGetenv envVarConfigFileName; MGetenv envVarConfigFileName;
     MLog LvlInfo "using config file name from env"]
  else [].

(** Every handle that [sql.Open] returned in [evs] was given both pool
    limits of the configuration. *)
Definition limited (sql_Open : string -> string -> option error) (d : Database)
    (evs : list MainEvent) : Prop :=
  forall type dsn : string,
    In (MSqlOpen type dsn) evs ->
    sql_Open type dsn = None ->
    In (MSetMaxOpenConns dsn (MaxOpenConns d)) evs
    /\ In (MSetMaxIdleConns dsn (MaxIdleConns d)) evs.

(** An operating system without the environment variable, in which every
    file opens, reads and closes. *)
Definition plainOS : OS :=
  {| Getenv := fun _ => "";
     Open := fun _ => None;
     ReadConfig := fun _ => None;
     Close := fun _ => None |}.

(** A configuration with both write databases and a read-only payment
    database. *)
Definition demoDatabase : Database :=
  {| Principal_Write := Some (mkDBConn "mysql" "principal_w");
     Principal_ReadOnly := None;
     Payment_Write := Some (mkDBConn "mysql" "payment_w");
     Payment_ReadOnly := Some (mkDBConn "mysql" "payment_ro");
     MaxOpenConns := 10;
     MaxIdleConns := 5 |}.

End Main.

(** ** Observations on the events of [InitPayment] *)

Definition is_TxBegin (e : FritzPay.TxEvent) : bool :=
  match e with FritzPay.TxBegin => true | _ => false end.

Definition is_TxCommit (e : FritzPay.TxEvent) : bool :=
  match e with FritzPay.TxCommit => true | _ => false end.

Definition is_TxRollback (e : FritzPay.TxEvent) : bool :=
  match e with FritzPay.TxRollback => true | _ => false end.

(** A call that reaches the database. *)
Definition is_db_call (e : FritzPay.TxEvent) : bool :=
  match e with
  | FritzPay.TxLog _ _ | FritzPay.TxLabel _ | FritzPay.TxSleep => false
  | _ => true
  end.

Definition tx_count (P : FritzPay.TxEvent -> bool) (evs : list FritzPay.TxEvent) : nat :=
  length (List.filter P evs).

(** The answers with which a pass commits at once: the transaction begins,
    the payment is found or inserted, the status is set, the commit
    succeeds. *)
Definition commits (methodKey : string) (d : FritzPay.Answers) : bool :=
  match FritzPay.pass methodKey d with
  | (_, FritzPay.Return None _ _) => true
  | _ => false
  end.

(** A log record of [InitPayment] at error or critical level. *)
Definition is_tx_fault (e : FritzPay.TxEvent) : bool :=
  match e with
  | FritzPay.TxLog (LvlCrit | LvlError) _ => true
  | _ => false
  end.

(** A database that answers every call without error; the payment is not
    registered yet. *)
Definition healthy : FritzPay.Answers :=
  {| FritzPay.ans_Begin := None;
     FritzPay.ans_PaymentByPaymentIDTx := ("", Some FritzPay.ErrPaymentNotFound);
     FritzPay.ans_InsertPaymentTx := None;
     FritzPay.ans_PaymentTransaction := ("", Some FritzPay.ErrPaymentTransactionNotFound);
     FritzPay.ans_SetPaymentTransaction := None;
     FritzPay.ans_Commit := None;
     FritzPay.ans_Rollback := None |}.

(** A database on which the payment is registered under another method. *)
Definition conflicting : FritzPay.Answers :=
  {| FritzPay.ans_Begin := None;
     FritzPay.ans_PaymentByPaymentIDTx := ("other_method", None);
     FritzPay.ans_InsertPaymentTx := None;
     FritzPay.ans_PaymentTransaction := ("open", None);
     FritzPay.ans_SetPaymentTransaction := None;
     FritzPay.ans_Commit := None;
     FritzPay.ans_Rollback := None |}.

(** ** Facts about the string functions *)

Section StringFacts.

Import GoStrings.

Variable sep : ascii.

Lemma lacks_app (a b : string) :
  lacks sep (a +:+ b) = lacks sep a && lacks sep b.
Proof.
  induction a as [|c a IH]; simpl; [reflexivity|].
  rewrite IH. apply andb_assoc.
Qed.

Lemma cut_lacks (s : string) : lacks sep s = true -> cut sep s = None.
Proof.
  induction s as [|c s IH]; simpl; [reflexivity|].
  intros [Hc Hs]%andb_true_iff. apply negb_true_iff in Hc.
  rewrite Hc, (IH Hs). reflexivity.
Qed.

Lemma cut_None (s : string) : cut sep s = None -> lacks sep s = true.
Proof.
  induction s as [|c s IH]; simpl; [reflexivity|].
  destruct (Ascii.eqb c sep); [discriminate|].
  destruct (cut sep s) as [[hd tl]|]; [discriminate|].
  intros _. simpl. apply IH. reflexivity.
Qed.

Lemma cut_app (a b : string) :
  lacks sep a = true -> cut sep (a +:+ String sep b) = Some (a, b).
Proof.
  induction a as [|c a IH]; simpl.
  - intros _. rewrite Ascii.eqb_refl. reflexivity.
  - intros [Hc Ha]%andb_true_iff. apply negb_true_iff in Hc.
    rewrite Hc, (IH Ha). reflexivity.
Qed.

Lemma cut_Some (s hd tl : string) :
  cut sep s = Some (hd, tl) -> s = hd +:+ String sep tl /\ lacks sep hd = true.
Proof.
  revert hd. induction s as [|c s IH]; simpl; intros hd; [discriminate|].
  destruct (Ascii.eqb_spec c sep) as [->|Hne].
  - intros [= <- <-]. split; reflexivity.
  - destruct (cut sep s) as [[hd' tl']|]; [|discriminate].
    intros [= <- <-]. destruct (IH hd' eq_refl) as [-> Hl].
    split; [reflexivity|]. simpl. rewrite Hl.
    apply Ascii.eqb_neq in Hne. rewrite Hne. reflexivity.
Qed.

Lemma Count_lacks (s : string) : lacks sep s = true -> Count s sep = 0%nat.
Proof.
  induction s as [|c s IH]; simpl; [reflexivity|].
  intros [Hc Hs]%andb_true_iff. apply negb_true_iff in Hc.
  rewrite Hc, (IH Hs). reflexivity.
Qed.

Lemma Count_app (a b : string) :
  Count (a +:+ b) sep = (Count a sep + Count b sep)%nat.
Proof.
  induction a as [|c a IH]; simpl; [reflexivity|]. rewrite IH. lia.
Qed.

Lemma genSplit_nonempty (n : nat) (s : string) : genSplit sep n s <> [].
Proof.
  destruct n; simpl; [discriminate|].
  destruct (cut sep s) as [[hd tl]|]; discriminate.
Qed.

Lemma Count_Join (l : list string) :
  Forall (fun x => lacks sep x = true) l ->
  Count (Join l sep) sep = (length l - 1)%nat.
Proof.
  induction 1 as [|x l Hx Hl IH]; [reflexivity|].
  destruct l as [|y l].
  - simpl. apply Count_lacks, Hx.
  - change (Join (x :: y :: l) sep) with (x +:+ String sep (Join (y :: l) sep)).
    rewrite Count_app, (Count_lacks _ Hx).
    change (Count (String sep (Join (y :: l) sep)) sep)
      with ((if Ascii.eqb sep sep then 1 else 0) + Count (Join (y :: l) sep) sep)%nat.
    rewrite Ascii.eqb_refl, IH. simpl. lia.
Qed.

Lemma genSplit_Join (l : list string) :
  Forall (fun x => lacks sep x = true) l -> l <> [] ->
  forall n, (length l - 1 <= n)%nat -> genSplit sep n (Join l sep) = l.
Proof.
  induction 1 as [|x l Hx Hl IH]; [congruence|].
  intros _ n Hn. destruct l as [|y l].
  - simpl. destruct n; simpl; [reflexivity|].
    rewrite (cut_lacks _ Hx). reflexivity.
  - change (Join (x :: y :: l) sep) with (x +:+ String sep (Join (y :: l) sep)).
    destruct n as [|n]; [simpl in Hn; lia|].
    simpl genSplit. rewrite (cut_app _ _ Hx).
    f_equal. apply IH; [discriminate|]. simpl in *. lia.
Qed.

Lemma Split_Join (l : list string) :
  Forall (fun x => lacks sep x = true) l -> l <> [] ->
  Split (Join l sep) sep = l.
Proof.
  intros Hl Hne. unfold Split. apply genSplit_Join; [assumption..|].
  rewrite Count_Join by assumption. lia.
Qed.

End StringFacts.

(** ** Facts about the codec *)

Module CodecFacts.

Import GoStrings Spec.

Lemma hex_value_digit_hi (c : ascii) :
  hex_value (hex_digit (N_of_ascii c / 16)) = Some (N_of_ascii c / 16)%N.
Proof. destruct c as [[] [] [] [] [] [] [] []]; reflexivity. Qed.

Lemma hex_value_digit_lo (c : ascii) :
  hex_value (hex_digit (N_of_ascii c mod 16)) = Some (N_of_ascii c mod 16)%N.
Proof. destruct c as [[] [] [] [] [] [] [] []]; reflexivity. Qed.

Lemma ascii_of_nibbles (c : ascii) :
  ascii_of_N (16 * (N_of_ascii c / 16) + N_of_ascii c mod 16) = c.
Proof.
  rewrite <- N.div_mod by discriminate. apply ascii_N_embedding.
Qed.

Lemma unhex_hex (s : string) : unhex (hex s) = Some s.
Proof.
  induction s as [|c s IH]; [reflexivity|].
  cbn [hex unhex].
  rewrite hex_value_digit_hi, hex_value_digit_lo, IH, ascii_of_nibbles.
  reflexivity.
Qed.

(** A byte that is no hexadecimal digit does not occur in [hex s]. *)
Lemma lacks_hex (sep : ascii) (s : string) :
  hex_value sep = None -> lacks sep (hex s) = true.
Proof.
  intros Hsep.
  assert (Hd : forall c, Ascii.eqb (hex_digit (N_of_ascii c / 16)) sep = false
                      /\ Ascii.eqb (hex_digit (N_of_ascii c mod 16)) sep = false).
  { intros c. split; apply Ascii.eqb_neq; intros E.
    - pose proof (hex_value_digit_hi c) as H. rewrite E in H. congruence.
    - pose proof (hex_value_digit_lo c) as H. rewrite E in H. congruence. }
  induction s as [|c s IH]; [reflexivity|].
  cbn [hex lacks]. destruct (Hd c) as [-> ->]. exact IH.
Qed.

Lemma lacks_uint (sep : ascii) (d : Decimal.uint) :
  NilEmpty.uint_of_string (String sep EmptyString) = None ->
  lacks sep (NilEmpty.string_of_uint d) = true.
Proof.
  intros Hsep.
  induction d; cbn [NilEmpty.string_of_uint lacks]; try reflexivity;
    rewrite IHd, andb_true_r; apply negb_true_iff, Ascii.eqb_neq;
    intros <-; discriminate Hsep.
Qed.

Lemma lacks_format_int (sep : ascii) (z : Z) :
  NilEmpty.uint_of_string (String sep EmptyString) = None ->
  Ascii.eqb "-"%char sep = false ->
  lacks sep (format_int z) = true.
Proof.
  intros Hsep Hminus. unfold format_int.
  assert (Hu : forall d, lacks sep (NilZero.string_of_uint d) = true).
  { intros d. destruct d; try apply (lacks_uint sep _ Hsep).
    exact (lacks_uint sep (Decimal.D0 Decimal.Nil) Hsep). }
  destruct (Z.to_int z) as [d|d]; cbn [NilZero.string_of_int lacks].
  - apply Hu.
  - rewrite Hminus, Hu. reflexivity.
Qed.

Lemma parse_format_int (z : Z) : parse_int (format_int z) = Some z.
Proof.
  unfold parse_int, format_int.
  rewrite NilZero.isi.
  - simpl. f_equal. apply DecimalZ.of_to.
  - destruct z; simpl; try discriminate.
    intros [= E]. exact (Unsigned.to_uint_nonnil _ E).
  - destruct z; simpl; try discriminate.
    intros [= E]. exact (Unsigned.to_uint_nonnil _ E).
Qed.

Lemma unmarshal_marshal_item (kv : string * string) :
  unmarshal_item (marshal_item kv) = Some kv.
Proof.
  destruct kv as [k v]. unfold unmarshal_item, marshal_item. simpl fst; simpl snd.
  change (hex k +:+ String "="%char (hex v)) with (Join [hex k; hex v] "="%char).
  rewrite Split_Join.
  - rewrite !unhex_hex. reflexivity.
  - repeat constructor; apply lacks_hex; reflexivity.
  - discriminate.
Qed.

Lemma unmarshal_marshal_items (l : list (string * string)) :
  unmarshal_items (map marshal_item l) = Some l.
Proof.
  induction l as [|kv l IH]; [reflexivity|].
  cbn [map unmarshal_items]. rewrite unmarshal_marshal_item, IH. reflexivity.
Qed.

Lemma lacks_marshal_item (kv : string * string) :
  lacks "&"%char (marshal_item kv) = true.
Proof.
  unfold marshal_item. rewrite lacks_app. cbn [lacks].
  rewrite !lacks_hex by reflexivity. reflexivity.
Qed.

Lemma marshal_item_nonempty (kv : string * string) l :
  String.eqb (Join (marshal_item kv :: l) "&"%char) "" = false.
Proof.
  assert (H : forall a b, String.eqb (a +:+ b) "" = String.eqb a "" && String.eqb b "").
  { intros a b. destruct a, b; reflexivity. }
  assert (Hi : String.eqb (marshal_item kv) "" = false).
  { unfold marshal_item. rewrite H. cbn. apply andb_false_r. }
  destruct l as [|x l]; [exact Hi|].
  change (Join (marshal_item kv :: x :: l) "&"%char)
    with (marshal_item kv +:+ String "&"%char (Join (x :: l) "&"%char)).
  rewrite H, Hi. reflexivity.
Qed.

Lemma unmarshal_marshal_payload (p : Payload) :
  unmarshal_payload (marshal_payload p) = Some p.
Proof.
  unfold unmarshal_payload, marshal_payload.
  destruct (map_to_list p) as [|kv l] eqn:E.
  - apply map_to_list_empty_iff in E. subst p. reflexivity.
  - cbn [map]. rewrite marshal_item_nonempty.
    change (marshal_item kv :: map marshal_item l) with (map marshal_item (kv :: l)).
    rewrite Split_Join.
    + rewrite unmarshal_marshal_items. cbn [option_map]. f_equal.
      rewrite <- E. apply list_to_map_to_list.
    + generalize (kv :: l). intros l'.
      induction l'; constructor; [apply lacks_marshal_item | assumption].
    + discriminate.
Qed.

Lemma parse_serialize (keyID e : Z) (raw sig : string) :
  parse (serialize keyID e raw sig) = Ok (keyID, e, raw, sig).
Proof.
  unfold parse, serialize.
  rewrite Split_Join.
  - rewrite !parse_format_int, !unhex_hex. reflexivity.
  - repeat constructor;
      first [ apply lacks_format_int; reflexivity | apply lacks_hex; reflexivity ].
  - discriminate.
Qed.

End CodecFacts.

(** ** Round trip of the container *)

Section RoundTrip.

Import Spec.

Variable S : Signer.
Variable key : KeychainKey.
Variable p : Payload.
Variable e : Z.

Lemma issueToken_eq :
  issueToken S key p e = Ok (serialize (key_id key) e (marshal_payload p) (issuedTag S key p e)).
Proof. reflexivity. Qed.

Lemma readFrom_issued :
  readFrom (serialize (key_id key) e (marshal_payload p) (issuedTag S key p e)) (new S)
  = (None, {| tok_signer := S; tok_state := Parsed; tok_payload := None;
              tok_expiry := Some e; tok_keyID := key_id key;
              tok_rawPayload := marshal_payload p; tok_signature := issuedTag S key p e;
              tok_trusted := false |}).
Proof.
  unfold readFrom. cbn [tok_state new]. rewrite CodecFacts.parse_serialize.
  reflexivity.
Qed.

Lemma decode_parsed :
  decode key {| tok_signer := S; tok_state := Parsed; tok_payload := None;
                tok_expiry := Some e; tok_keyID := key_id key;
                tok_rawPayload := marshal_payload p;
                tok_signature := issuedTag S key p e; tok_trusted := false |}
  = (None, {| tok_signer := S; tok_state := Trusted; tok_payload := Some p;
              tok_expiry := Some e; tok_keyID := key_id key;
              tok_rawPayload := marshal_payload p;
              tok_signature := issuedTag S key p e; tok_trusted := true |}).
Proof.
  unfold decode, verify. cbn [tok_state tok_expiry tok_signer tok_keyID
                               tok_rawPayload tok_signature].
  fold (issuedTag S key p e). rewrite String.eqb_refl, CodecFacts.unmarshal_marshal_payload.
  reflexivity.
Qed.

Lemma verifyToken_issued :
  verifyToken S key (serialize (key_id key) e (marshal_payload p) (issuedTag S key p e))
  = Ok {| tok_signer := S; tok_state := Trusted; tok_payload := Some p;
          tok_expiry := Some e; tok_keyID := key_id key;
          tok_rawPayload := marshal_payload p; tok_signature := issuedTag S key p e;
          tok_trusted := true |}.
Proof.
  unfold verifyToken. rewrite readFrom_issued, decode_parsed. reflexivity.
Qed.

End RoundTrip.

(** C6. For any signer, key, payload mapping and expiry: encoding with the
    key, serializing, reading the string back and decoding with the same key
    succeeds, and the decoded token is trusted and carries an equal payload
    and an equal expiry. *)
Theorem decode_encode_roundtrip (S : Spec.Signer) (key : Spec.KeychainKey)
    (p : Payload) (e : Z) :
  exists (T : string) (t : Spec.Token),
    issueToken S key p e = Ok T
    /\ verifyToken S key T = Ok t
    /\ Spec.payload t = Some p
    /\ Spec.expiry t = e
    /\ Spec.tok_trusted t = true.
Proof.
  eexists. eexists. split; [apply issueToken_eq|].
  split; [apply verifyToken_issued|].
  repeat split.
Qed.

(** ** The runs of [AuthHandler] *)

Section VerifyRuns.

Context `{API : AuthorizationAPI}.
Variable a : AdminAPI.
Variables success failed : Handler.
Variable r : Request.

(** With a token string, the handler body is its second half. *)
Lemma AuthHandler_with_token (authStr : string) :
  tokenString a r = Some authStr ->
  AuthHandler a success failed r = AuthHandler_verify a success failed r authStr.
Proof.
  unfold tokenString, AuthHandler, Request_Cookie.
  destruct (String.eqb (Header_Get r "Authorization") "").
  - destruct (cfg_AllowCookieAuth a); [|discriminate]. cbn [negb].
    destruct (req_Cookies r !! AuthCookieName a); [|discriminate].
    intros [= ->]. reflexivity.
  - intros [= ->]. reflexivity.
Qed.

(** Without one, the failed handler is served at once. *)
Lemma AuthHandler_without_token (σ : World) :
  tokenString a r = None ->
  world (AuthHandler a success failed r σ) = failed r σ
  /\ existsb is_exposure (events (AuthHandler a success failed r σ)) = false
  /\ steps (events (AuthHandler a success failed r σ)) = []
  /\ panicked (AuthHandler a success failed r σ) = false.
Proof.
  unfold tokenString, AuthHandler, Request_Cookie.
  destruct (String.eqb (Header_Get r "Authorization") ""); [|discriminate].
  destruct (cfg_AllowCookieAuth a); cbn [negb].
  - destruct (req_Cookies r !! AuthCookieName a); [discriminate|].
    intros _. repeat split.
  - intros _. repeat split.
Qed.

Lemma AuthHandler_verify_run (authStr : string) (σ : World) :
  verify_run a success failed r authStr σ
    (AuthHandler_verify a success failed r authStr σ).
Proof.
  unfold AuthHandler_verify, authorizationHash.
  destruct (auth_ReadFrom authStr (NewAuthorization sha256_New))
    as [[err|] auth] eqn:Hread.
  { cbn. eapply run_malformed; eassumption. }
  cbn.
  destruct (Z.ltb_spec (auth_Expiry auth) (time_Now a)) as [Hexp|Hexp].
  { cbn. eapply run_expired; eassumption. }
  destruct (kc_MatchKey (ctx_Keychain a) auth) as [key|err] eqn:Hkey.
  2:{ cbn. eapply run_no_key; eassumption. }
  destruct (auth_Decode key auth) as [[err|] auth'] eqn:Hdec.
  { cbn. eapply run_bad_signature; eassumption. }
  cbn. eapply run_authorized; eassumption.
Qed.

Lemma AuthHandler_run (authStr : string) (σ : World) :
  tokenString a r = Some authStr ->
  verify_run a success failed r authStr σ (AuthHandler a success failed r σ).
Proof.
  intros Htok. rewrite (AuthHandler_with_token _ Htok).
  apply AuthHandler_verify_run.
Qed.

End VerifyRuns.

(** ** The verify path: order, failures, exposure of the payload *)

Section VerifyPath.

Context `{API : AuthorizationAPI}.
Variable a : AdminAPI.
Variables success failed : Handler.
Variable r : Request.

Lemma verify_run_order (authStr : string) (σ : World) (o : Outcome unit) :
  verify_run a success failed r authStr σ o ->
  initial_segment (steps (events o)) handler_order = true
  /\ (existsb (is_serve RoleSuccess) (events o) = true ->
      steps (events o) = handler_order)
  /\ (forall s : string, In (EvReadFrom s) (events o) -> s = authStr).
Proof.
  destruct 1; cbn; (split; [reflexivity|]); (split; [solve [reflexivity | discriminate]|]);
    intros s Hin;
    repeat (destruct Hin as [Hin|Hin];
            [try discriminate Hin; try (injection Hin as <-; reflexivity)|]);
    contradiction.
Qed.

Lemma verify_run_failure (authStr : string) (σ : World) (o : Outcome unit) :
  verify_run a success failed r authStr σ o ->
  (verification_fails a authStr || expired a authStr) = true ->
  world o = failed r σ
  /\ existsb (is_serve RoleFailed) (events o) = true
  /\ existsb (is_serve RoleSuccess) (events o) = false
  /\ existsb is_exposure (events o) = false
  /\ existsb is_fault_log (events o) = false
  /\ panicked o = false.
Proof.
  unfold verification_fails, expired.
  destruct 1 as [err auth Hr|auth Hr He|auth err Hr He Hk
                |auth key err auth' Hr He Hk Hd|auth key auth' Hr He Hk Hd];
    intros Hfail; cbn; try (repeat split; reflexivity).
  exfalso. rewrite Hr, Hk, Hd in Hfail. cbn in Hfail.
  apply Z.ltb_lt in Hfail. lia.
Qed.

Lemma verify_run_exposure (authStr : string) (σ : World) (o : Outcome unit) (p : Payload) :
  verify_run a success failed r authStr σ o ->
  In (EvSetRequestContextVar p) (events o) ->
  exists auth key auth',
    auth_ReadFrom authStr (NewAuthorization sha256_New) = (None, auth)
    /\ kc_MatchKey (ctx_Keychain a) auth = Ok key
    /\ auth_Decode key auth = (None, auth')
    /\ p = auth_Payload auth'
    /\ events o =
         [EvNewAuthorization; EvReadFrom authStr;
          EvExpiryCheck (auth_Expiry auth) (time_Now a);
          EvMatchKey; EvDecode; EvSetRequestContextVar p; EvServeHTTP RoleSuccess].
Proof.
  destruct 1 as [err auth Hr|auth Hr He|auth err Hr He Hk
                |auth key err auth' Hr He Hk Hd|auth key auth' Hr He Hk Hd];
    cbn; intros Hin;
    repeat (destruct Hin as [Hin|Hin]; [try discriminate Hin|]);
    try contradiction.
  injection Hin as <-. exists auth, key, auth'. repeat split; assumption.
Qed.

Lemma verify_run_expired (authStr : string) (σ : World) (o : Outcome unit) auth :
  verify_run a success failed r authStr σ o ->
  auth_ReadFrom authStr (NewAuthorization sha256_New) = (None, auth) ->
  auth_Expiry auth < time_Now a ->
  o = Returned tt (failed r σ)
        [EvNewAuthorization; EvReadFrom authStr;
         EvExpiryCheck (auth_Expiry auth) (time_Now a);
         EvLog LvlDebug "authorization expired"; EvServeHTTP RoleFailed].
Proof.
  destruct 1 as [err auth0 Hr|auth0 Hr He|auth0 err Hr He Hk
                |auth0 key err auth' Hr He Hk Hd|auth0 key auth' Hr He Hk Hd];
    intros Hread Hexp; rewrite Hr in Hread; try discriminate Hread;
    injection Hread as ->; try lia.
  reflexivity.
Qed.

(** A run stops at the first step that fails; what decides each step is
    the result of the step before: [MatchKey] is asked about the container
    that [ReadFrom] filled, [Decode] is given the key that [MatchKey]
    returned. *)
Lemma verify_run_stops (authStr : string) (σ : World) (o : Outcome unit) :
  verify_run a success failed r authStr σ o ->
  (forall s : string, In (EvReadFrom s) (events o) -> s = authStr)
  /\ (served RoleSuccess (events o) + served RoleFailed (events o) = 1)%nat
  /\ match auth_ReadFrom authStr (NewAuthorization sha256_New) with
     | (Some _, _) =>
         steps (events o) = [StepReadFrom] /\ served RoleSuccess (events o) = 0%nat
     | (None, auth) =>
         (forall expiry now : Z,
            In (EvExpiryCheck expiry now) (events o) ->
            expiry = auth_Expiry auth /\ now = time_Now a)
         /\ if auth_Expiry auth <? time_Now a then
              steps (events o) = [StepReadFrom; StepExpiryCheck]
              /\ served RoleSuccess (events o) = 0%nat
            else
              match kc_MatchKey (ctx_Keychain a) auth with
              | Err _ =>
                  steps (events o) = [StepReadFrom; StepExpiryCheck; StepMatchKey]
                  /\ served RoleSuccess (events o) = 0%nat
              | Ok key =>
                  steps (events o) = handler_order
                  /\ match auth_Decode key auth with
                     | (Some _, _) => served RoleSuccess (events o) = 0%nat
                     | (None, _) => served RoleSuccess (events o) = 1%nat
                     end
              end
     end.
Proof.
  assert (Hlt : forall x y : Z, x < y -> (x <? y) = true)
    by (intros; apply Z.ltb_lt; assumption).
  assert (Hge : forall x y : Z, y <= x -> (x <? y) = false)
    by (intros; apply Z.ltb_ge; assumption).
  destruct 1 as [err auth Hr|auth Hr He|auth err Hr He Hk
                |auth key err auth' Hr He Hk Hd|auth key auth' Hr He Hk Hd];
    rewrite Hr; cbn [events];
    (split; [intros s Hin;
             repeat (destruct Hin as [Hin|Hin];
                     [try discriminate Hin; try (injection Hin as <-; reflexivity)|]);
             contradiction|]);
    (split; [reflexivity|]);
    try (split; [intros expiry now Hin;
                 repeat (destruct Hin as [Hin|Hin];
                         [try discriminate Hin;
                          try (injection Hin as <- <-; split; reflexivity)|]);
                 contradiction|]).
  - split; reflexivity.
  - rewrite (Hlt _ _ He). split; reflexivity.
  - rewrite (Hge _ _ He), Hk. split; reflexivity.
  - rewrite (Hge _ _ He), Hk, Hd. split; reflexivity.
  - rewrite (Hge _ _ He), Hk, Hd. split; reflexivity.
Qed.

End VerifyPath.

(** C1 (as amended). For every request that carries a token string, the
    verify steps of [AuthHandler] occur in the order: [ReadFrom] parses
    that string, then the expiry of the parsed container is compared with
    the clock, then [MatchKey] is called with the parsed container, then
    [Decode] with the matched key.  A run stops at the first step that
    fails (after [ReadFrom] on a parse error, after the comparison on an
    expired token, after [MatchKey] on a lookup error), exactly one of the
    two handlers is served, and it is the success handler only when all
    four steps succeeded.  The expiry comparison comes before [MatchKey]
    and [Decode]. *)
Theorem AuthHandler_step_order `{API : AuthorizationAPI} (a : AdminAPI)
    (success failed : Handler) (r : Request) (authStr : string) (σ : World) :
  tokenString a r = Some authStr ->
  (forall s : string,
     In (EvReadFrom s) (events (AuthHandler a success failed r σ)) -> s = authStr)
  /\ (served RoleSuccess (events (AuthHandler a success failed r σ))
      + served RoleFailed (events (AuthHandler a success failed r σ)) = 1)%nat
  /\ match auth_ReadFrom authStr (NewAuthorization sha256_New) with
     | (Some _, _) =>
         steps (events (AuthHandler a success failed r σ)) = [StepReadFrom]
         /\ served RoleSuccess (events (AuthHandler a success failed r σ)) = 0%nat
     | (None, auth) =>
         (forall expiry now : Z,
            In (EvExpiryCheck expiry now) (events (AuthHandler a success failed r σ)) ->
            expiry = auth_Expiry auth /\ now = time_Now a)
         /\ if auth_Expiry auth <? time_Now a then
              steps (events (AuthHandler a success failed r σ))
                = [StepReadFrom; StepExpiryCheck]
              /\ served RoleSuccess (events (AuthHandler a success failed r σ)) = 0%nat
            else
              match kc_MatchKey (ctx_Keychain a) auth with
              | Err _ =>
                  steps (events (AuthHandler a success failed r σ))
                    = [StepReadFrom; StepExpiryCheck; StepMatchKey]
                  /\ served RoleSuccess (events (AuthHandler a success failed r σ))
                     = 0%nat
              | Ok key =>
                  steps (events (AuthHandler a success failed r σ)) = handler_order
                  /\ match auth_Decode key auth with
                     | (Some _, _) =>
                         served RoleSuccess (events (AuthHandler a success failed r σ))
                         = 0%nat
                     | (None, _) =>
                         served RoleSuccess (events (AuthHandler a success failed r σ))
                         = 1%nat
                     end
              end
     end.
Proof.
  intros Htok. eapply verify_run_stops, AuthHandler_run, Htok.
Qed.

Lemma AuthHandler_step_order_witness :
  tokenString (Demo.admin Demo.keychain 5000) (Demo.request Demo.issued) = Some Demo.issued
  /\ steps (events (AuthHandler (Demo.admin Demo.keychain 5000) Demo.parent
                      unauthorized (Demo.request Demo.issued) Demo.fresh))
     = handler_order
  /\ served RoleSuccess
       (events (AuthHandler (Demo.admin Demo.keychain 5000) Demo.parent
                  unauthorized (Demo.request Demo.issued) Demo.fresh)) = 1%nat
  /\ steps (events (AuthHandler (Demo.admin Demo.keychain 9000) Demo.parent
                      unauthorized (Demo.request Demo.issued) Demo.fresh))
     = [StepReadFrom; StepExpiryCheck]
  /\ served RoleSuccess
       (events (AuthHandler (Demo.admin Demo.keychain 9000) Demo.parent
                  unauthorized (Demo.request Demo.issued) Demo.fresh)) = 0%nat.
Proof.
  split; [reflexivity|].
  pose proof (AuthHandler_step_order (Demo.admin Demo.keychain 5000) Demo.parent
                unauthorized (Demo.request Demo.issued) Demo.issued Demo.fresh
                eq_refl) as (_ & _ & Hvalid).
  pose proof (AuthHandler_step_order (Demo.admin Demo.keychain 9000) Demo.parent
                unauthorized (Demo.request Demo.issued) Demo.issued Demo.fresh
                eq_refl) as (_ & _ & Hexpired).
  vm_compute in Hvalid. vm_compute in Hexpired.
  destruct Hvalid as (_ & Hsteps & Hserved).
  destruct Hexpired as (_ & Hsteps' & Hserved').
  repeat split; vm_compute; assumption.
Defined.

(** C1 (as stated) fails: on a request with a valid token the steps are
    read, expiry comparison, key lookup, decode, which is not the documented
    order with the expiry comparison last; on an expired token the expiry is
    compared although [MatchKey] and [Decode] are never called. *)
Lemma AuthHandler_expiry_before_decode :
  steps (events (AuthHandler (Demo.admin Demo.keychain 5000) Demo.parent
                   unauthorized (Demo.request Demo.issued) Demo.fresh))
  = [StepReadFrom; StepExpiryCheck; StepMatchKey; StepDecode]
  /\ initial_segment
       (steps (events (AuthHandler (Demo.admin Demo.keychain 5000) Demo.parent
                         unauthorized (Demo.request Demo.issued) Demo.fresh)))
       documented_order = false
  /\ steps (events (AuthHandler (Demo.admin Demo.keychain 9000) Demo.parent
                      unauthorized (Demo.request Demo.issued) Demo.fresh))
     = [StepReadFrom; StepExpiryCheck].
Proof. repeat split; vm_compute; reflexivity. Qed.

(** C3. For every token string, each verification failure (an error from
    [ReadFrom], from [MatchKey] or from [Decode]) makes [AuthHandler] serve
    the failed handler on the untouched response and return, without
    serving the success handler and without a panic; under
    [AuthRequiredHandler] the response status written is 401. *)
Theorem verification_failure_serves_failed `{API : AuthorizationAPI} (a : AdminAPI)
    (success failed : Handler) (r : Request) (authStr : string) (σ : World) :
  tokenString a r = Some authStr ->
  verification_fails a authStr = true ->
  (world (AuthHandler a success failed r σ) = failed r σ
   /\ existsb (is_serve RoleFailed) (events (AuthHandler a success failed r σ)) = true
   /\ existsb (is_serve RoleSuccess) (events (AuthHandler a success failed r σ)) = false
   /\ panicked (AuthHandler a success failed r σ) = false)
  /\ (w (world (AuthRequiredHandler a success r σ))
        = WriteHeader_rw StatusUnauthorized (w σ)
      /\ panicked (AuthRequiredHandler a success r σ) = false).
Proof.
  intros Htok Hfail.
  assert (Hor : (verification_fails a authStr || expired a authStr) = true)
    by (rewrite Hfail; reflexivity).
  split.
  - destruct (verify_run_failure a success failed r authStr σ _
                (AuthHandler_run a success failed r authStr σ Htok) Hor)
      as (Hw & Hf & Hs & _ & _ & Hp).
    repeat split; assumption.
  - unfold AuthRequiredHandler.
    destruct (verify_run_failure a success unauthorized r authStr σ _
                (AuthHandler_run a success unauthorized r authStr σ Htok) Hor)
      as (Hw & _ & _ & _ & _ & Hp).
    rewrite Hw. split; [reflexivity | assumption].
Qed.

Lemma verification_failure_serves_failed_witness :
  rw_status (w (world (AuthRequiredHandler (Demo.admin Demo.keychain 5000)
                         Demo.parent (Demo.request "not.a.token") Demo.fresh)))
  = Some StatusUnauthorized.
Proof.
  pose proof (verification_failure_serves_failed (Demo.admin Demo.keychain 5000)
                Demo.parent unauthorized (Demo.request "not.a.token")
                "not.a.token" Demo.fresh eq_refl eq_refl) as [_ [H _]].
  rewrite H. reflexivity.
Defined.

(** C4. [AuthHandler] stores a payload in the request context only after
    [ReadFrom], [MatchKey] and [Decode] all returned without error, and the
    stored payload is the decoded one, stored right after [Decode]; when
    [ReadFrom], the expiry comparison, [MatchKey] or [Decode] fails, or
    when there is no token string, nothing is stored and the failed handler
    sees the request context as it was. *)
Theorem payload_exposed_only_after_decode `{API : AuthorizationAPI} (a : AdminAPI)
    (success failed : Handler) (r : Request) (σ : World) :
  (forall p : Payload,
     In (EvSetRequestContextVar p) (events (AuthHandler a success failed r σ)) ->
     exists authStr auth key auth',
       tokenString a r = Some authStr
       /\ auth_ReadFrom authStr (NewAuthorization sha256_New) = (None, auth)
       /\ kc_MatchKey (ctx_Keychain a) auth = Ok key
       /\ auth_Decode key auth = (None, auth')
       /\ p = auth_Payload auth'
       /\ events (AuthHandler a success failed r σ) =
            [EvNewAuthorization; EvReadFrom authStr;
             EvExpiryCheck (auth_Expiry auth) (time_Now a);
             EvMatchKey; EvDecode; EvSetRequestContextVar p;
             EvServeHTTP RoleSuccess])
  /\ (forall authStr : string,
        tokenString a r = Some authStr ->
        (verification_fails a authStr || expired a authStr) = true ->
        existsb is_exposure (events (AuthHandler a success failed r σ)) = false
        /\ world (AuthHandler a success failed r σ) = failed r σ)
  /\ (tokenString a r = None ->
        existsb is_exposure (events (AuthHandler a success failed r σ)) = false
        /\ world (AuthHandler a success failed r σ) = failed r σ).
Proof.
  split; [|split].
  - intros p Hin. destruct (tokenString a r) as [authStr|] eqn:Htok.
    + destruct (verify_run_exposure a success failed r authStr σ _ p
                  (AuthHandler_run a success failed r authStr σ Htok) Hin)
        as (auth & key & auth' & H).
      exists authStr, auth, key, auth'. split; [reflexivity | exact H].
    + exfalso.
      destruct (AuthHandler_without_token a success failed r σ Htok)
        as (_ & Hno & _).
      assert (Hex : existsb is_exposure (events (AuthHandler a success failed r σ)) = true).
      { apply existsb_exists. exists (EvSetRequestContextVar p). split; [exact Hin | reflexivity]. }
      congruence.
  - intros authStr Htok Hfail.
    destruct (verify_run_failure a success failed r authStr σ _
                (AuthHandler_run a success failed r authStr σ Htok) Hfail)
      as (Hw & _ & _ & He & _).
    split; assumption.
  - intros Htok.
    destruct (AuthHandler_without_token a success failed r σ Htok) as (Hw & Hno & _).
    split; assumption.
Qed.

Lemma payload_exposed_only_after_decode_witness :
  existsb is_exposure
    (events (AuthHandler (Demo.admin Demo.keychain 9000) Demo.parent unauthorized
               (Demo.request Demo.issued) Demo.fresh)) = false
  /\ ctxvar (world (AuthHandler (Demo.admin Demo.keychain 9000) Demo.parent unauthorized
                      (Demo.request Demo.issued) Demo.fresh)) = None.
Proof.
  destruct (payload_exposed_only_after_decode (Demo.admin Demo.keychain 9000)
              Demo.parent unauthorized (Demo.request Demo.issued) Demo.fresh)
    as (_ & H & _).
  destruct (H Demo.issued eq_refl eq_refl) as [Hno Hw].
  split; [exact Hno|]. rewrite Hw. reflexivity.
Defined.

(** C2. A token whose expiry lies in the past still decodes: reading the
    serialized token back and decoding it with its key succeeds and gives
    the payload, whatever the clock says, because [decode] takes no clock.
    It is [AuthHandler]'s comparison of [Expiry()] with the clock that
    rejects the token: the run serves the failed handler right after the
    comparison and calls neither [MatchKey] nor [Decode]. *)
Theorem expired_token_rejected_by_caller (S : Spec.Signer) (key : Spec.KeychainKey)
    (p : Payload) (e : Z) (a : @AdminAPI (SpecAPI S)) (success failed : Handler)
    (r : Request) (T : string) (σ : World) :
  e < time_Now a ->
  issueToken S key p e = Ok T ->
  tokenString a r = Some T ->
  (exists t : Spec.Token,
     verifyToken S key T = Ok t
     /\ Spec.payload t = Some p
     /\ Spec.expiry t = e
     /\ Spec.tok_trusted t = true)
  /\ AuthHandler a success failed r σ =
       Returned tt (failed r σ)
         [EvNewAuthorization; EvReadFrom T; EvExpiryCheck e (time_Now a);
          EvLog LvlDebug "authorization expired"; EvServeHTTP RoleFailed].
Proof.
  intros Hpast Hissue Htok.
  rewrite issueToken_eq in Hissue. injection Hissue as <-.
  split.
  - eexists. split; [apply verifyToken_issued|]. repeat split.
  - pose proof (AuthHandler_run a success failed r _ σ Htok) as Hrun.
    exact (verify_run_expired a success failed r _ σ _ _ Hrun
             (readFrom_issued S key p e) Hpast).
Qed.

Lemma expired_token_rejected_by_caller_witness :
  (exists t : Spec.Token,
     verifyToken Demo.signer Demo.key1 Demo.issued = Ok t
     /\ Spec.payload t = Some {[ "uid" := "42" ]}
     /\ Spec.expiry t = 8600
     /\ Spec.tok_trusted t = true)
  /\ AuthHandler (Demo.admin Demo.keychain 9000) Demo.parent unauthorized
       (Demo.request Demo.issued) Demo.fresh =
     Returned tt (unauthorized (Demo.request Demo.issued) Demo.fresh)
       [EvNewAuthorization; EvReadFrom Demo.issued; EvExpiryCheck 8600 9000;
        EvLog LvlDebug "authorization expired"; EvServeHTTP RoleFailed].
Proof.
  apply (expired_token_rejected_by_caller Demo.signer Demo.key1
           {[ "uid" := "42" ]} 8600 (Demo.admin Demo.keychain 9000)
           Demo.parent unauthorized (Demo.request Demo.issued) Demo.issued
           Demo.fresh).
  - reflexivity.
  - vm_compute. reflexivity.
  - reflexivity.
Defined.

(** ** The issuing path *)

Section IssuePath.

Context `{API : AuthorizationAPI}.
Variable a : AdminAPI.
Variable σ : World.

Lemma respond_key_error err :
  kc_BinKey (ctx_Keychain a) = Err err ->
  respondWithAuthorization a σ =
    Returned tt (server_error σ)
      (issue_prefix a ++ [EvLog LvlError "error retrieving key from keychain";
                        EvWriteHeader StatusInternalServerError]).
Proof.
  intros Hkey. unfold respondWithAuthorization. cbn. rewrite Hkey. reflexivity.
Qed.

Lemma respond_encode_error key err auth :
  kc_BinKey (ctx_Keychain a) = Ok key ->
  auth_Encode key (freshAuthorization a) = (Some err, auth) ->
  respondWithAuthorization a σ =
    Returned tt (server_error σ)
      (issue_prefix a ++ [EvEncode; EvLog LvlError "error encoding authorization";
                        EvWriteHeader StatusInternalServerError]).
Proof.
  intros Hkey Henc. unfold freshAuthorization in Henc.
  unfold respondWithAuthorization, authorizationHash. cbn.
  rewrite Hkey. cbn. rewrite Henc. reflexivity.
Qed.

Lemma respond_serialized_error key auth err :
  kc_BinKey (ctx_Keychain a) = Ok key ->
  auth_Encode key (freshAuthorization a) = (None, auth) ->
  auth_Serialized auth = Err err ->
  respondWithAuthorization a σ =
    Returned tt (server_error σ)
      (issue_prefix a ++ [EvEncode; EvSerialized;
                        EvLog LvlError "error serializing authorization";
                        EvWriteHeader StatusInternalServerError]).
Proof.
  intros Hkey Henc Hser. unfold freshAuthorization in Henc.
  unfold respondWithAuthorization, authorizationHash. cbn.
  rewrite Hkey. cbn. rewrite Henc. cbn. rewrite Hser. reflexivity.
Qed.

Lemma respond_marshal_error key auth s err :
  kc_BinKey (ctx_Keychain a) = Ok key ->
  auth_Encode key (freshAuthorization a) = (None, auth) ->
  auth_Serialized auth = Ok s ->
  json_Marshal a s = Err err ->
  respondWithAuthorization a σ =
    Returned tt (server_error σ)
      (issue_prefix a ++ [EvEncode; EvSerialized; EvMarshal;
                        EvLog LvlError "error encoding JSON respone";
                        EvWriteHeader StatusInternalServerError]).
Proof.
  intros Hkey Henc Hser Hjson. unfold freshAuthorization in Henc.
  unfold respondWithAuthorization, authorizationHash. cbn.
  rewrite Hkey. cbn. rewrite Henc. cbn. rewrite Hser. cbn. rewrite Hjson.
  reflexivity.
Qed.

Lemma respond_issued key auth s j :
  kc_BinKey (ctx_Keychain a) = Ok key ->
  auth_Encode key (freshAuthorization a) = (None, auth) ->
  auth_Serialized auth = Ok s ->
  json_Marshal a s = Ok j ->
  events (respondWithAuthorization a σ) =
    issue_prefix a ++ [EvEncode; EvSerialized; EvMarshal]
      ++ (if cfg_AllowCookieAuth a then [EvSetCookie (authCookie a auth s)] else [])
      ++ [EvWrite j]
      ++ match rw_write_err (w σ) with
         | Some _ => [EvLog LvlError "error writing HTTP response"]
         | None => []
         end
  /\ panicked (respondWithAuthorization a σ) = false
  /\ rw_cookies (w (world (respondWithAuthorization a σ))) =
       rw_cookies (w σ)
         ++ (if cfg_AllowCookieAuth a then [authCookie a auth s] else [])
  /\ (rw_write_err (w σ) = None ->
      rw_body (w (world (respondWithAuthorization a σ))) = rw_body (w σ) +:+ j).
Proof.
  intros Hkey Henc Hser Hjson. unfold freshAuthorization in Henc.
  unfold respondWithAuthorization, authorizationHash, authCookie. cbn.
  rewrite Hkey. cbn. rewrite Henc. cbn. rewrite Hser. cbn. rewrite Hjson.
  destruct σ as [[hdr cookies status body werr] cv].
  destruct (cfg_AllowCookieAuth a), werr as [e|], status as [st|]; cbn;
    rewrite ?app_nil_r; repeat split; try reflexivity; intros [=].
Qed.

Lemma respond_issue_fails :
  issue_fails a = true ->
  world (respondWithAuthorization a σ) = server_error σ
  /\ existsb is_output (events (respondWithAuthorization a σ)) = false
  /\ existsb is_fault_log (events (respondWithAuthorization a σ)) = true
  /\ panicked (respondWithAuthorization a σ) = false.
Proof.
  unfold issue_fails.
  destruct (kc_BinKey (ctx_Keychain a)) as [key|err] eqn:Hkey.
  2:{ intros _. rewrite (respond_key_error _ Hkey). repeat split. }
  destruct (auth_Encode key (freshAuthorization a)) as [[err|] auth] eqn:Henc.
  { intros _. rewrite (respond_encode_error _ _ _ Hkey Henc). repeat split. }
  destruct (auth_Serialized auth) as [s|err] eqn:Hser; [discriminate|].
  intros _. rewrite (respond_serialized_error _ _ _ Hkey Henc Hser). repeat split.
Qed.

End IssuePath.

(** C7. [respondWithAuthorization] sets payload and expiry on a fresh
    container, asks the keychain for the signing key, calls [Encode] with
    it, then [Serialized], marshals the string into the JSON response, sets
    it as a cookie value when cookie authorization is allowed, and writes
    the JSON body; when key retrieval, [Encode] or [Serialized] fails it
    logs an error and writes status 500, and neither a body nor a cookie
    is written. *)
Theorem respondWithAuthorization_sequence `{API : AuthorizationAPI}
    (a : AdminAPI) (σ : World) :
  (forall key auth s j,
     kc_BinKey (ctx_Keychain a) = Ok key ->
     auth_Encode key (freshAuthorization a) = (None, auth) ->
     auth_Serialized auth = Ok s ->
     json_Marshal a s = Ok j ->
     events (respondWithAuthorization a σ) =
       issue_prefix a ++ [EvEncode; EvSerialized; EvMarshal]
         ++ (if cfg_AllowCookieAuth a then [EvSetCookie (authCookie a auth s)] else [])
         ++ [EvWrite j]
         ++ match rw_write_err (w σ) with
            | Some _ => [EvLog LvlError "error writing HTTP response"]
            | None => []
            end
     /\ panicked (respondWithAuthorization a σ) = false
     /\ rw_cookies (w (world (respondWithAuthorization a σ))) =
          rw_cookies (w σ)
            ++ (if cfg_AllowCookieAuth a then [authCookie a auth s] else [])
     /\ (rw_write_err (w σ) = None ->
         rw_body (w (world (respondWithAuthorization a σ))) = rw_body (w σ) +:+ j))
  /\ (issue_fails a = true ->
      world (respondWithAuthorization a σ) = server_error σ
      /\ existsb is_output (events (respondWithAuthorization a σ)) = false
      /\ existsb is_fault_log (events (respondWithAuthorization a σ)) = true
      /\ panicked (respondWithAuthorization a σ) = false).
Proof.
  split.
  - intros key auth s j. apply respond_issued.
  - apply respond_issue_fails.
Qed.

Lemma respondWithAuthorization_sequence_witness :
  rw_cookies (w (world (respondWithAuthorization (Demo.admin Demo.keychain 5000) Demo.fresh)))
    = [ {| cookie_Name := "auth"; cookie_Value := Demo.issued; cookie_Path := "/v1";
           cookie_Expires := 8600; cookie_HttpOnly := true; cookie_Secure := false |} ]
  /\ rw_status (w (world (respondWithAuthorization
                            (Demo.admin Spec.emptyKeychain 5000) Demo.fresh)))
     = Some StatusInternalServerError.
Proof.
  split.
  - destruct (respondWithAuthorization_sequence (Demo.admin Demo.keychain 5000) Demo.fresh)
      as [H _].
    destruct (H Demo.key1 _ Demo.issued _ eq_refl eq_refl eq_refl eq_refl)
      as (_ & _ & Hc & _).
    rewrite Hc. reflexivity.
  - destruct (respondWithAuthorization_sequence (Demo.admin Spec.emptyKeychain 5000) Demo.fresh)
      as [_ H].
    destruct (H eq_refl) as (Hw & _). rewrite Hw. reflexivity.
Defined.

Lemma currentKey_all_retired (kc : Spec.Keychain) :
  Forall (fun k => Spec.key_retired k = true) (Spec.kc_keys kc) ->
  Spec.currentKey kc = Err ErrEmptyKeychain.
Proof.
  unfold Spec.currentKey. induction 1 as [|k l Hk Hl IH]; [reflexivity|].
  cbn [List.find]. rewrite Hk. exact IH.
Qed.

(** C8. When the keychain holds no signing key, [currentKey] fails with
    the empty-keychain error, and [respondWithAuthorization] logs at error
    level and answers 500 without issuing a token; a verification failure,
    by contrast, is answered by the failed handler and logs nothing above
    debug level. *)
Theorem empty_keychain_is_server_error (S : Spec.Signer) (a : @AdminAPI (SpecAPI S))
    (σ : World) :
  Forall (fun k => Spec.key_retired k = true) (Spec.kc_keys (ctx_Keychain a)) ->
  Spec.currentKey (ctx_Keychain a) = Err ErrEmptyKeychain
  /\ respondWithAuthorization a σ =
       Returned tt (server_error σ)
         (issue_prefix a ++ [EvLog LvlError "error retrieving key from keychain";
                             EvWriteHeader StatusInternalServerError])
  /\ existsb is_output (events (respondWithAuthorization a σ)) = false
  /\ (forall (success failed : Handler) (r : Request) (authStr : string),
        tokenString a r = Some authStr ->
        verification_fails a authStr = true ->
        world (AuthHandler a success failed r σ) = failed r σ
        /\ existsb is_fault_log (events (AuthHandler a success failed r σ)) = false).
Proof.
  intros Hnone. pose proof (currentKey_all_retired _ Hnone) as Hcur.
  assert (Hrun : respondWithAuthorization a σ =
       Returned tt (server_error σ)
         (issue_prefix a ++ [EvLog LvlError "error retrieving key from keychain";
                             EvWriteHeader StatusInternalServerError]))
    by (apply (respond_key_error a σ ErrEmptyKeychain); exact Hcur).
  split; [exact Hcur|]. split; [exact Hrun|]. split; [rewrite Hrun; reflexivity|].
  intros success failed r authStr Htok Hfail.
  assert (Hor : (verification_fails a authStr || expired a authStr) = true)
    by (rewrite Hfail; reflexivity).
  destruct (verify_run_failure a success failed r authStr σ _
              (AuthHandler_run a success failed r authStr σ Htok) Hor)
    as (Hw & _ & _ & _ & Hlog & _).
  split; assumption.
Qed.

Lemma empty_keychain_is_server_error_witness :
  respondWithAuthorization (Demo.admin Spec.emptyKeychain 5000) Demo.fresh =
    Returned tt (server_error Demo.fresh)
      [EvNewAuthorization; EvSetPayload "uid" "42"; EvExpires 8600; EvBinKey;
       EvLog LvlError "error retrieving key from keychain";
       EvWriteHeader StatusInternalServerError].
Proof.
  apply (empty_keychain_is_server_error Demo.signer
           (Demo.admin Spec.emptyKeychain 5000) Demo.fresh).
  constructor.
Defined.

(** ** Basic authentication *)

Section SplitFacts.

Import GoStrings.

Variable sep : ascii.

Lemma Count_cut (s hd tl : string) :
  cut sep s = Some (hd, tl) -> Count s sep = S (Count tl sep).
Proof.
  intros [-> Hhd]%cut_Some. rewrite Count_app, (Count_lacks _ _ Hhd).
  cbn [Count]. rewrite Ascii.eqb_refl. reflexivity.
Qed.

Lemma length_genSplit (n : nat) (s : string) :
  length (genSplit sep n s) = S (Nat.min n (Count s sep)).
Proof.
  revert s. induction n as [|n IH]; intros s; [reflexivity|].
  cbn [genSplit]. destruct (cut sep s) as [[hd tl]|] eqn:Hcut.
  - cbn [length]. rewrite IH, (Count_cut _ _ _ Hcut). reflexivity.
  - rewrite (Count_lacks _ _ (cut_None _ _ Hcut)). reflexivity.
Qed.

Lemma length_Split (s : string) : length (Split s sep) = S (Count s sep).
Proof. unfold Split. rewrite length_genSplit, Nat.min_id. reflexivity. Qed.

Lemma Split_pair (hd tl : string) :
  lacks sep hd = true -> lacks sep tl = true ->
  Split (hd +:+ String sep tl) sep = [hd; tl].
Proof.
  intros Hhd Htl.
  change (hd +:+ String sep tl) with (Join [hd; tl] sep).
  apply Split_Join; [repeat constructor; assumption | discriminate].
Qed.

Lemma Count_pair (hd tl : string) :
  lacks sep hd = true -> Count (hd +:+ String sep tl) sep = S (Count tl sep).
Proof.
  intros Hhd. rewrite Count_app, (Count_lacks _ _ Hhd).
  cbn [Count]. rewrite Ascii.eqb_refl. reflexivity.
Qed.

Lemma lacks_Count (s : string) : lacks sep s = false -> Count s sep <> 0%nat.
Proof.
  induction s as [|c s IH]; cbn [lacks Count]; [discriminate|].
  destruct (Ascii.eqb c sep); cbn; [discriminate|]. exact IH.
Qed.

End SplitFacts.

Section BasicAuth.

Context `{API : AuthorizationAPI}.
Variable a : AdminAPI.

Lemma SplitN_Basic (b : string) :
  GoStrings.SplitN ("Basic " +:+ b) " "%char 2 = ["Basic"; b].
Proof. reflexivity. Qed.

(** After a header [Basic b] whose [b] decodes to [creds]. *)
Lemma authenticateBasicAuth_decoded (r : Request) (b creds : string) (σ : World) :
  Header_Get r "Authorization" = "Basic " +:+ b ->
  base64_DecodeString a b = Ok creds ->
  authenticateBasicAuth a r σ =
    match GoStrings.Split creds ":"%char with
    | [_; pw] => authenticateSystemPassword a pw σ
    | _ => requestBasicAuth σ
    end.
Proof.
  intros Hhdr Hdec. unfold authenticateBasicAuth. rewrite Hhdr, SplitN_Basic.
  change (String.eqb ("Basic " +:+ b) "") with false. cbn iota.
  unfold index at 1. cbn [lookup list_lookup]. unfold bind at 1. cbn [ret].
  change (String.eqb "Basic" "Basic") with true. cbn [negb].
  unfold index at 1. cbn [lookup list_lookup]. unfold bind at 1. cbn [ret].
  rewrite Hdec.
  destruct (GoStrings.Split creds ":"%char) as [|x [|y [|z l]]]; cbn [length Nat.eqb negb].
  - destruct (requestBasicAuth σ); rewrite ?app_nil_l; reflexivity.
  - destruct (requestBasicAuth σ); rewrite ?app_nil_l; reflexivity.
  - unfold index, bind. cbn [lookup list_lookup ret].
    destruct (authenticateSystemPassword a y σ); reflexivity.
  - destruct (requestBasicAuth σ); rewrite ?app_nil_l; reflexivity.
Qed.

Lemma authenticateBasicAuth_colons (r : Request) (b creds : string) (σ : World) :
  Header_Get r "Authorization" = "Basic " +:+ b ->
  base64_DecodeString a b = Ok creds ->
  GoStrings.Count creds ":"%char <> 1%nat ->
  authenticateBasicAuth a r σ = requestBasicAuth σ.
Proof.
  intros Hhdr Hdec Hcount.
  rewrite (authenticateBasicAuth_decoded r b creds σ Hhdr Hdec).
  pose proof (length_Split ":"%char creds) as Hlen.
  destruct (GoStrings.Split creds ":"%char) as [|x [|y [|z l]]]; try reflexivity.
  cbn in Hlen. congruence.
Qed.

Lemma authenticateBasicAuth_credentials (r : Request) (b user pw : string) (σ : World) :
  Header_Get r "Authorization" = "Basic " +:+ b ->
  base64_DecodeString a b = Ok (basicCredentials user pw) ->
  GoStrings.lacks ":"%char user = true ->
  authenticateBasicAuth a r σ =
    if GoStrings.lacks ":"%char pw then authenticateSystemPassword a pw σ
    else requestBasicAuth σ.
Proof.
  intros Hhdr Hdec Huser.
  destruct (GoStrings.lacks ":"%char pw) eqn:Hpw.
  - rewrite (authenticateBasicAuth_decoded r b _ σ Hhdr Hdec).
    unfold basicCredentials. rewrite (Split_pair _ _ _ Huser Hpw). reflexivity.
  - apply (authenticateBasicAuth_colons r b _ σ Hhdr Hdec).
    unfold basicCredentials. rewrite (Count_pair _ _ _ Huser).
    pose proof (lacks_Count _ _ Hpw). lia.
Qed.

(** The bare scheme name: [SplitN] yields one part and [parts[1]] is out
    of range. *)
Lemma authenticateBasicAuth_bare_scheme (r : Request) (σ : World) :
  Header_Get r "Authorization" = "Basic" ->
  authenticateBasicAuth a r σ = Panicked "runtime error: index out of range" σ [].
Proof.
  intros Hhdr. unfold authenticateBasicAuth. rewrite Hhdr. reflexivity.
Qed.

End BasicAuth.

(** ** Where the authentication paths can panic *)

Section Panics.

Context `{API : AuthorizationAPI}.
Variable a : AdminAPI.

Lemma panicked_wrap {A} (o : Outcome A) (evs : list Event) :
  panicked match o with
           | Returned b σ e => Returned b σ (evs ++ e)
           | Panicked msg σ e => Panicked msg σ (evs ++ e)
           end = panicked o.
Proof. destruct o; reflexivity. Qed.

Lemma requestBasicAuth_no_panic (σ : World) : panicked (requestBasicAuth σ) = false.
Proof. reflexivity. Qed.

Lemma respondWithAuthorization_no_panic (σ : World) :
  panicked (respondWithAuthorization a σ) = false.
Proof.
  destruct (kc_BinKey (ctx_Keychain a)) as [key|err] eqn:Hkey.
  2:{ rewrite (respond_key_error a σ _ Hkey). reflexivity. }
  destruct (auth_Encode key (freshAuthorization a)) as [[err|] auth] eqn:Henc.
  { rewrite (respond_encode_error a σ _ _ _ Hkey Henc). reflexivity. }
  destruct (auth_Serialized auth) as [s|err] eqn:Hser.
  2:{ rewrite (respond_serialized_error a σ _ _ _ Hkey Henc Hser). reflexivity. }
  destruct (json_Marshal a s) as [j|err] eqn:Hjson.
  2:{ rewrite (respond_marshal_error a σ _ _ _ _ Hkey Henc Hser Hjson). reflexivity. }
  apply (respond_issued a σ _ _ _ _ Hkey Henc Hser Hjson).
Qed.

Lemma authenticateSystemPassword_no_panic (pw : string) (σ : World) :
  panicked (authenticateSystemPassword a pw σ) = false.
Proof.
  unfold authenticateSystemPassword, bind, emit.
  rewrite (panicked_wrap _ [EvEntryByNameDB (ConfigNameSystemPassword a)]).
  destruct (EntryByNameDB a (ConfigNameSystemPassword a)) as [v|err].
  - destruct (bcrypt_CompareHashAndPassword a v pw) as [err|].
    + destruct (error_eqb err ErrMismatchedHashAndPassword); reflexivity.
    + apply respondWithAuthorization_no_panic.
  - destruct (error_eqb err ErrEntryNotFound); reflexivity.
Qed.

Lemma AuthHandler_no_panic (success failed : Handler) (r : Request) (σ : World) :
  panicked (AuthHandler a success failed r σ) = false.
Proof.
  destruct (tokenString a r) as [authStr|] eqn:Htok.
  - destruct (AuthHandler_run a success failed r authStr σ Htok); reflexivity.
  - apply (AuthHandler_without_token a success failed r σ Htok).
Qed.

Lemma SplitN_2 (h : string) :
  GoStrings.SplitN h " "%char 2 =
    match GoStrings.cut " "%char h with
    | Some (hd, tl) => [hd; tl]
    | None => [h]
    end.
Proof.
  change (GoStrings.SplitN h " "%char 2) with (GoStrings.genSplit " "%char 1 h).
  cbn [GoStrings.genSplit]. destruct (GoStrings.cut " "%char h) as [[hd tl]|]; reflexivity.
Qed.

(** [authenticateBasicAuth] panics on exactly one header value. *)
Lemma authenticateBasicAuth_panics_iff (r : Request) (σ : World) :
  panicked (authenticateBasicAuth a r σ) = true
  <-> Header_Get r "Authorization" = "Basic".
Proof.
  split; [|intros H; rewrite (authenticateBasicAuth_bare_scheme a r σ H); reflexivity].
  unfold authenticateBasicAuth.
  generalize (Header_Get r "Authorization"). intros h.
  destruct (String.eqb h ""); [rewrite requestBasicAuth_no_panic; discriminate|].
  rewrite SplitN_2.
  destruct (GoStrings.cut " "%char h) as [[hd tl]|] eqn:Hcut.
  - unfold index at 1, bind at 1. cbn [lookup list_lookup ret].
    destruct (String.eqb hd "Basic"); cbn [negb].
    + unfold index at 1, bind at 1. cbn [lookup list_lookup ret].
      destruct (base64_DecodeString a tl) as [creds|err].
      * destruct (GoStrings.Split creds ":"%char) as [|x [|y [|z l]]];
          cbn [length Nat.eqb negb];
          try (rewrite !panicked_wrap, requestBasicAuth_no_panic; discriminate).
        unfold index, bind. cbn [lookup list_lookup ret].
        rewrite !panicked_wrap, authenticateSystemPassword_no_panic. discriminate.
      * rewrite !panicked_wrap, requestBasicAuth_no_panic. discriminate.
    + rewrite !panicked_wrap, requestBasicAuth_no_panic. discriminate.
  - unfold index at 1, bind at 1. cbn [lookup list_lookup ret].
    destruct (String.eqb_spec h "Basic") as [->|Hne]; cbn [negb].
    + reflexivity.
    + rewrite !panicked_wrap, requestBasicAuth_no_panic. discriminate.
Qed.

End Panics.

(** C5 (evaluated where it fails). On the header value [Basic], without a
    space after the scheme name, [strings.SplitN] returns a single part and
    the index expression [parts[1]] panics; [Handler.ServeHTTP] recovers the
    panic, logs it at critical level and returns with no status written, so
    no 401 is sent. *)
Theorem basic_auth_bare_scheme_panics `{API : AuthorizationAPI} (a : AdminAPI)
    (r : Request) (σ : World) :
  Header_Get r "Authorization" = "Basic" ->
  length (GoStrings.SplitN (Header_Get r "Authorization") " "%char 2) = 1%nat
  /\ authenticateBasicAuth a r σ = Panicked "runtime error: index out of range" σ []
  /\ Handler_ServeHTTP (authenticateBasicAuth a) r σ =
       Returned tt {| w := w σ; ctxvar := None |}
         [EvLog LvlCrit "panic on serving HTTP"].
Proof.
  intros Hhdr. split; [rewrite Hhdr; reflexivity|]. split.
  - apply authenticateBasicAuth_bare_scheme, Hhdr.
  - unfold Handler_ServeHTTP.
    rewrite (authenticateBasicAuth_bare_scheme a r _ Hhdr). reflexivity.
Qed.

Lemma basic_auth_bare_scheme_panics_witness :
  panicked (authenticateBasicAuth (Demo.admin Demo.keychain 5000)
              (Demo.request "Basic") Demo.fresh) = true
  /\ rw_status (w (world (Handler_ServeHTTP
                            (authenticateBasicAuth (Demo.admin Demo.keychain 5000))
                            (Demo.request "Basic") Demo.fresh))) = None.
Proof.
  destruct (basic_auth_bare_scheme_panics (Demo.admin Demo.keychain 5000)
              (Demo.request "Basic") Demo.fresh eq_refl) as (_ & Hp & Hs).
  rewrite Hp, Hs. split; reflexivity.
Defined.

(** C9. The user id of HTTP Basic credentials has no effect.
    [authenticateBasicAuth] decodes the credentials, splits them at the
    colons and requires exactly two parts: decoded credentials with no
    colon or with more than one colon (a password that holds a colon, for
    one) get the 401 challenge, without a password check and without a
    token.  Of credentials [user:pw] only [pw] reaches the password check,
    so two requests whose credentials decode to [u1:pw] and [u2:pw], with
    colon-free user ids, give identical runs. *)
Theorem basic_auth_ignores_user `{API : AuthorizationAPI} (a : AdminAPI) (σ : World) :
  (forall (r1 r2 : Request) (b1 b2 u1 u2 pw : string),
     Header_Get r1 "Authorization" = "Basic " +:+ b1 ->
     Header_Get r2 "Authorization" = "Basic " +:+ b2 ->
     base64_DecodeString a b1 = Ok (basicCredentials u1 pw) ->
     base64_DecodeString a b2 = Ok (basicCredentials u2 pw) ->
     GoStrings.lacks ":"%char u1 = true ->
     GoStrings.lacks ":"%char u2 = true ->
     authenticateBasicAuth a r1 σ = authenticateBasicAuth a r2 σ
     /\ authenticateBasicAuth a r1 σ =
          (if GoStrings.lacks ":"%char pw then authenticateSystemPassword a pw σ
           else requestBasicAuth σ))
  /\ (forall (r : Request) (b creds : string),
        Header_Get r "Authorization" = "Basic " +:+ b ->
        base64_DecodeString a b = Ok creds ->
        GoStrings.Count creds ":"%char <> 1%nat ->
        authenticateBasicAuth a r σ = requestBasicAuth σ)
  /\ requestBasicAuth σ = Returned tt (challenged σ) [EvWriteHeader StatusUnauthorized]
  /\ rw_status (w (challenged σ)) = rw_status (WriteHeader_rw StatusUnauthorized (w σ)).
Proof.
  split; [|split; [|split]].
  - intros r1 r2 b1 b2 u1 u2 pw H1 H2 D1 D2 U1 U2.
    rewrite (authenticateBasicAuth_credentials a r1 b1 u1 pw σ H1 D1 U1).
    rewrite (authenticateBasicAuth_credentials a r2 b2 u2 pw σ H2 D2 U2).
    split; reflexivity.
  - intros r b creds Hh Dc Hc.
    apply (authenticateBasicAuth_colons a r b creds σ Hh Dc Hc).
  - reflexivity.
  - destruct σ as [[hdr cookies [st|] body werr] cv]; reflexivity.
Qed.

Lemma basic_auth_ignores_user_witness :
  authenticateBasicAuth (Demo.admin Demo.keychain 5000)
    (Demo.request "Basic dTpzZWNyZXQ=") Demo.fresh
  = authenticateBasicAuth (Demo.admin Demo.keychain 5000)
      (Demo.request "Basic YWRtaW46c2VjcmV0") Demo.fresh
  /\ authenticateBasicAuth (Demo.admin Demo.keychain 5000)
       (Demo.request "Basic c2VjcmV0") Demo.fresh
     = requestBasicAuth Demo.fresh.
Proof.
  destruct (basic_auth_ignores_user (Demo.admin Demo.keychain 5000) Demo.fresh)
    as (Hsame & Hcolons & _).
  split.
  - apply (Hsame (Demo.request "Basic dTpzZWNyZXQ=") (Demo.request "Basic YWRtaW46c2VjcmV0")
             "dTpzZWNyZXQ=" "YWRtaW46c2VjcmV0" "u" "admin" "secret"); reflexivity.
  - apply (Hcolons (Demo.request "Basic c2VjcmV0") "c2VjcmV0" "secret");
      [reflexivity | reflexivity | vm_compute; discriminate].
Defined.

(** ** The transaction loop of [InitPayment] *)

Section TxLoop.

Import FritzPay.

Lemma labels_app (l1 l2 : list TxEvent) : labels (l1 ++ l2) = labels l1 ++ labels l2.
Proof.
  induction l1 as [|e l1 IH]; [reflexivity|].
  destruct e; cbn [labels app]; rewrite ?IH; reflexivity.
Qed.

Lemma labels_deferred (tx_open commit : bool) (d : Answers) :
  labels (deferred tx_open commit d) = [].
Proof.
  unfold deferred. destruct (tx_open && negb commit); [|reflexivity].
  destruct (ans_Rollback d); reflexivity.
Qed.

Lemma labels_pass (methodKey : string) (d : Answers) :
  labels (fst (pass methodKey d)) = [].
Proof.
  unfold pass. repeat case_match; reflexivity.
Qed.

(** A pass ends in [goto beginTx] only after a lock timeout of
    [SetPaymentTransaction] or a deadlock (1213) of [Commit]. *)
Lemma pass_goto (methodKey : string) (d : Answers) (evs : list TxEvent) :
  pass methodKey d = (evs, Goto_beginTx) -> retriable d.
Proof.
  unfold pass, retriable. repeat case_match; intros [=]; subst; auto.
Qed.

Lemma beginTx_spec (maxRetries : Z) (methodKey : string) (db : Z -> Answers)
    (tx_open : bool) (retries : Z) :
  counts_from retries (labels (fst (beginTx maxRetries methodKey db tx_open retries)))
  /\ (length (labels (fst (beginTx maxRetries methodKey db tx_open retries)))
      <= Z.to_nat (maxRetries - retries) + 1)%nat
  /\ (forall i : Z,
        retries <= i ->
        (Z.to_nat (i - retries) + 1
           < length (labels (fst (beginTx maxRetries methodKey db tx_open retries))))%nat ->
        retriable (db i))
  /\ (retries <= maxRetries ->
      In maxRetries (labels (fst (beginTx maxRetries methodKey db tx_open retries))) ->
      snd (beginTx maxRetries methodKey db tx_open retries) = Some ErrDB).
Proof.
  funelim (beginTx maxRetries methodKey db tx_open retries); cbn [fst snd].
  - (* the guard: too many retries *)
    rewrite labels_app, labels_deferred. cbn.
    repeat split; intros; lia.
  - (* goto beginTx *)
    match goal with
    | Hp : pass _ _ = (_, Goto_beginTx) |- _ =>
        pose proof (labels_pass methodKey (db retries)) as Hevs;
        pose proof (pass_goto _ _ _ Hp) as Hretry;
        rewrite Hp in Hevs; cbn [fst] in Hevs
    end.
    match goal with
    | IH : counts_from _ _ /\ _ |- _ => destruct IH as (IHc & IHl & IHr & IHe)
    end.
    cbn [labels]. rewrite labels_app, Hevs. cbn [app length counts_from].
    split; [split; [reflexivity | exact IHc]|].
    split; [lia|]. split.
    + intros i Hi Hlt. destruct (Z.eq_dec i retries) as [->|Hne]; [exact Hretry|].
      apply IHr; [lia|].
      replace (i - retries) with (Z.succ (i - (retries + 1))) in Hlt by lia.
      rewrite Z2Nat.inj_succ in Hlt by lia. lia.
    + intros Hle [Hhere|Hin]; [lia|]. apply IHe; [lia | exact Hin].
  - (* return *)
    match goal with
    | Hp : pass _ _ = (_, Return _ _ _) |- _ =>
        pose proof (labels_pass methodKey (db retries)) as Hevs;
        rewrite Hp in Hevs; cbn [fst] in Hevs
    end.
    cbn [labels]. rewrite labels_app, Hevs, labels_deferred. cbn.
    repeat split; intros; cbn in *; intuition lia.
Qed.

End TxLoop.

(** C10. For every non-negative [TransactionMaxRetries] the transaction
    loop of [InitPayment] ends: control reaches the label [beginTx] at most
    [TransactionMaxRetries + 1] times, with the counter at 0, 1, 2, ...; a
    pass is followed by another only after a lock timeout or a deadlock
    (error 1213); and when the counter has reached [TransactionMaxRetries]
    the function returns [ErrDB]. *)
Theorem InitPayment_retries_bounded (Debug : bool) (maxRetries methodID : Z)
    (methodDisabled : bool)
    (methodKey : string) (db : Z -> FritzPay.Answers) :
  0 <= maxRetries ->
  (length (FritzPay.labels
             (fst (FritzPay.InitPayment Debug maxRetries methodID methodDisabled methodKey db)))
     <= Z.to_nat maxRetries + 1)%nat
  /\ FritzPay.counts_from 0
       (FritzPay.labels
          (fst (FritzPay.InitPayment Debug maxRetries methodID methodDisabled methodKey db)))
  /\ (forall i : Z,
        0 <= i ->
        (Z.to_nat i + 1
           < length (FritzPay.labels
                       (fst (FritzPay.InitPayment Debug maxRetries methodID methodDisabled
                               methodKey db))))%nat ->
        FritzPay.retriable (db i))
  /\ (In maxRetries
         (FritzPay.labels
            (fst (FritzPay.InitPayment Debug maxRetries methodID methodDisabled methodKey db))) ->
      snd (FritzPay.InitPayment Debug maxRetries methodID methodDisabled methodKey db)
        = Some FritzPay.ErrDB).
Proof.
  intros Hmax. unfold FritzPay.InitPayment.
  assert (Hdbg : forall l, FritzPay.labels (FritzPay.debugLog Debug ++ l) = FritzPay.labels l)
    by (destruct Debug; reflexivity).
  destruct methodDisabled; cbn [fst snd]; rewrite Hdbg.
  - cbn. repeat split; intros; cbn in *; intuition lia.
  - destruct (beginTx_spec maxRetries methodKey db false 0) as (Hc & Hl & Hr & He).
    rewrite Z.sub_0_r in Hl. repeat split.
    + exact Hl.
    + exact Hc.
    + intros i Hi Hlt. apply Hr; [exact Hi|]. rewrite Z.sub_0_r. exact Hlt.
    + intros Hin. apply He; [exact Hmax | exact Hin].
Qed.

Lemma InitPayment_retries_bounded_witness :
  (length (FritzPay.labels
             (fst (FritzPay.InitPayment false 3 7 false "fritzpay_demo"
                     (fun _ => Demo.deadlocked))))
     <= 4)%nat
  /\ snd (FritzPay.InitPayment false 3 7 false "fritzpay_demo" (fun _ => Demo.deadlocked))
     = Some FritzPay.ErrDB.
Proof.
  destruct (InitPayment_retries_bounded false 3 7 false "fritzpay_demo"
              (fun _ => Demo.deadlocked) ltac:(lia)) as (Hl & _ & _ & He).
  split; [exact Hl|]. apply He. vm_compute. auto.
Defined.


(** ** Issue, then verify, through the two handlers *)

Section IssueThenVerify.

Variable S : Spec.Signer.
Variables issuer verifier : @AdminAPI (SpecAPI S).
Variable key : Spec.KeychainKey.

Hypothesis issuer_key : Spec.currentKey (ctx_Keychain issuer) = Ok key.
Hypothesis verifier_key :
  Spec.matchKey (ctx_Keychain verifier) (Spec.key_id key) = Ok key.
Hypothesis in_time : time_Now verifier <= time_Now issuer + AuthLifetime issuer.

(** [respondWithAuthorization] hands out the serialized token in the
    response body, and in the auth cookie when cookies are allowed. *)
Lemma respond_hands_out_token (s j : string) (σ : World) :
  issueToken S key (<[AuthUserIDKey issuer := systemUserID issuer]> ∅)
    (time_Now issuer + AuthLifetime issuer) = Ok s ->
  json_Marshal issuer s = Ok j ->
  events (respondWithAuthorization issuer σ) =
    issue_prefix issuer ++ [EvEncode; EvSerialized; EvMarshal]
      ++ (if cfg_AllowCookieAuth issuer
          then [EvSetCookie
                  {| cookie_Name := AuthCookieName issuer; cookie_Value := s;
                     cookie_Path := ServicePath issuer;
                     cookie_Expires := time_Now issuer + AuthLifetime issuer;
                     cookie_HttpOnly := cfg_HttpOnly issuer;
                     cookie_Secure := cfg_Secure issuer |}]
          else [])
      ++ [EvWrite j]
      ++ match rw_write_err (w σ) with
         | Some _ => [EvLog LvlError "error writing HTTP response"]
         | None => []
         end.
Proof.
  intros Hs Hj. rewrite issueToken_eq in Hs. injection Hs as <-.
  apply (respond_issued issuer σ key _ _ j issuer_key eq_refl eq_refl Hj).
Qed.

(** That string is accepted by [AuthHandler] until it expires, and the
    success handler finds the issued payload in the request context. *)
Lemma issued_token_accepted (success failed : Handler) (r : Request)
    (s : string) (σ : World) :
  issueToken S key (<[AuthUserIDKey issuer := systemUserID issuer]> ∅)
    (time_Now issuer + AuthLifetime issuer) = Ok s ->
  tokenString verifier r = Some s ->
  AuthHandler verifier success failed r σ =
    Returned tt
      (success r {| w := w σ;
                    ctxvar := Some (<[AuthUserIDKey issuer := systemUserID issuer]> ∅) |})
      [EvNewAuthorization; EvReadFrom s;
       EvExpiryCheck (time_Now issuer + AuthLifetime issuer) (time_Now verifier);
       EvMatchKey; EvDecode;
       EvSetRequestContextVar (<[AuthUserIDKey issuer := systemUserID issuer]> ∅);
       EvServeHTTP RoleSuccess].
Proof.
  intros Hs Htok. rewrite issueToken_eq in Hs. injection Hs as <-.
  pose proof (AuthHandler_run verifier success failed r _ σ Htok) as Hrun.
  pose proof (readFrom_issued S key (<[AuthUserIDKey issuer := systemUserID issuer]> ∅)
                (time_Now issuer + AuthLifetime issuer)) as Hread.
  pose proof (decode_parsed S key (<[AuthUserIDKey issuer := systemUserID issuer]> ∅)
                (time_Now issuer + AuthLifetime issuer)) as Hdec.
  destruct Hrun as [err auth Hr|auth Hr He|auth err Hr He Hk
                   |auth k err auth' Hr He Hk Hd|auth k auth' Hr He Hk Hd];
    pose proof (eq_trans (eq_sym Hr) Hread) as Er; try discriminate Er;
    injection Er as ->.
  - exfalso. change (time_Now issuer + AuthLifetime issuer < time_Now verifier) in He.
    lia.
  - pose proof (eq_trans (eq_sym Hk) verifier_key) as Ek. discriminate Ek.
  - pose proof (eq_trans (eq_sym Hk) verifier_key) as Ek. injection Ek as ->.
    pose proof (eq_trans (eq_sym Hd) Hdec) as Ed. discriminate Ed.
  - pose proof (eq_trans (eq_sym Hk) verifier_key) as Ek. injection Ek as ->.
    pose proof (eq_trans (eq_sym Hd) Hdec) as Ed. injection Ed as ->.
    reflexivity.
Qed.

End IssueThenVerify.

(** ** More on basic authentication and [GetAuthorization] *)

Section MonadFacts.

Lemma bind_ret_l {A B} (x : A) (k : A -> HandlerM B) (σ : World) :
  bind (ret x) k σ = k x σ.
Proof. unfold bind, ret. destruct (k x σ); reflexivity. Qed.

Lemma events_wrap {A} (o : Outcome A) (evs : list Event) :
  events match o with
         | Returned b σ e => Returned b σ (evs ++ e)
         | Panicked msg σ e => Panicked msg σ (evs ++ e)
         end = evs ++ events o.
Proof. destruct o; reflexivity. Qed.

Lemma world_wrap {A} (o : Outcome A) (evs : list Event) :
  world match o with
        | Returned b σ e => Returned b σ (evs ++ e)
        | Panicked msg σ e => Panicked msg σ (evs ++ e)
        end = world o.
Proof. destruct o; reflexivity. Qed.

Lemma requestBasicAuth_eq (σ : World) :
  requestBasicAuth σ = Returned tt (challenged σ) [EvWriteHeader StatusUnauthorized].
Proof. reflexivity. Qed.

End MonadFacts.

Section BasicAuthCases.

Context `{API : AuthorizationAPI}.
Variable a : AdminAPI.

(** [authenticateBasicAuth], branch by branch. *)
Lemma authenticateBasicAuth_cases (r : Request) (σ : World) :
  authenticateBasicAuth a r σ =
    if String.eqb (Header_Get r "Authorization") "" then requestBasicAuth σ
    else
      match GoStrings.cut " "%char (Header_Get r "Authorization") with
      | None =>
          if String.eqb (Header_Get r "Authorization") "Basic"
          then Panicked "runtime error: index out of range" σ []
          else requestBasicAuth σ
      | Some (hd, tl) =>
          if String.eqb hd "Basic" then
            match base64_DecodeString a tl with
            | Err _ => requestBasicAuth σ
            | Ok creds =>
                match GoStrings.Split creds ":"%char with
                | [_; pw] => authenticateSystemPassword a pw σ
                | _ => requestBasicAuth σ
                end
            end
          else requestBasicAuth σ
      end.
Proof.
  unfold authenticateBasicAuth.
  generalize (Header_Get r "Authorization"). intros h.
  destruct (String.eqb h ""); [reflexivity|].
  rewrite SplitN_2.
  destruct (GoStrings.cut " "%char h) as [[hd tl]|].
  - unfold index at 1. cbn [lookup list_lookup]. rewrite bind_ret_l.
    destruct (String.eqb hd "Basic"); cbn [negb]; [|reflexivity].
    unfold index at 1. cbn [lookup list_lookup]. rewrite bind_ret_l.
    destruct (base64_DecodeString a tl) as [creds|err]; [|reflexivity].
    destruct (GoStrings.Split creds ":"%char) as [|x [|y [|z l]]];
      cbn [length Nat.eqb negb]; try reflexivity.
    unfold index. cbn [lookup list_lookup]. rewrite bind_ret_l. reflexivity.
  - unfold index at 1. cbn [lookup list_lookup]. rewrite bind_ret_l.
    destruct (String.eqb h "Basic"); cbn [negb]; [|reflexivity].
    reflexivity.
Qed.

Lemma Split_two (s x y : string) :
  GoStrings.Split s ":"%char = [x; y] ->
  s = basicCredentials x y
  /\ GoStrings.lacks ":"%char x = true /\ GoStrings.lacks ":"%char y = true.
Proof.
  intros Hs. pose proof (length_Split ":"%char s) as Hlen.
  rewrite Hs in Hlen. cbn in Hlen.
  unfold GoStrings.Split in Hs.
  assert (Hc : GoStrings.Count s ":"%char = 1%nat) by lia.
  rewrite Hc in Hs. cbn [GoStrings.genSplit] in Hs.
  destruct (GoStrings.cut ":"%char s) as [[hd tl]|] eqn:Hcut; [|discriminate].
  injection Hs as -> ->.
  destruct (cut_Some _ _ _ _ Hcut) as [-> Hx].
  split; [reflexivity|]. split; [exact Hx|].
  rewrite (Count_pair _ _ _ Hx) in Hc.
  destruct (GoStrings.lacks ":"%char y) eqn:Hy; [reflexivity|].
  pose proof (lacks_Count _ _ Hy). lia.
Qed.

(** The runs of the password check. *)
Lemma authenticateSystemPassword_cases (pw : string) (σ : World) :
  authenticateSystemPassword a pw σ =
    prefixed [EvEntryByNameDB (ConfigNameSystemPassword a)]
      match EntryByNameDB a (ConfigNameSystemPassword a) with
      | Err err =>
          Returned tt (server_error σ)
            [EvLog LvlError (if error_eqb err ErrEntryNotFound then "no password entry"
                             else "error retrieving password entry");
             EvWriteHeader StatusInternalServerError]
      | Ok v =>
          match bcrypt_CompareHashAndPassword a v pw with
          | Some err =>
              if error_eqb err ErrMismatchedHashAndPassword then
                Returned tt {| w := WriteHeader_rw StatusUnauthorized (w σ);
                               ctxvar := ctxvar σ |}
                  [EvSleep; EvWriteHeader StatusUnauthorized]
              else
                Returned tt (server_error σ)
                  [EvLog LvlError "error checking password";
                   EvWriteHeader StatusInternalServerError]
          | None => respondWithAuthorization a σ
          end
      end.
Proof.
  unfold authenticateSystemPassword, bind at 1, emit, prefixed.
  destruct (EntryByNameDB a (ConfigNameSystemPassword a)) as [v|err].
  - destruct (bcrypt_CompareHashAndPassword a v pw) as [err|]; [|reflexivity].
    destruct (error_eqb err ErrMismatchedHashAndPassword); reflexivity.
  - destruct (error_eqb err ErrEntryNotFound); reflexivity.
Qed.

Lemma events_prefixed {A} (evs : list Event) (o : Outcome A) :
  events (prefixed evs o) = evs ++ events o.
Proof. destruct o; reflexivity. Qed.

Lemma world_prefixed {A} (evs : list Event) (o : Outcome A) :
  world (prefixed evs o) = world o.
Proof. destruct o; reflexivity. Qed.

Lemma panicked_prefixed {A} (evs : list Event) (o : Outcome A) :
  panicked (prefixed evs o) = panicked o.
Proof. destruct o; reflexivity. Qed.

(** Output (a body or a cookie) is written by the password check only
    when the stored hash matches. *)
Lemma authenticateSystemPassword_output (pw : string) (σ : World) :
  existsb is_output (events (authenticateSystemPassword a pw σ)) = true ->
  exists entry,
    EntryByNameDB a (ConfigNameSystemPassword a) = Ok entry
    /\ bcrypt_CompareHashAndPassword a entry pw = None.
Proof.
  rewrite authenticateSystemPassword_cases, events_prefixed.
  cbn [app existsb is_output orb].
  destruct (EntryByNameDB a (ConfigNameSystemPassword a)) as [v|err] eqn:He;
    [|discriminate].
  destruct (bcrypt_CompareHashAndPassword a v pw) as [err|] eqn:Hb.
  - destruct (error_eqb err ErrMismatchedHashAndPassword); discriminate.
  - intros _. exists v. split; [reflexivity | exact Hb].
Qed.

Lemma authenticateBasicAuth_output (r : Request) (σ : World) :
  existsb is_output (events (authenticateBasicAuth a r σ)) = true ->
  exists b user pw entry,
    Header_Get r "Authorization" = "Basic " +:+ b
    /\ base64_DecodeString a b = Ok (basicCredentials user pw)
    /\ GoStrings.lacks ":"%char user = true
    /\ GoStrings.lacks ":"%char pw = true
    /\ EntryByNameDB a (ConfigNameSystemPassword a) = Ok entry
    /\ bcrypt_CompareHashAndPassword a entry pw = None.
Proof.
  rewrite authenticateBasicAuth_cases.
  destruct (String.eqb (Header_Get r "Authorization") ""); [discriminate|].
  destruct (GoStrings.cut " "%char (Header_Get r "Authorization")) as [[hd tl]|] eqn:Hcut.
  2:{ destruct (String.eqb (Header_Get r "Authorization") "Basic"); discriminate. }
  destruct (String.eqb_spec hd "Basic") as [->|_]; [|discriminate].
  destruct (base64_DecodeString a tl) as [creds|err] eqn:Hdec; [|discriminate].
  destruct (GoStrings.Split creds ":"%char) as [|x [|y [|z l]]] eqn:Hsplit;
    try discriminate.
  intros Hout.
  destruct (authenticateSystemPassword_output y σ Hout) as (entry & He & Hb).
  destruct (Split_two _ _ _ Hsplit) as (-> & Hx & Hy).
  destruct (cut_Some _ _ _ _ Hcut) as [Hh _].
  exists tl, x, y, entry. repeat split; assumption.
Qed.

End BasicAuthCases.

Section IssueWorld.

Context `{API : AuthorizationAPI}.
Variable a : AdminAPI.

(** The response after a token was issued: the cookie is added when
    cookies are allowed; on a healthy connection the status becomes 200
    (unless one was written before) and the JSON is appended to the body. *)
Lemma respond_issued_world key auth s j (σ : World) :
  kc_BinKey (ctx_Keychain a) = Ok key ->
  auth_Encode key (freshAuthorization a) = (None, auth) ->
  auth_Serialized auth = Ok s ->
  json_Marshal a s = Ok j ->
  rw_header (w (world (respondWithAuthorization a σ))) = rw_header (w σ)
  /\ ctxvar (world (respondWithAuthorization a σ)) = ctxvar σ
  /\ rw_status (w (world (respondWithAuthorization a σ))) =
       match rw_write_err (w σ) with
       | Some _ => rw_status (w σ)
       | None => rw_status (WriteHeader_rw StatusOK (w σ))
       end
  /\ existsb is_output (events (respondWithAuthorization a σ)) = true.
Proof.
  intros Hkey Henc Hser Hjson. unfold freshAuthorization in Henc.
  unfold respondWithAuthorization, authorizationHash. cbn.
  rewrite Hkey. cbn. rewrite Henc. cbn. rewrite Hser. cbn. rewrite Hjson.
  destruct σ as [[hdr cookies status body werr] cv].
  destruct (cfg_AllowCookieAuth a), werr as [e|], status as [st|]; cbn;
    repeat split; reflexivity.
Qed.

(** Whatever happens, [respondWithAuthorization] leaves the response
    headers and the request context alone, and it writes a status when the
    connection is healthy. *)
Lemma respond_header_status (σ : World) :
  rw_header (w (world (respondWithAuthorization a σ))) = rw_header (w σ)
  /\ ctxvar (world (respondWithAuthorization a σ)) = ctxvar σ
  /\ (rw_write_err (w σ) = None -> rw_status (w σ) = None ->
      (rw_status (w (world (respondWithAuthorization a σ))) = Some StatusOK
       /\ existsb is_output (events (respondWithAuthorization a σ)) = true)
      \/ (rw_status (w (world (respondWithAuthorization a σ)))
            = Some StatusInternalServerError
          /\ existsb is_output (events (respondWithAuthorization a σ)) = false)).
Proof.
  assert (Hse : rw_header (w (server_error σ)) = rw_header (w σ)
                /\ ctxvar (server_error σ) = ctxvar σ
                /\ (rw_status (w σ) = None ->
                    rw_status (w (server_error σ)) = Some StatusInternalServerError)).
  { destruct σ as [[hdr cookies [st|] body werr] cv]; cbn; repeat split; congruence. }
  destruct Hse as (Hh & Hc & Hs).
  destruct (kc_BinKey (ctx_Keychain a)) as [key|err] eqn:Hkey.
  2:{ rewrite (respond_key_error a σ _ Hkey). cbn [world events].
      repeat split; try assumption. intros _ Hst. right. split; [auto | reflexivity]. }
  destruct (auth_Encode key (freshAuthorization a)) as [[err|] auth] eqn:Henc.
  { rewrite (respond_encode_error a σ _ _ _ Hkey Henc). cbn [world events].
    repeat split; try assumption. intros _ Hst. right. split; [auto | reflexivity]. }
  destruct (auth_Serialized auth) as [s|err] eqn:Hser.
  2:{ rewrite (respond_serialized_error a σ _ _ _ Hkey Henc Hser). cbn [world events].
      repeat split; try assumption. intros _ Hst. right. split; [auto | reflexivity]. }
  destruct (json_Marshal a s) as [j|err] eqn:Hjson.
  2:{ rewrite (respond_marshal_error a σ _ _ _ _ Hkey Henc Hser Hjson). cbn [world events].
      repeat split; try assumption. intros _ Hst. right. split; [auto | reflexivity]. }
  destruct (respond_issued_world key auth s j σ Hkey Henc Hser Hjson)
    as (Hh' & Hc' & Hs' & Ho').
  repeat split; try assumption.
  intros Herr Hst. left. rewrite Hs', Herr. split; [|exact Ho'].
  unfold WriteHeader_rw. rewrite Hst. reflexivity.
Qed.

End IssueWorld.

(** X1. [GetAuthorization] hands out a token (writes the JSON body or
    sets the cookie) only for a GET request on the method [basic] whose
    header is [Basic b], with [b] decoding to [user:pw] without further
    colons, and whose [pw] matches the stored password hash. *)
Theorem token_only_after_password_match `{API : AuthorizationAPI}
    (path_Clean : string -> string) (a : AdminAPI) (r : Request) (σ : World) :
  existsb is_output (events (GetAuthorization path_Clean a r σ)) = true ->
  req_Method r = "GET"
  /\ getAuthorizationMethod path_Clean (req_Path r) = "basic"
  /\ exists b user pw entry,
       Header_Get r "Authorization" = "Basic " +:+ b
       /\ base64_DecodeString a b = Ok (basicCredentials user pw)
       /\ GoStrings.lacks ":"%char user = true
       /\ GoStrings.lacks ":"%char pw = true
       /\ EntryByNameDB a (ConfigNameSystemPassword a) = Ok entry
       /\ bcrypt_CompareHashAndPassword a entry pw = None.
Proof.
  unfold GetAuthorization, bind. cbn [Header_Set].
  destruct (String.eqb_spec (req_Method r) "GET") as [Hm|_]; cbn [negb];
    [|discriminate].
  destruct (String.eqb_spec (getAuthorizationMethod path_Clean (req_Path r)) "basic")
    as [Hp|_]; [|discriminate].
  rewrite events_wrap. cbn [app]. intros Hout.
  split; [exact Hm|]. split; [exact Hp|].
  exact (authenticateBasicAuth_output a r _ Hout).
Qed.

Lemma token_only_after_password_match_witness :
  exists b user pw entry,
    Header_Get (Demo.request "Basic dTpzZWNyZXQ=") "Authorization" = "Basic " +:+ b
    /\ Base64.DecodeString b = Ok (basicCredentials user pw)
    /\ GoStrings.lacks ":"%char user = true
    /\ GoStrings.lacks ":"%char pw = true
    /\ EntryByNameDB (Demo.admin Demo.keychain 5000) "SystemPassword" = Ok entry
    /\ Demo.bcrypt entry pw = None.
Proof.
  apply (token_only_after_password_match alreadyClean (Demo.admin Demo.keychain 5000)
           (Demo.request "Basic dTpzZWNyZXQ=") Demo.fresh).
  vm_compute. reflexivity.
Defined.

(** X2. A well-formed Basic header with a wrong password is answered,
    after the delay, with a plain 401: no challenge header is added, the
    password store is read once ([EntryByNameDB] is called once, before
    the delay), and no token is issued. *)
Theorem wrong_password_unauthorized `{API : AuthorizationAPI} (a : AdminAPI)
    (r : Request) (b user pw entry : string) (σ : World) :
  Header_Get r "Authorization" = "Basic " +:+ b ->
  base64_DecodeString a b = Ok (basicCredentials user pw) ->
  GoStrings.lacks ":"%char user = true ->
  GoStrings.lacks ":"%char pw = true ->
  EntryByNameDB a (ConfigNameSystemPassword a) = Ok entry ->
  bcrypt_CompareHashAndPassword a entry pw = Some ErrMismatchedHashAndPassword ->
  authenticateBasicAuth a r σ =
    Returned tt {| w := WriteHeader_rw StatusUnauthorized (w σ); ctxvar := ctxvar σ |}
      [EvEntryByNameDB (ConfigNameSystemPassword a); EvSleep;
       EvWriteHeader StatusUnauthorized].
Proof.
  intros Hh Hd Hu Hp He Hb.
  rewrite (authenticateBasicAuth_credentials a r b user pw σ Hh Hd Hu), Hp.
  rewrite authenticateSystemPassword_cases, He, Hb. reflexivity.
Qed.

Lemma wrong_password_unauthorized_witness :
  authenticateBasicAuth (Demo.admin Demo.keychain 5000)
    (Demo.request "Basic dTp3cm9uZw==") Demo.fresh =
  Returned tt {| w := WriteHeader_rw StatusUnauthorized emptyResponse; ctxvar := None |}
    [EvEntryByNameDB (ConfigNameSystemPassword (Demo.admin Demo.keychain 5000));
     EvSleep; EvWriteHeader StatusUnauthorized].
Proof.
  apply (wrong_password_unauthorized (Demo.admin Demo.keychain 5000)
           (Demo.request "Basic dTp3cm9uZw==") "dTp3cm9uZw==" "u" "wrong"
           "bcrypt:secret" Demo.fresh); reflexivity.
Defined.

(** X3. When the password entry cannot be read (it is missing or the
    database fails), or bcrypt fails with anything but a mismatch, the
    password check logs an error and answers 500: it neither sleeps nor
    issues a token. *)
Theorem password_store_failure_is_server_error `{API : AuthorizationAPI}
    (a : AdminAPI) (pw : string) (σ : World) :
  (exists err, EntryByNameDB a (ConfigNameSystemPassword a) = Err err)
  \/ (exists entry err,
        EntryByNameDB a (ConfigNameSystemPassword a) = Ok entry
        /\ bcrypt_CompareHashAndPassword a entry pw = Some err
        /\ error_eqb err ErrMismatchedHashAndPassword = false) ->
  world (authenticateSystemPassword a pw σ) = server_error σ
  /\ existsb is_fault_log (events (authenticateSystemPassword a pw σ)) = true
  /\ existsb is_sleep (events (authenticateSystemPassword a pw σ)) = false
  /\ existsb is_output (events (authenticateSystemPassword a pw σ)) = false.
Proof.
  rewrite authenticateSystemPassword_cases, world_prefixed, events_prefixed.
  intros [[err He]|(entry & err & He & Hb & Hne)]; rewrite He.
  - repeat split.
  - rewrite Hb, Hne. repeat split.
Qed.

Lemma password_store_failure_is_server_error_witness :
  rw_status (w (world (authenticateSystemPassword adminWithoutPassword "secret"
                         Demo.fresh)))
  = Some StatusInternalServerError.
Proof.
  destruct (password_store_failure_is_server_error adminWithoutPassword "secret"
              Demo.fresh) as (Hw & _).
  - left. exists ErrEntryNotFound. reflexivity.
  - rewrite Hw. reflexivity.
Defined.

(** X4. A request whose Authorization header is absent, or whose scheme
    word (the text before the first space) is not exactly [Basic], or whose
    credentials are not valid base64, gets the 401 challenge with the
    [WWW-Authenticate] header; the password store is not consulted: the
    one call of the run is [WriteHeader], there is no [EntryByNameDB]. *)
Theorem malformed_header_challenged `{API : AuthorizationAPI} (a : AdminAPI)
    (r : Request) (σ : World) :
  scheme (Header_Get r "Authorization") <> "Basic"
  \/ (exists b err,
        Header_Get r "Authorization" = "Basic " +:+ b
        /\ base64_DecodeString a b = Err err) ->
  authenticateBasicAuth a r σ =
    Returned tt (challenged σ) [EvWriteHeader StatusUnauthorized].
Proof.
  rewrite authenticateBasicAuth_cases, requestBasicAuth_eq. unfold scheme.
  intros [Hs|(b & err & Hh & Hd)].
  - destruct (String.eqb (Header_Get r "Authorization") ""); [reflexivity|].
    destruct (GoStrings.cut " "%char (Header_Get r "Authorization")) as [[hd tl]|].
    + destruct (String.eqb_spec hd "Basic"); [contradiction | reflexivity].
    + destruct (String.eqb_spec (Header_Get r "Authorization") "Basic");
        [contradiction | reflexivity].
  - rewrite Hh.
    change (String.eqb ("Basic " +:+ b) "") with false.
    change (GoStrings.cut " "%char ("Basic " +:+ b)) with (Some ("Basic", b)).
    cbn. rewrite Hd. reflexivity.
Qed.

Lemma malformed_header_challenged_witness :
  rw_header (w (world (authenticateBasicAuth (Demo.admin Demo.keychain 5000)
                         (Demo.request "basic dTpzZWNyZXQ=") Demo.fresh)))
    !! "WWW-Authenticate"
  = Some ("Basic realm=" +:+ dquote +:+ "Authorization" +:+ dquote).
Proof.
  rewrite (malformed_header_challenged (Demo.admin Demo.keychain 5000)
             (Demo.request "basic dTpzZWNyZXQ=") Demo.fresh).
  - reflexivity.
  - left. vm_compute. discriminate.
Defined.

Section GetAuthorizationFacts.

Context `{API : AuthorizationAPI}.
Variable a : AdminAPI.

(** What the password check does to headers, status and context. *)
Lemma authenticateSystemPassword_response (pw : string) (σ : World) :
  rw_header (w (world (authenticateSystemPassword a pw σ))) = rw_header (w σ)
  /\ (rw_write_err (w σ) = None -> rw_status (w σ) = None ->
      exists code,
        rw_status (w (world (authenticateSystemPassword a pw σ))) = Some code
        /\ In code [StatusOK; StatusUnauthorized; StatusInternalServerError]
        /\ (code = StatusOK <->
            existsb is_output (events (authenticateSystemPassword a pw σ)) = true)).
Proof.
  rewrite authenticateSystemPassword_cases, world_prefixed, events_prefixed.
  cbn [app existsb is_output orb].
  assert (Hh : forall code, rw_header (WriteHeader_rw code (w σ)) = rw_header (w σ)).
  { intros code. unfold WriteHeader_rw. destruct (rw_status (w σ)); reflexivity. }
  assert (Hs : forall code, rw_status (w σ) = None ->
                            rw_status (WriteHeader_rw code (w σ)) = Some code).
  { intros code E. unfold WriteHeader_rw. rewrite E. reflexivity. }
  destruct (EntryByNameDB a (ConfigNameSystemPassword a)) as [v|err].
  - destruct (bcrypt_CompareHashAndPassword a v pw) as [err|].
    + destruct (error_eqb err ErrMismatchedHashAndPassword); cbn [world events w server_error].
      * split; [apply Hh|]. intros _ Hst. exists StatusUnauthorized.
        rewrite (Hs _ Hst). cbn. intuition discriminate.
      * split; [apply Hh|]. intros _ Hst. exists StatusInternalServerError.
        rewrite (Hs _ Hst). cbn. intuition discriminate.
    + destruct (respond_header_status a σ) as (Hh' & _ & Hst').
      split; [exact Hh'|]. intros Herr Hst.
      destruct (Hst' Herr Hst) as [[E O]|[E O]].
      * exists StatusOK. rewrite E, O. cbn. intuition.
      * exists StatusInternalServerError. rewrite E, O. cbn. intuition discriminate.
  - cbn [world events w server_error].
    split; [apply Hh|]. intros _ Hst. exists StatusInternalServerError.
    rewrite (Hs _ Hst). cbn. intuition discriminate.
Qed.

Lemma challenged_response (σ : World) :
  rw_header (w (challenged σ)) !! "Content-Type" = rw_header (w σ) !! "Content-Type"
  /\ (rw_status (w σ) = None -> rw_status (w (challenged σ)) = Some StatusUnauthorized).
Proof.
  unfold challenged, WriteHeader_rw. cbn.
  destruct (rw_status (w σ)); cbn; (split; [apply lookup_insert_ne; discriminate|]);
    congruence.
Qed.

(** The outcome of [authenticateBasicAuth] is the 401 challenge, the
    panic on the bare scheme word, or a run of the password check. *)
Lemma authenticateBasicAuth_shape (r : Request) (σ : World) :
  authenticateBasicAuth a r σ = requestBasicAuth σ
  \/ authenticateBasicAuth a r σ = Panicked "runtime error: index out of range" σ []
  \/ exists pw, authenticateBasicAuth a r σ = authenticateSystemPassword a pw σ.
Proof.
  rewrite authenticateBasicAuth_cases.
  destruct (String.eqb (Header_Get r "Authorization") ""); [left; reflexivity|].
  destruct (GoStrings.cut " "%char (Header_Get r "Authorization")) as [[hd tl]|].
  - destruct (String.eqb hd "Basic"); [|left; reflexivity].
    destruct (base64_DecodeString a tl) as [creds|err]; [|left; reflexivity].
    destruct (GoStrings.Split creds ":"%char) as [|x [|y [|z l]]];
      try (left; reflexivity).
    right. right. exists y. reflexivity.
  - destruct (String.eqb (Header_Get r "Authorization") "Basic");
      [right; left; reflexivity | left; reflexivity].
Qed.

(** [GetAuthorization] after its first statement. *)
Lemma GetAuthorization_eq (path_Clean : string -> string) (r : Request) (σ : World) :
  GetAuthorization path_Clean a r σ =
    let σ1 := {| w := {| rw_header := <["Content-Type" := "application/json"]>
                                         (rw_header (w σ));
                         rw_cookies := rw_cookies (w σ);
                         rw_status := rw_status (w σ);
                         rw_body := rw_body (w σ);
                         rw_write_err := rw_write_err (w σ) |};
                 ctxvar := ctxvar σ |} in
    if negb (String.eqb (req_Method r) "GET") then
      WriteHeader StatusMethodNotAllowed σ1
    else if String.eqb (getAuthorizationMethod path_Clean (req_Path r)) "basic" then
      authenticateBasicAuth a r σ1
    else WriteHeader StatusNotFound σ1.
Proof.
  unfold GetAuthorization, bind. cbn [Header_Set]. cbv zeta.
  destruct (negb (String.eqb (req_Method r) "GET")); [reflexivity|].
  destruct (String.eqb (getAuthorizationMethod path_Clean (req_Path r)) "basic").
  - destruct (authenticateBasicAuth a r _); reflexivity.
  - reflexivity.
Qed.

End GetAuthorizationFacts.

(** X5. Every response of [GetAuthorization] carries
    [Content-Type: application/json], whatever the method, the path and
    the credentials are, also when the handler panics. *)
Theorem GetAuthorization_content_type `{API : AuthorizationAPI}
    (path_Clean : string -> string) (a : AdminAPI) (r : Request) (σ : World) :
  rw_header (w (world (GetAuthorization path_Clean a r σ))) !! "Content-Type"
  = Some "application/json".
Proof.
  rewrite GetAuthorization_eq. cbv zeta.
  set (σ1 := {| w := _; ctxvar := ctxvar σ |}).
  assert (H1 : rw_header (w σ1) !! "Content-Type" = Some "application/json")
    by apply lookup_insert_eq.
  assert (HW : forall code,
             rw_header (w (world (WriteHeader code σ1))) !! "Content-Type"
             = Some "application/json").
  { intros code. cbn [WriteHeader world w]. unfold WriteHeader_rw.
    destruct (rw_status (w σ1)); exact H1. }
  destruct (negb (String.eqb (req_Method r) "GET")); [apply HW|].
  destruct (String.eqb (getAuthorizationMethod path_Clean (req_Path r)) "basic");
    [|apply HW].
  destruct (authenticateBasicAuth_shape a r σ1) as [E|[E|[pw E]]]; rewrite E.
  - rewrite requestBasicAuth_eq. cbn [world].
    rewrite (proj1 (challenged_response σ1)). exact H1.
  - exact H1.
  - rewrite (proj1 (authenticateSystemPassword_response a pw σ1)). exact H1.
Qed.

(** X6. On a fresh response and a healthy connection, every run of
    [GetAuthorization] that does not panic writes one of the statuses 200,
    401, 404, 405 and 500, and the status is 200 exactly when a token is
    handed out. *)
Theorem GetAuthorization_status `{API : AuthorizationAPI}
    (path_Clean : string -> string) (a : AdminAPI) (r : Request) (σ : World) :
  rw_status (w σ) = None ->
  rw_write_err (w σ) = None ->
  panicked (GetAuthorization path_Clean a r σ) = false ->
  exists code,
    rw_status (w (world (GetAuthorization path_Clean a r σ))) = Some code
    /\ In code [StatusOK; StatusUnauthorized; StatusNotFound;
                StatusMethodNotAllowed; StatusInternalServerError]
    /\ (code = StatusOK <->
        existsb is_output (events (GetAuthorization path_Clean a r σ)) = true).
Proof.
  intros Hst Herr. rewrite GetAuthorization_eq. cbv zeta.
  set (σ1 := {| w := _; ctxvar := ctxvar σ |}).
  assert (Hst1 : rw_status (w σ1) = None) by exact Hst.
  assert (Herr1 : rw_write_err (w σ1) = None) by exact Herr.
  assert (HW : forall code, code <> StatusOK ->
             In code [StatusOK; StatusUnauthorized; StatusNotFound;
                      StatusMethodNotAllowed; StatusInternalServerError] ->
             exists code',
               rw_status (w (world (WriteHeader code σ1))) = Some code'
               /\ In code' [StatusOK; StatusUnauthorized; StatusNotFound;
                            StatusMethodNotAllowed; StatusInternalServerError]
               /\ (code' = StatusOK <->
                   existsb is_output (events (WriteHeader code σ1)) = true)).
  { intros code Hne Hin. exists code. cbn [WriteHeader world w events].
    unfold WriteHeader_rw. rewrite Hst1. cbn. split; [reflexivity|].
    split; [exact Hin|]. split; [contradiction | discriminate]. }
  destruct (negb (String.eqb (req_Method r) "GET")).
  { intros _. apply HW; [discriminate | cbn; tauto]. }
  destruct (String.eqb (getAuthorizationMethod path_Clean (req_Path r)) "basic").
  2:{ intros _. apply HW; [discriminate | cbn; tauto]. }
  destruct (authenticateBasicAuth_shape a r σ1) as [E|[E|[pw E]]]; rewrite E.
  - intros _. rewrite requestBasicAuth_eq. cbn [world events].
    exists StatusUnauthorized.
    rewrite (proj2 (challenged_response σ1) Hst1). cbn.
    split; [reflexivity|]. split; [tauto|]. split; discriminate.
  - discriminate.
  - intros _.
    destruct (proj2 (authenticateSystemPassword_response a pw σ1) Herr1 Hst1)
      as (code & Hc & Hin & Hiff).
    exists code. split; [exact Hc|]. split; [|exact Hiff].
    cbn in Hin. cbn. tauto.
Qed.

Lemma GetAuthorization_status_witness :
  exists code,
    rw_status (w (world (GetAuthorization alreadyClean (Demo.admin Demo.keychain 5000)
                           (Demo.request "Basic dTp3cm9uZw==") Demo.fresh))) = Some code
    /\ In code [StatusOK; StatusUnauthorized; StatusNotFound;
                StatusMethodNotAllowed; StatusInternalServerError]
    /\ (code = StatusOK <->
        existsb is_output
          (events (GetAuthorization alreadyClean (Demo.admin Demo.keychain 5000)
                     (Demo.request "Basic dTp3cm9uZw==") Demo.fresh)) = true).
Proof.
  apply (GetAuthorization_status alreadyClean (Demo.admin Demo.keychain 5000)
           (Demo.request "Basic dTp3cm9uZw==") Demo.fresh); reflexivity.
Defined.

(** ** More on [AuthHandler] and [Handler.ServeHTTP] *)

Section AuthHandlerFacts.

Context `{API : AuthorizationAPI}.
Variable a : AdminAPI.
Variables success failed : Handler.

Lemma AuthHandler_no_token_run (r : Request) (σ : World) :
  tokenString a r = None ->
  AuthHandler a success failed r σ =
    Returned tt (failed r σ)
      (if cfg_AllowCookieAuth a then [EvServeHTTP RoleFailed]
       else [EvLog LvlDebug "missing authorization header"; EvServeHTTP RoleFailed]).
Proof.
  unfold tokenString, AuthHandler, Request_Cookie.
  destruct (String.eqb (Header_Get r "Authorization") ""); [|discriminate].
  destruct (cfg_AllowCookieAuth a); cbn [negb].
  - destruct (req_Cookies r !! AuthCookieName a); [discriminate|]. reflexivity.
  - reflexivity.
Qed.

Lemma verify_run_served (r : Request) (authStr : string) (σ : World) (o : Outcome unit) :
  verify_run a success failed r authStr σ o ->
  (served RoleSuccess (events o) + served RoleFailed (events o) = 1)%nat
  /\ (served RoleSuccess (events o) = 1%nat <->
      verification_fails a authStr = false /\ expired a authStr = false).
Proof.
  unfold verification_fails, expired.
  destruct 1 as [err auth Hr|auth Hr He|auth err Hr He Hk
                |auth key err auth' Hr He Hk Hd|auth key auth' Hr He Hk Hd];
    cbn; rewrite Hr; (split; [reflexivity|]).
  - split; [discriminate | intros [[=] _]].
  - split; [discriminate|]. intros [_ H]. apply Z.ltb_ge in H. lia.
  - rewrite Hk. split; [discriminate | intros [[=] _]].
  - rewrite Hk, Hd. split; [discriminate | intros [[=] _]].
  - rewrite Hk, Hd. split; [|reflexivity]. intros _. split; [reflexivity|].
    apply Z.ltb_ge. lia.
Qed.

Lemma verify_events_request (r r' : Request) (authStr : string) (σ : World) :
  events (AuthHandler_verify a success failed r authStr σ)
  = events (AuthHandler_verify a success failed r' authStr σ).
Proof.
  destruct (AuthHandler_verify_run a success failed r authStr σ)
    as [err auth Hr|auth Hr He|auth err Hr He Hk
       |auth key err auth' Hr He Hk Hd|auth key auth' Hr He Hk Hd];
    destruct (AuthHandler_verify_run a success failed r' authStr σ)
    as [err2 auth2 Hr2|auth2 Hr2 He2|auth2 err2 Hr2 He2 Hk2
       |auth2 key2 err2 auth2' Hr2 He2 Hk2 Hd2|auth2 key2 auth2' Hr2 He2 Hk2 Hd2];
    rewrite Hr in Hr2; try discriminate Hr2; injection Hr2 as <-;
    try lia; try reflexivity;
    rewrite Hk in Hk2; try discriminate Hk2; try reflexivity;
    injection Hk2 as <-; rewrite Hd in Hd2; try discriminate Hd2;
    try reflexivity.
  injection Hd2 as <-. reflexivity.
Qed.

End AuthHandlerFacts.

(** X7. For every request [AuthHandler] serves exactly one of its two
    handlers, once; it is the success handler exactly when the request
    carries a token string that [ReadFrom], [MatchKey] and [Decode] accept
    and whose expiry is not before the clock. *)
Theorem AuthHandler_serves_one `{API : AuthorizationAPI} (a : AdminAPI)
    (success failed : Handler) (r : Request) (σ : World) :
  (served RoleSuccess (events (AuthHandler a success failed r σ))
   + served RoleFailed (events (AuthHandler a success failed r σ)) = 1)%nat
  /\ (served RoleSuccess (events (AuthHandler a success failed r σ)) = 1%nat <->
      exists authStr,
        tokenString a r = Some authStr
        /\ verification_fails a authStr = false
        /\ expired a authStr = false).
Proof.
  destruct (tokenString a r) as [authStr|] eqn:Htok.
  - destruct (verify_run_served a success failed r authStr σ _
                (AuthHandler_run a success failed r authStr σ Htok)) as [H1 H2].
    split; [exact H1|]. rewrite H2. split.
    + intros [Hv He]. exists authStr. repeat split; assumption.
    + intros (s & [= <-] & Hv & He). split; assumption.
  - rewrite (AuthHandler_no_token_run a success failed r σ Htok).
    destruct (cfg_AllowCookieAuth a); cbn; (split; [reflexivity|]);
      (split; [discriminate | intros (s & [=] & _)]).
Qed.

(** X8. Cookies are ignored when the Authorization header is present
    (two requests with the same non-empty header give the same events,
    whatever their cookies), and when cookie authorization is switched off
    a request without the header is failed at once. *)
Theorem cookies_ignored `{API : AuthorizationAPI} (a : AdminAPI)
    (success failed : Handler) (r r' : Request) (σ : World) :
  (Header_Get r "Authorization" <> "" ->
   Header_Get r' "Authorization" = Header_Get r "Authorization" ->
   events (AuthHandler a success failed r σ) = events (AuthHandler a success failed r' σ))
  /\ (cfg_AllowCookieAuth a = false ->
      Header_Get r "Authorization" = "" ->
      AuthHandler a success failed r σ =
        Returned tt (failed r σ)
          [EvLog LvlDebug "missing authorization header"; EvServeHTTP RoleFailed]).
Proof.
  split.
  - intros Hne Heq.
    assert (Ht : forall q, Header_Get q "Authorization" = Header_Get r "Authorization" ->
                           tokenString a q = Some (Header_Get r "Authorization")).
    { intros q Hq. unfold tokenString. rewrite Hq.
      destruct (String.eqb_spec (Header_Get r "Authorization") "");
        [contradiction | reflexivity]. }
    rewrite (AuthHandler_with_token a success failed r _ (Ht r eq_refl)).
    rewrite (AuthHandler_with_token a success failed r' _ (Ht r' Heq)).
    apply verify_events_request.
  - intros Hoff Hempty.
    assert (Htok : tokenString a r = None).
    { unfold tokenString. rewrite Hempty, Hoff. reflexivity. }
    rewrite (AuthHandler_no_token_run a success failed r σ Htok), Hoff.
    reflexivity.
Qed.

Lemma cookies_ignored_witness :
  AuthHandler adminWithoutPassword Demo.parent unauthorized
    (cookieRequest Demo.issued) Demo.fresh =
  Returned tt (unauthorized (cookieRequest Demo.issued) Demo.fresh)
    [EvLog LvlDebug "missing authorization header"; EvServeHTTP RoleFailed].
Proof.
  apply (cookies_ignored adminWithoutPassword Demo.parent unauthorized
           (cookieRequest Demo.issued) (cookieRequest Demo.issued) Demo.fresh);
    reflexivity.
Defined.

(** X9. [authenticateBasicAuth] panics for exactly one value of the
    Authorization header, the bare scheme word [Basic]; for every other
    header value it returns. *)
Theorem basic_auth_panics_only_on_bare_scheme `{API : AuthorizationAPI}
    (a : AdminAPI) (r : Request) (σ : World) :
  panicked (authenticateBasicAuth a r σ) = true
  <-> Header_Get r "Authorization" = "Basic".
Proof. apply authenticateBasicAuth_panics_iff. Qed.


(** ** The daemon log format *)

Module LogFacts.

Import Log.

Ltac step_append :=
  repeat match goal with
         | |- context [String ?x ?a +:+ ?b] =>
             change (String x a +:+ b) with (String x (a +:+ b))
         | |- context [EmptyString +:+ ?b] => change (EmptyString +:+ b) with b
         end.

Lemma append_assoc (a b c : string) : (a +:+ b) +:+ c = a +:+ (b +:+ c).
Proof. induction a as [|x a IH]; step_append; simpl; [reflexivity | rewrite IH; reflexivity]. Qed.

Lemma append_nil_r (a : string) : a +:+ EmptyString = a.
Proof. induction a as [|x a IH]; step_append; simpl; [reflexivity | rewrite IH; reflexivity]. Qed.

Lemma length_append (a b : string) :
  String.length (a +:+ b) = (String.length a + String.length b)%nat.
Proof. induction a as [|x a IH]; step_append; simpl; [reflexivity | rewrite IH; reflexivity]. Qed.

Lemma substring_all (s : string) : substring 0 (String.length s) s = s.
Proof. induction s as [|c s IH]; simpl; [reflexivity | rewrite IH; reflexivity]. Qed.

Lemma substring_prefix (a b : string) : substring 0 (String.length a) (a +:+ b) = a.
Proof.
  induction a as [|c a IH]; step_append; simpl; [destruct b; reflexivity | rewrite IH; reflexivity].
Qed.

Lemma all_bytes_append (P : N -> bool) (a b : string) :
  all_bytes P (a +:+ b) = all_bytes P a && all_bytes P b.
Proof.
  induction a as [|c a IH]; step_append; simpl; [reflexivity|]. rewrite IH. apply andb_assoc.
Qed.

Lemma all_bytes_impl (P Q : N -> bool) (s : string) :
  (forall n, P n = true -> Q n = true) -> all_bytes P s = true -> all_bytes Q s = true.
Proof.
  intros HPQ. induction s as [|c s IH]; cbn; [reflexivity|].
  intros [Hc Hs]%andb_true_iff. rewrite (HPQ _ Hc), (IH Hs). reflexivity.
Qed.

(** The state after the loop: the flag and the buffer. *)
Lemma fold_escapeStep (rs : list N) (b : bool) (e : string) :
  fold_left escapeStep rs (b, e) = (b || existsb needsQuotes rs, e +:+ escapeBody rs).
Proof.
  revert b e. induction rs as [|r rs IH]; intros b e; cbn [fold_left existsb escapeBody].
  - rewrite orb_false_r, append_nil_r. reflexivity.
  - change (escapeStep (b, e) r)
      with ((if needsQuotes r then true else b), e +:+ escapeRune r).
    rewrite IH, append_assoc.
    destruct (needsQuotes r), b; reflexivity.
Qed.

(** [escapeString] in closed form. *)
Lemma escapeString_eq (s : string) :
  escapeString s =
    if existsb needsQuotes (Utf8.RangeString s)
    then dquote +:+ escapeBody (Utf8.RangeString s) +:+ dquote
    else escapeBody (Utf8.RangeString s).
Proof.
  unfold escapeString. rewrite fold_escapeStep. cbn [fst snd orb].
  destruct (existsb needsQuotes (Utf8.RangeString s)); cbn [fst snd].
  - rewrite Nat.sub_0_r, append_assoc. apply substring_all.
  - rewrite append_assoc. set (body := escapeBody (Utf8.RangeString s)).
    change (dquote +:+ body +:+ dquote) with (String "034"%char (body +:+ dquote)).
    cbn [String.length]. rewrite length_append.
    change (String.length dquote) with 1%nat.
    replace (S (String.length body + 1) - 1 - 1)%nat with (String.length body) by lia.
    cbn [substring]. apply substring_prefix.
Qed.

(** *** Bytes of an encoded rune *)

Lemma N_of_byte (x : N) : N_of_ascii (Utf8.byte x) = (x mod 256)%N.
Proof.
  unfold Utf8.byte. apply N_ascii_embedding. apply N.mod_upper_bound. discriminate.
Qed.

Lemma byte_small (x : N) : (x < 256)%N -> N_of_ascii (Utf8.byte x) = x.
Proof. intros H. rewrite N_of_byte. apply N.mod_small, H. Qed.

Lemma byte_of_ascii (c : ascii) : Utf8.byte (N_of_ascii c) = c.
Proof.
  unfold Utf8.byte. rewrite N.mod_small by apply N_ascii_bounded.
  apply ascii_N_embedding.
Qed.

Lemma byte_high (x : N) : N.testbit x 7 = true -> (128 <=? N_of_ascii (Utf8.byte x))%N = true.
Proof.
  intros Hbit. rewrite N_of_byte. apply N.leb_le.
  assert (Hlow : N.testbit (x mod 2 ^ 8) 7 = true)
    by (rewrite N.mod_pow2_bits_low by reflexivity; exact Hbit).
  change (2 ^ 8)%N with 256%N in Hlow.
  apply N.testbit_true in Hlow. change (2 ^ 7)%N with 128%N in Hlow.
  destruct (N.lt_ge_cases (x mod 256) 128) as [Hlt|Hge]; [|exact Hge].
  rewrite (N.div_small _ _ Hlt) in Hlow. discriminate Hlow.
Qed.

Lemma lor_high (c y : N) : N.testbit c 7 = true -> N.testbit (N.lor c y) 7 = true.
Proof. intros H. rewrite N.lor_spec, H. reflexivity. Qed.

Lemma EncodeRune_high (r : N) : (127 < r)%N -> high (Utf8.EncodeRune r) = true.
Proof.
  intros Hr. unfold Utf8.EncodeRune, Utf8.continuation, high.
  destruct (N.leb_spec r 127) as [Hle|_]; [lia|].
  destruct (r <=? 2047)%N.
  { cbn [all_bytes]. rewrite !byte_high by (apply lor_high; reflexivity). reflexivity. }
  match goal with |- context [if ?c then Utf8.RuneError else r] => destruct c end;
    match goal with |- context [(?x <=? 65535)%N] => destruct (x <=? 65535)%N end;
    cbn [all_bytes]; rewrite !byte_high by (apply lor_high; reflexivity); reflexivity.
Qed.

Lemma EncodeRune_low (r : N) :
  (r <= 127)%N -> Utf8.EncodeRune r = String (Utf8.byte r) EmptyString.
Proof.
  intros Hr. unfold Utf8.EncodeRune. destruct (N.leb_spec r 127); [reflexivity | lia].
Qed.

End LogFacts.

Module EscapeFacts.

Import Log LogFacts.

Lemma escapeBody_all (P : N -> bool) (rs : list N) :
  (forall r, In r rs -> all_bytes P (escapeRune r) = true) ->
  all_bytes P (escapeBody rs) = true.
Proof.
  induction rs as [|r rs IH]; intros H; [reflexivity|].
  cbn [escapeBody]. rewrite all_bytes_append, H by (left; reflexivity).
  apply IH. intros r' Hr'. apply H. right. exact Hr'.
Qed.

(** A rune that is written as it is: the bytes are the rune itself, or
    all have the top bit set. *)
Lemma EncodeRune_all (P : N -> bool) (r : N) :
  ((r <= 127)%N -> P r = true) ->
  (forall n, (128 <=? n)%N = true -> P n = true) ->
  all_bytes P (Utf8.EncodeRune r) = true.
Proof.
  intros Hlow Hhigh. destruct (N.le_gt_cases r 127) as [Hle|Hgt].
  - rewrite (EncodeRune_low r Hle). cbn [all_bytes].
    rewrite byte_small by lia. rewrite (Hlow Hle). reflexivity.
  - apply (all_bytes_impl _ _ _ Hhigh). apply EncodeRune_high. exact Hgt.
Qed.

Lemma escapeRune_unbroken (r : N) : unbroken (escapeRune r) = true.
Proof.
  unfold unbroken, escapeRune.
  destruct (N.eqb_spec r 92) as [->|H92]; [reflexivity|].
  destruct (N.eqb_spec r 34) as [->|H34]; [reflexivity|]. cbn [orb].
  destruct (N.eqb_spec r 10) as [->|H10]; [reflexivity|].
  destruct (N.eqb_spec r 13) as [->|H13]; [reflexivity|].
  destruct (N.eqb_spec r 9) as [->|H9]; [reflexivity|].
  apply EncodeRune_all.
  - intros _. apply negb_true_iff.
    rewrite !orb_false_iff, !N.eqb_neq. repeat split; assumption.
  - intros n Hn. apply N.leb_le in Hn. apply negb_true_iff.
    rewrite !orb_false_iff, !N.eqb_neq. repeat split; lia.
Qed.

Lemma escapeRune_bare (r : N) : needsQuotes r = false -> bare (escapeRune r) = true.
Proof.
  unfold needsQuotes. rewrite !orb_false_iff, N.leb_gt, !N.eqb_neq.
  intros [[H32 H61] H34]. unfold bare, escapeRune.
  destruct (N.eqb_spec r 92) as [->|H92]; [reflexivity|].
  destruct (N.eqb_spec r 34) as [->|_]; [contradiction|]. cbn [orb].
  destruct (N.eqb_spec r 10) as [->|_]; [lia|].
  destruct (N.eqb_spec r 13) as [->|_]; [lia|].
  destruct (N.eqb_spec r 9) as [->|_]; [lia|].
  apply EncodeRune_all.
  - intros _. apply negb_true_iff.
    rewrite !orb_false_iff, N.leb_gt, !N.eqb_neq. repeat split; assumption.
  - intros n Hn. apply N.leb_le in Hn. apply negb_true_iff.
    rewrite !orb_false_iff, N.leb_gt, !N.eqb_neq. repeat split; lia.
Qed.

Lemma RangeString_ascii (c : ascii) (s : string) :
  (N_of_ascii c <? 128)%N = true ->
  Utf8.RangeString (String c s) = N_of_ascii c :: Utf8.RangeString s.
Proof. intros H. cbn [Utf8.RangeString]. cbv zeta. rewrite H. reflexivity. Qed.

Lemma dropLast_append (b : string) (q : ascii) :
  dropLast (b +:+ String q EmptyString) = b.
Proof.
  induction b as [|c b IH]; [reflexivity|].
  change (String c b +:+ String q EmptyString) with (String c (b +:+ String q EmptyString)).
  cbn [dropLast]. rewrite IH.
  destruct b; reflexivity.
Qed.

Lemma unquote_bare (s : string) : bare s = true -> unquote s = s.
Proof.
  destruct s as [|c s]; [reflexivity|]. unfold bare. cbn [all_bytes unquote].
  intros [Hc _]%andb_true_iff.
  destruct (Ascii.eqb_spec c "034"%char) as [->|_]; [discriminate Hc | reflexivity].
Qed.

(** The five runes with an escape of their own: the escape is a backslash
    and one byte, read back as the rune. *)
Ltac special_rune E Hemb IH :=
  rewrite <- Hemb, E;
  match goal with
  | |- context [escapeRune ?n] =>
      let e := eval vm_compute in (escapeRune n) in
      change (escapeRune n) with e
  end;
  step_append; cbn [unescape];
  change (Ascii.eqb backslash backslash) with true; cbn iota;
  rewrite IH; reflexivity.

(** On ASCII input every escape is read back as the byte it stands for. *)
Lemma unescape_escapeBody (s : string) :
  is_ascii s = true -> unescape (escapeBody (Utf8.RangeString s)) = s.
Proof.
  unfold is_ascii. induction s as [|c s IH]; [reflexivity|].
  cbn [all_bytes]. intros [Hc Hs]%andb_true_iff.
  rewrite (RangeString_ascii c s Hc). cbn [escapeBody].
  specialize (IH Hs). apply N.ltb_lt in Hc.
  pose proof (ascii_N_embedding c) as Hemb.
  destruct (N.eqb_spec (N_of_ascii c) 92) as [E|H92]; [special_rune E Hemb IH|].
  destruct (N.eqb_spec (N_of_ascii c) 34) as [E|H34]; [special_rune E Hemb IH|].
  destruct (N.eqb_spec (N_of_ascii c) 10) as [E|H10]; [special_rune E Hemb IH|].
  destruct (N.eqb_spec (N_of_ascii c) 13) as [E|H13]; [special_rune E Hemb IH|].
  destruct (N.eqb_spec (N_of_ascii c) 9) as [E|H9]; [special_rune E Hemb IH|].
  unfold escapeRune.
  rewrite (proj2 (N.eqb_neq _ _) H92), (proj2 (N.eqb_neq _ _) H34),
    (proj2 (N.eqb_neq _ _) H10), (proj2 (N.eqb_neq _ _) H13),
    (proj2 (N.eqb_neq _ _) H9).
  cbn [orb]. rewrite EncodeRune_low by lia. rewrite byte_of_ascii.
  change (String c EmptyString +:+ escapeBody (Utf8.RangeString s))
    with (String c (escapeBody (Utf8.RangeString s))).
  cbn [unescape].
  destruct (Ascii.eqb_spec c backslash) as [->|_]; [exfalso; apply H92; reflexivity|].
  rewrite IH. reflexivity.
Qed.

Lemma readBack_escapeString (s : string) :
  is_ascii s = true -> readBack (escapeString s) = s.
Proof.
  intros Hs. unfold readBack. rewrite escapeString_eq.
  destruct (existsb needsQuotes (Utf8.RangeString s)) eqn:Hq.
  - change (dquote +:+ escapeBody (Utf8.RangeString s) +:+ dquote)
      with (String "034"%char (escapeBody (Utf8.RangeString s) +:+ String "034"%char EmptyString)).
    cbn [unquote]. rewrite Ascii.eqb_refl, dropLast_append.
    apply unescape_escapeBody, Hs.
  - rewrite unquote_bare; [apply unescape_escapeBody, Hs|].
    apply escapeBody_all. intros r Hr. apply escapeRune_bare.
    destruct (needsQuotes r) eqn:E; [|reflexivity].
    assert (existsb needsQuotes (Utf8.RangeString s) = true)
      by (apply existsb_exists; exists r; split; assumption).
    congruence.
Qed.

Lemma unbroken_escapeString (s : string) : unbroken (escapeString s) = true.
Proof.
  rewrite escapeString_eq.
  assert (Hb : unbroken (escapeBody (Utf8.RangeString s)) = true).
  { apply escapeBody_all. intros r _. apply escapeRune_unbroken. }
  destruct (existsb needsQuotes (Utf8.RangeString s)); [|exact Hb].
  unfold unbroken in *. rewrite !all_bytes_append, Hb. reflexivity.
Qed.

End EscapeFacts.

(** X11. A value escaped by [escapeString] contains no line feed, no
    carriage return and no tab, whatever the bytes of the input are. *)
Theorem escapeString_unbroken (s : string) : Log.unbroken (Log.escapeString s) = true.
Proof. apply EscapeFacts.unbroken_escapeString. Qed.

(** X12. The result of [escapeString] is either wrapped in double quotes
    or free of spaces, control bytes, equals signs and double quotes; it is
    wrapped exactly when some rune of the input is at or below the space,
    an equals sign or a double quote. *)
Theorem escapeString_quoted_or_bare (s : string) :
  (existsb Log.needsQuotes (Utf8.RangeString s) = true ->
   Log.escapeString s = dquote +:+ escapeBody (Utf8.RangeString s) +:+ dquote)
  /\ (existsb Log.needsQuotes (Utf8.RangeString s) = false ->
      Log.escapeString s = escapeBody (Utf8.RangeString s)
      /\ Log.bare (Log.escapeString s) = true).
Proof.
  rewrite LogFacts.escapeString_eq. split; intros Hq; rewrite Hq; [reflexivity|].
  split; [reflexivity|].
  apply EscapeFacts.escapeBody_all. intros r Hr. apply EscapeFacts.escapeRune_bare.
  destruct (Log.needsQuotes r) eqn:E; [|reflexivity].
  assert (existsb Log.needsQuotes (Utf8.RangeString s) = true)
    by (apply existsb_exists; exists r; split; assumption).
  congruence.
Qed.

Lemma escapeString_quoted_or_bare_witness :
  Log.escapeString "hello world" = dquote +:+ "hello world" +:+ dquote
  /\ Log.bare (Log.escapeString "paymentd") = true.
Proof.
  destruct (escapeString_quoted_or_bare "hello world") as [H _].
  destruct (escapeString_quoted_or_bare "paymentd") as [_ H'].
  split; [exact (H eq_refl) | exact (proj2 (H' eq_refl))].
Defined.

(** X13. An ASCII string without bytes at or below the space, equals
    signs, double quotes and backslashes is logged as it is; in particular
    the empty string gives the empty string. *)
Theorem escapeString_plain (s : string) :
  Log.is_ascii s = true -> Log.plain s = true -> Log.escapeString s = s.
Proof.
  intros Ha Hp.
  assert (H : existsb Log.needsQuotes (Utf8.RangeString s) = false
              /\ escapeBody (Utf8.RangeString s) = s).
  { revert Ha Hp. unfold Log.is_ascii, Log.plain.
    induction s as [|c s IH]; [split; reflexivity|].
    cbn [Log.all_bytes]. intros [Hc Hs]%andb_true_iff [Pc Ps]%andb_true_iff.
    rewrite (EscapeFacts.RangeString_ascii c s Hc).
    destruct (IH Hs Ps) as [IHq IHb]. cbn [existsb escapeBody]. rewrite IHq, IHb.
    apply negb_true_iff in Pc. rewrite !orb_false_iff in Pc.
    destruct Pc as [[[P32 P61] P34] P92].
    apply N.ltb_lt in Hc. split.
    - unfold Log.needsQuotes. rewrite P32, P61, P34. reflexivity.
    - unfold Log.escapeRune. rewrite P92, P34. cbn [orb].
      apply N.leb_gt in P32.
      destruct (N.eqb_spec (N_of_ascii c) 10); [lia|].
      destruct (N.eqb_spec (N_of_ascii c) 13); [lia|].
      destruct (N.eqb_spec (N_of_ascii c) 9); [lia|].
      rewrite LogFacts.EncodeRune_low by lia. rewrite LogFacts.byte_of_ascii.
      reflexivity. }
  destruct H as [Hq Hb]. rewrite LogFacts.escapeString_eq, Hq. exact Hb.
Qed.

Lemma escapeString_plain_witness :
  Log.escapeString "" = "" /\ Log.escapeString "0.9.0-alpha" = "0.9.0-alpha".
Proof.
  split.
  - apply (escapeString_plain ""); reflexivity.
  - apply (escapeString_plain "0.9.0-alpha"); reflexivity.
Defined.

(** X14. On ASCII strings [escapeString] loses nothing: two different
    strings are never logged as the same value. *)
Theorem escapeString_injective (s1 s2 : string) :
  Log.is_ascii s1 = true -> Log.is_ascii s2 = true ->
  Log.escapeString s1 = Log.escapeString s2 -> s1 = s2.
Proof.
  intros H1 H2 E.
  rewrite <- (EscapeFacts.readBack_escapeString s1 H1).
  rewrite <- (EscapeFacts.readBack_escapeString s2 H2).
  rewrite E. reflexivity.
Qed.

Lemma escapeString_injective_witness :
  Log.escapeString "a b" <> Log.escapeString ("a" +:+ String "009"%char "b").
Proof.
  intros E.
  pose proof (escapeString_injective "a b" ("a" +:+ String "009"%char "b")
                eq_refl eq_refl E) as H.
  discriminate H.
Defined.

Module RecordFacts.

Import Log LogFacts.

Lemma logRecord_from_parity (n : nat) :
  forall (ctx : list GoValue) (first : bool) (buf : string),
    (length ctx <= n)%nat ->
    (Nat.odd (length ctx) = true -> exists b, logRecord_from first buf ctx = LogPanic b)
    /\ (Nat.odd (length ctx) = false -> exists b, logRecord_from first buf ctx = Logged b).
Proof.
  induction n as [|n IH]; intros ctx first buf Hn.
  - destruct ctx; [|cbn in Hn; lia]. split; [discriminate|]. intros _. eexists. reflexivity.
  - destruct ctx as [|k [|v rest]].
    + split; [discriminate|]. intros _. eexists. reflexivity.
    + split; [|discriminate]. intros _. eexists. reflexivity.
    + cbn [logRecord_from].
      change (Nat.odd (length (k :: v :: rest))) with (Nat.odd (length rest)).
      apply IH. cbn in Hn. lia.
Qed.

Lemma newlines_append (a b : string) :
  newlines (a +:+ b) = (newlines a + newlines b)%nat.
Proof.
  induction a as [|c a IH]; step_append; [reflexivity|].
  cbn [newlines]. rewrite IH. lia.
Qed.

Lemma unbroken_newlines (s : string) : unbroken s = true -> newlines s = 0%nat.
Proof.
  unfold unbroken. induction s as [|c s IH]; [reflexivity|].
  cbn [all_bytes newlines]. intros [Hc Hs]%andb_true_iff.
  apply negb_true_iff in Hc. rewrite !orb_false_iff in Hc.
  destruct Hc as [[-> _] _]. rewrite (IH Hs). reflexivity.
Qed.

Lemma no_lf_newlines (s : string) :
  all_bytes (fun n => negb (n =? 10)%N) s = true -> newlines s = 0%nat.
Proof.
  induction s as [|c s IH]; [reflexivity|].
  cbn [all_bytes newlines]. intros [Hc Hs]%andb_true_iff.
  apply negb_true_iff in Hc. rewrite Hc, (IH Hs). reflexivity.
Qed.

(** A context of one-line pairs is written as one line. *)
Lemma logRecord_from_one_line (ctx : list GoValue) :
  forall (first : bool) (buf : string),
    one_line_pairs ctx = true ->
    exists line,
      logRecord_from first buf ctx = Logged (buf +:+ line +:+ String "010"%char EmptyString)
      /\ newlines line = 0%nat.
Proof.
  induction ctx as [ctx IH] using (induction_ltof1 _ (@length GoValue)).
  unfold ltof in IH. intros first buf Hp.
  destruct ctx as [|k [|v rest]].
  - exists EmptyString. split; reflexivity.
  - destruct k; discriminate Hp.
  - destruct k; try discriminate Hp. cbn [one_line_pairs] in Hp.
    apply andb_true_iff in Hp as [Hkv Hrest]. apply andb_true_iff in Hkv as [Hk Hv].
    apply Nat.eqb_eq in Hk, Hv.
    cbn [logRecord_from fst snd].
    destruct (IH rest ltac:(cbn; lia) false
                ((if first then buf else buf +:+ " ") +:+ s +:+ "=" +:+ logValue v) Hrest)
      as (line & Hrun & Hline).
    exists ((if first then EmptyString else " ") +:+ s +:+ "=" +:+ logValue v +:+ line).
    split.
    + rewrite Hrun. f_equal. destruct first; rewrite ?append_assoc; cbn;
        rewrite ?append_assoc; reflexivity.
    + rewrite !newlines_append, Hk, Hv, Hline. destruct first; reflexivity.
Qed.

Lemma string_pairs_one_line (ctx : list GoValue) :
  string_pairs ctx = true -> one_line_pairs ctx = true.
Proof.
  induction ctx as [ctx IH] using (induction_ltof1 _ (@length GoValue)).
  unfold ltof in IH.
  destruct ctx as [|k [|v rest]]; [reflexivity | destruct k; discriminate |].
  destruct k; try discriminate. destruct v; try discriminate.
  cbn [string_pairs one_line_pairs]. intros [Hk Hrest]%andb_true_iff.
  rewrite (no_lf_newlines _ Hk), (IH rest ltac:(cbn; lia) Hrest).
  cbn [logValue]. rewrite (unbroken_newlines _ (EscapeFacts.unbroken_escapeString _)).
  reflexivity.
Qed.

(** The line of [DaemonFormat] after what [logLevel] wrote. *)
Lemma DaemonFormat_line (r : Log.log15_Record) :
  Log.newlines (Log.KeyNames_Time r) = 0%nat ->
  Log.newlines (Log.KeyNames_Lvl r) = 0%nat ->
  Log.newlines (Log.KeyNames_Msg r) = 0%nat ->
  Log.newlines (Log.rec_Time r) = 0%nat ->
  one_line_pairs (Log.rec_Ctx r) = true ->
  exists line,
    Log.DaemonFormat r =
      Log.Logged (Log.logLevel EmptyString (Log.rec_Lvl r) +:+ line
                    +:+ String "010"%char EmptyString)
    /\ Log.newlines line = 0%nat.
Proof.
  intros Ht Hl Hm Htime Hctx. unfold Log.DaemonFormat, Log.logRecord.
  apply logRecord_from_one_line.
  cbn [app one_line_pairs Log.logValue].
  rewrite Ht, Hl, Hm, Htime, Hctx.
  rewrite (unbroken_newlines _ (EscapeFacts.unbroken_escapeString _)).
  destruct (Log.rec_Lvl r); reflexivity.
Qed.

End RecordFacts.

(** X15. [logRecord] panics exactly on a context with an odd number of
    elements (the value of the last key is read out of range); on an even
    number it returns. *)
Theorem logRecord_panics_iff_odd (buf : string) (ctx : list Log.GoValue) :
  (exists b, Log.logRecord buf ctx = Log.LogPanic b) <-> Nat.odd (length ctx) = true.
Proof.
  destruct (RecordFacts.logRecord_from_parity (length ctx) ctx true buf (Nat.le_refl _))
    as [Hodd Heven].
  unfold Log.logRecord. split; [|exact Hodd].
  intros [b Hb]. destruct (Nat.odd (length ctx)); [reflexivity|].
  destruct (Heven eq_refl) as [b' Hb']. congruence.
Qed.

(** X16. Under a key that is not a string, [logRecord] writes the field
    [ERROR=] with an empty value: neither the key nor its value reaches the
    log, so two such pairs are logged alike. *)
Theorem logRecord_non_string_key (buf : string) (k v k' v' : Log.GoValue)
    (rest : list Log.GoValue) :
  Log.is_string k = false ->
  Log.is_string k' = false ->
  Log.logRecord buf (k :: v :: rest) = Log.logRecord buf (k' :: v' :: rest)
  /\ Log.logRecord buf [k; v] = Log.Logged (buf +:+ "ERROR=" +:+ String "010"%char EmptyString).
Proof.
  intros Hk Hk'. unfold Log.logRecord. cbn [Log.logRecord_from].
  destruct k; try discriminate Hk; destruct k'; try discriminate Hk';
    cbn [fst snd]; (split; [reflexivity|]);
    change (Log.logValue (Log.VString EmptyString)) with EmptyString;
    rewrite !LogFacts.append_assoc; reflexivity.
Qed.

Lemma logRecord_non_string_key_witness :
  Log.logRecord "<6>" [Log.VInt 7; Log.VString "lost"]
  = Log.Logged ("<6>ERROR=" +:+ String "010"%char EmptyString).
Proof.
  apply (logRecord_non_string_key "<6>" (Log.VInt 7) (Log.VString "lost")
           Log.VNil Log.VNil []); reflexivity.
Defined.

(** X17. A context of newline-free string keys and string values is
    written by [logRecord] as exactly one line: the only line feed of the
    output is the one that ends it. *)
Theorem logRecord_one_line (buf : string) (ctx : list Log.GoValue) :
  Log.string_pairs ctx = true ->
  Log.newlines buf = 0%nat ->
  exists line,
    Log.logRecord buf ctx = Log.Logged (line +:+ String "010"%char EmptyString)
    /\ Log.newlines line = 0%nat.
Proof.
  intros Hp Hbuf.
  destruct (RecordFacts.logRecord_from_one_line ctx true buf
              (RecordFacts.string_pairs_one_line ctx Hp)) as (line & Hrun & Hline).
  exists (buf +:+ line). unfold Log.logRecord. rewrite Hrun.
  split; [rewrite LogFacts.append_assoc; reflexivity|].
  rewrite RecordFacts.newlines_append, Hbuf, Hline. reflexivity.
Qed.

Lemma logRecord_one_line_witness :
  exists line,
    Log.logRecord "<6>"
      [Log.VString "msg"; Log.VString ("two" +:+ String "010"%char "lines")]
    = Log.Logged (line +:+ String "010"%char EmptyString)
    /\ Log.newlines line = 0%nat.
Proof.
  apply (logRecord_one_line "<6>"
           [Log.VString "msg"; Log.VString ("two" +:+ String "010"%char "lines")]);
    reflexivity.
Defined.

(** X18. [DaemonFormat] renders a record whose key names and time are
    newline-free and whose context consists of one-line pairs as exactly
    one line, which starts with the priority prefix of sd-daemon(3) for
    the record's level: [<2>] for critical, [<3>] for error, [<4>] for
    warning, [<6>] for info and [<7>] for debug. *)
Theorem DaemonFormat_one_line (r : Log.log15_Record) :
  Log.newlines (Log.KeyNames_Time r) = 0%nat ->
  Log.newlines (Log.KeyNames_Lvl r) = 0%nat ->
  Log.newlines (Log.KeyNames_Msg r) = 0%nat ->
  Log.newlines (Log.rec_Time r) = 0%nat ->
  one_line_pairs (Log.rec_Ctx r) = true ->
  exists line,
    Log.DaemonFormat r =
      Log.Logged ("<" +:+ severity (Log.rec_Lvl r) +:+ ">" +:+ line
                    +:+ String "010"%char EmptyString)
    /\ Log.newlines line = 0%nat.
Proof.
  intros Ht Hl Hm Htime Hctx.
  destruct (RecordFacts.DaemonFormat_line r Ht Hl Hm Htime Hctx) as (line & Heq & Hline).
  exists line. split; [|exact Hline].
  rewrite Heq. destruct (Log.rec_Lvl r); reflexivity.
Qed.

Lemma DaemonFormat_one_line_witness :
  exists line,
    Log.DaemonFormat
      {| Log.KeyNames_Time := "t"; Log.KeyNames_Msg := "msg"; Log.KeyNames_Lvl := "lvl";
         Log.rec_Time := "2015-01-01T00:00:00+0000"; Log.rec_Lvl := LvlCrit;
         Log.rec_Msg := "error serving";
         Log.rec_Ctx := [Log.VString "err"; Log.VError "listen: address in use"] |}
    = Log.Logged ("<2>" +:+ line +:+ String "010"%char EmptyString)
    /\ Log.newlines line = 0%nat.
Proof.
  apply (DaemonFormat_one_line
           {| Log.KeyNames_Time := "t"; Log.KeyNames_Msg := "msg";
              Log.KeyNames_Lvl := "lvl";
              Log.rec_Time := "2015-01-01T00:00:00+0000"; Log.rec_Lvl := LvlCrit;
              Log.rec_Msg := "error serving";
              Log.rec_Ctx := [Log.VString "err"; Log.VError "listen: address in use"] |});
    reflexivity.
Defined.

(** ** package payment: status and balance *)

Module PaymentFacts.

Import Payment.

Lemma Dec_Add_max (x y : Dec) :
  Dec_Add x y =
    {| dec_unscaled :=
         dec_unscaled x * 10 ^ (Z.max (dec_scale x) (dec_scale y) - dec_scale x)
         + dec_unscaled y * 10 ^ (Z.max (dec_scale x) (dec_scale y) - dec_scale y);
       dec_scale := Z.max (dec_scale x) (dec_scale y) |}.
Proof.
  unfold Dec_Add.
  destruct (Z.eqb_spec (dec_scale x) (dec_scale y)) as [E|Hne].
  - rewrite E, Z.max_id, Z.sub_diag. cbn [Z.pow]. rewrite !Z.mul_1_r. reflexivity.
  - destruct (Z.ltb_spec (dec_scale y) (dec_scale x)) as [Hlt|Hge].
    + rewrite Z.max_l by lia. rewrite Z.sub_diag. cbn [Z.pow].
      rewrite Z.mul_1_r. reflexivity.
    + rewrite Z.max_r by lia. rewrite Z.sub_diag. cbn [Z.pow].
      rewrite Z.mul_1_r. reflexivity.
Qed.

Lemma max_scale_ge (l : list PaymentTransaction) (s : Z) : s <= max_scale s l.
Proof.
  unfold max_scale. revert s. induction l as [|tx l IH]; intros s; cbn [fold_left]; [lia|].
  specialize (IH (Z.max s (Subunits tx))). lia.
Qed.

Lemma max_scale_bounds (l : list PaymentTransaction) (s : Z) (tx : PaymentTransaction) :
  In tx l -> Subunits tx <= max_scale s l.
Proof.
  unfold max_scale. revert s. induction l as [|tx' l IH]; intros s; [contradiction|].
  cbn [fold_left]. intros [<-|Hin].
  - pose proof (max_scale_ge l (Z.max s (Subunits tx'))) as H. unfold max_scale in H. lia.
  - apply IH, Hin.
Qed.

Lemma sum_at_scale_shift (l : list PaymentTransaction) (S S' : Z) :
  (forall tx, In tx l -> Subunits tx <= S) -> S <= S' ->
  sum_at_scale S' l = sum_at_scale S l * 10 ^ (S' - S).
Proof.
  intros Hl HS. induction l as [|tx l IH]; [reflexivity|].
  cbn [sum_at_scale]. rewrite IH by (intros tx' H; apply Hl; right; exact H).
  assert (Htx : Subunits tx <= S) by (apply Hl; left; reflexivity).
  replace (S' - Subunits tx) with ((S - Subunits tx) + (S' - S)) by lia.
  rewrite Z.pow_add_r by lia. ring.
Qed.

(** The entry after more transactions: the scale is the greatest one, the
    unscaled value the sum of all amounts brought to that scale. *)
Lemma accumulate_sum (l : list PaymentTransaction) (d : Dec) :
  accumulate (Some d) l =
    Some {| dec_unscaled :=
              dec_unscaled d * 10 ^ (max_scale (dec_scale d) l - dec_scale d)
              + sum_at_scale (max_scale (dec_scale d) l) l;
            dec_scale := max_scale (dec_scale d) l |}.
Proof.
  unfold accumulate. revert d. induction l as [|tx l IH]; intros d.
  - cbn [fold_left max_scale sum_at_scale]. rewrite Z.sub_diag. cbn [Z.pow].
    rewrite Z.mul_1_r, Z.add_0_r. destruct d; reflexivity.
  - cbn [fold_left]. rewrite IH, Dec_Add_max. cbn [dec_scale dec_unscaled Decimal SetScale NewDecInt64].
    change (max_scale (dec_scale d) (tx :: l))
      with (max_scale (Z.max (dec_scale d) (Subunits tx)) l).
    set (M := Z.max (dec_scale d) (Subunits tx)).
    set (S := max_scale M l).
    assert (HM : M <= S) by apply max_scale_ge.
    f_equal. f_equal. cbn [sum_at_scale].
    replace (S - dec_scale d) with ((M - dec_scale d) + (S - M)) by lia.
    replace (S - Subunits tx) with ((M - Subunits tx) + (S - M)) by lia.
    rewrite !Z.pow_add_r by lia. ring.
Qed.

(** The entry of the balance under [c] depends on the entry before and on
    the transactions in [c] only. *)
Lemma fold_Balance_step_lookup (c : string) (p : list PaymentTransaction)
    (b : gmap string Dec) :
  fold_left Balance_step p b !! c = accumulate (b !! c) (in_currency c p).
Proof.
  unfold accumulate, in_currency. revert b.
  induction p as [|tx p IH]; intros b; [reflexivity|].
  cbn [fold_left List.filter]. rewrite IH. unfold Balance_step.
  destruct (String.eqb_spec (Currency tx) c) as [->|Hne].
  - cbn [fold_left]. destruct (b !! c); rewrite lookup_insert_eq; reflexivity.
  - destruct (b !! Currency tx); rewrite lookup_insert_ne by exact Hne; reflexivity.
Qed.

Lemma accumulate_Some (l : list PaymentTransaction) (d : Dec) :
  accumulate (Some d) l <> None.
Proof. rewrite accumulate_sum. discriminate. Qed.

Lemma in_currency_idem (c : string) (p : list PaymentTransaction) :
  in_currency c (in_currency c p) = in_currency c p.
Proof.
  unfold in_currency. induction p as [|tx p IH]; [reflexivity|].
  cbn [List.filter]. destruct (String.eqb (Currency tx) c) eqn:E; [|exact IH].
  cbn [List.filter]. rewrite E, IH. reflexivity.
Qed.

End PaymentFacts.

(** A status written with [Value] and read back with [Scan] is the
    same status, without error, whatever the receiver held before. *)
Theorem Scan_Value_roundtrip (s before : string) :
  snd (Payment.Value s) = None
  /\ Payment.Scan before (fst (Payment.Value s)) = (None, s).
Proof. split; reflexivity. Qed.

(** X19. [Scan] fails exactly on a source that is neither bytes, nil nor
    a string, and then leaves the status untouched; a database NULL becomes
    the valid status [uninitialized], and after a successful [Scan] the
    status is invalid only if the source was the empty string or empty
    bytes. *)
Theorem Scan_outcomes (before : string) (v : Payment.SqlValue) :
  (fst (Payment.Scan before v) <> None <-> exists t, v = Payment.SqlOther t)
  /\ (fst (Payment.Scan before v) <> None -> snd (Payment.Scan before v) = before)
  /\ (v = Payment.SqlNil ->
      Payment.Scan before v = (None, Payment.PaymentStatusNone)
      /\ Payment.Valid (snd (Payment.Scan before v)) = true)
  /\ (fst (Payment.Scan before v) = None ->
      (Payment.Valid (snd (Payment.Scan before v)) = false <->
       v = Payment.SqlBytes "" \/ v = Payment.SqlString "")).
Proof.
  split; [|split; [|split]].
  - destruct v as [src| |str|t]; cbn; split; try congruence;
      try (intros [t' [=]]). intros _. exists t. reflexivity.
  - destruct v; cbn; congruence.
  - intros ->. split; reflexivity.
  - destruct v as [src| |str|t]; cbn; intros Hok.
    + destruct src as [|c src]; cbn; split; intros H;
        try discriminate H; try reflexivity; try (left; reflexivity);
        destruct H as [H|H]; discriminate H.
    + split; intros H; [discriminate H | destruct H as [H|H]; discriminate H].
    + destruct str as [|c str]; cbn; split; intros H;
        try discriminate H; try reflexivity; try (right; reflexivity);
        destruct H as [H|H]; discriminate H.
    + congruence.
Qed.

(** X20. The balance of a currency depends on the transactions in that
    currency alone: it equals the balance of the list restricted to the
    currency, and the currency is absent from the balance exactly when the
    list has no transaction in it. *)
Theorem Balance_by_currency (p : list Payment.PaymentTransaction) (c : string) :
  Payment.Balance p !! c = Payment.Balance (Payment.in_currency c p) !! c
  /\ (Payment.Balance p !! c = None <-> Payment.in_currency c p = []).
Proof.
  unfold Payment.Balance.
  rewrite !PaymentFacts.fold_Balance_step_lookup, PaymentFacts.in_currency_idem.
  split; [reflexivity|]. rewrite lookup_empty.
  destruct (Payment.in_currency c p) as [|tx l]; [split; reflexivity|].
  split; [|discriminate]. intros H. exfalso.
  exact (PaymentFacts.accumulate_Some l (Payment.Decimal tx) H).
Qed.

(** X21. For a currency with at least one transaction, the balance has
    the greatest subunit count of these transactions as its scale, and its
    unscaled value is the sum of their amounts, each multiplied by ten to
    the power of the scale minus its own subunits. *)
Theorem Balance_sum (p : list Payment.PaymentTransaction) (c : string)
    (tx : Payment.PaymentTransaction) (rest : list Payment.PaymentTransaction) :
  Payment.in_currency c p = tx :: rest ->
  Payment.Balance p !! c =
    Some {| Payment.dec_unscaled :=
              Payment.sum_at_scale (Payment.max_scale (Payment.Subunits tx) rest)
                (tx :: rest);
            Payment.dec_scale := Payment.max_scale (Payment.Subunits tx) rest |}.
Proof.
  intros Hc. unfold Payment.Balance.
  rewrite PaymentFacts.fold_Balance_step_lookup, Hc, lookup_empty.
  change (accumulate None (tx :: rest)) with (accumulate (Some (Payment.Decimal tx)) rest).
  rewrite PaymentFacts.accumulate_sum. reflexivity.
Qed.

Lemma Balance_sum_witness :
  Payment.Balance ledger !! "EUR"
  = Some {| Payment.dec_unscaled := 1200; Payment.dec_scale := 2 |}.
Proof.
  rewrite (Balance_sum ledger "EUR" _ _ eq_refl). reflexivity.
Defined.

(** ** More on the transaction of [InitPayment] *)

Section TxFacts.

Import FritzPay.

Lemma tx_count_app (P : TxEvent -> bool) (l1 l2 : list TxEvent) :
  tx_count P (l1 ++ l2) = (tx_count P l1 + tx_count P l2)%nat.
Proof.
  unfold tx_count. induction l1 as [|e l1 IH]; [reflexivity|].
  cbn [app List.filter]. destruct (P e); cbn [length]; rewrite IH; reflexivity.
Qed.

(** What one pass emits and how it ends. *)
Lemma pass_events (methodKey : string) (d : Answers) (evs : list TxEvent) (fl : Flow) :
  pass methodKey d = (evs, fl) ->
  tx_count is_TxBegin evs = 1%nat
  /\ tx_count is_TxRollback evs = 0%nat
  /\ match fl with
     | Goto_beginTx => tx_count is_tx_fault evs = 0%nat
     | Return None tx_open commit =>
         tx_open = true /\ commit = true
         /\ tx_count is_tx_fault evs = 0%nat
         /\ exists pre, evs = pre ++ [TxCommit]
     | Return (Some ErrConflict) tx_open commit =>
         tx_open = true /\ commit = false
         /\ snd (ans_PaymentByPaymentIDTx d) = None
         /\ fst (ans_PaymentByPaymentIDTx d) <> methodKey
     | Return (Some _) _ _ => True
     end.
Proof.
  intros Hpass. unfold pass in Hpass; cbv zeta in Hpass.
  destruct d as [b [k ke] i [st se] s c r]; cbn in Hpass |- *.
  repeat (match type of Hpass with
          | context [negb (String.eqb ?a ?b)] => destruct (String.eqb_spec a b)
          | context [match ?x with _ => _ end] => destruct x
          end; cbn in Hpass);
    injection Hpass as <- <-; cbn;
    repeat split; try reflexivity; try discriminate; try assumption;
    try (eexists; reflexivity);
    try (eexists [_; _; _]; reflexivity);
    try (eexists [_; _; _; _]; reflexivity);
    try (eexists [_; _; _; _; _]; reflexivity).
Qed.

Lemma deferred_events (tx_open commit : bool) (d : Answers) :
  tx_count is_TxBegin (deferred tx_open commit d) = 0%nat
  /\ tx_count is_TxRollback (deferred tx_open commit d)
     = (if tx_open && negb commit then 1 else 0)%nat
  /\ (tx_open && negb commit = false -> deferred tx_open commit d = []).
Proof.
  unfold deferred. destruct (tx_open && negb commit); [|repeat split].
  destruct (ans_Rollback d); repeat split; discriminate.
Qed.

Lemma tx_count_cons (P : TxEvent -> bool) (e : TxEvent) (l : list TxEvent) :
  tx_count P (e :: l) = ((if P e then 1 else 0) + tx_count P l)%nat.
Proof. unfold tx_count. cbn [List.filter]. destruct (P e); reflexivity. Qed.

Lemma beginTx_tx (maxRetries : Z) (methodKey : string) (db : Z -> Answers)
    (tx_open : bool) (retries : Z) :
  (tx_count is_TxBegin (fst (beginTx maxRetries methodKey db tx_open retries))
     <= Z.to_nat (maxRetries - retries))%nat
  /\ (tx_count is_TxRollback (fst (beginTx maxRetries methodKey db tx_open retries)) <= 1)%nat
  /\ (snd (beginTx maxRetries methodKey db tx_open retries) = None ->
      tx_count is_TxRollback (fst (beginTx maxRetries methodKey db tx_open retries)) = 0%nat
      /\ tx_count is_tx_fault (fst (beginTx maxRetries methodKey db tx_open retries)) = 0%nat
      /\ tx_count is_TxBegin (fst (beginTx maxRetries methodKey db tx_open retries))
         = length (labels (fst (beginTx maxRetries methodKey db tx_open retries)))
      /\ exists pre,
           fst (beginTx maxRetries methodKey db tx_open retries) = pre ++ [TxCommit])
  /\ (snd (beginTx maxRetries methodKey db tx_open retries) = Some ErrConflict ->
      tx_count is_TxRollback (fst (beginTx maxRetries methodKey db tx_open retries)) = 1%nat
      /\ exists i : Z,
           retries <= i < maxRetries
           /\ snd (ans_PaymentByPaymentIDTx (db i)) = None
           /\ fst (ans_PaymentByPaymentIDTx (db i)) <> methodKey).
Proof.
  funelim (beginTx maxRetries methodKey db tx_open retries); cbn [fst snd].
  - (* the guard: too many retries *)
    unfold deferred. rewrite andb_false_r. cbn.
    repeat split; try lia; discriminate.
  - (* goto beginTx *)
    match goal with
    | Hp : pass _ _ = (_, Goto_beginTx) |- _ =>
        pose proof (labels_pass methodKey (db retries)) as Hevs;
        rewrite Hp in Hevs; cbn [fst] in Hevs;
        destruct (pass_events _ _ _ _ Hp) as (Hb & Hr & Hf)
    end.
    match goal with
    | IH : (_ <= _)%nat /\ _ |- _ => destruct IH as (IHb & IHr & IHn & IHc)
    end.
    rewrite !tx_count_cons, !tx_count_app, Hb, Hr. cbn [is_TxBegin is_TxRollback].
    split; [|split; [|split]].
    + replace (maxRetries - retries) with (Z.succ (maxRetries - (retries + 1))) by lia.
      rewrite Z2Nat.inj_succ by lia. lia.
    + lia.
    + intros Hnone. destruct (IHn Hnone) as (H0 & Hf0 & Hlen & pre & Hpre).
      rewrite Hf, Hf0, H0.
      cbn [labels]. rewrite labels_app, Hevs. cbn [app length is_tx_fault].
      repeat split; try lia.
      match goal with
      | Hp : pass _ _ = (?evs, Goto_beginTx) |- _ => exists (TxLabel retries :: evs ++ pre)
      end.
      rewrite Hpre, <- app_comm_cons, <- app_assoc. reflexivity.
    + intros Hc. destruct (IHc Hc) as (H1 & i & Hi & Hnil & Hkey).
      split; [lia|]. exists i. repeat split; try lia; assumption.
  - (* return *)
    match goal with
    | Hp : pass _ _ = (_, Return _ _ _) |- _ =>
        pose proof (labels_pass methodKey (db retries)) as Hevs;
        rewrite Hp in Hevs; cbn [fst] in Hevs;
        destruct (pass_events _ _ _ _ Hp) as (Hb & Hr & Hf)
    end.
    destruct (deferred_events tx_open' commit (db retries)) as (Db & Dr & D0).
    rewrite !tx_count_cons, !tx_count_app, Hb, Hr, Db, Dr.
    cbn [is_TxBegin is_TxRollback].
    split; [|split; [|split]].
    + assert (0 < Z.to_nat (maxRetries - retries))%nat by lia. lia.
    + destruct (tx_open' && negb commit); lia.
    + intros ->. destruct Hf as (-> & -> & Hf & pre & ->).
      rewrite D0 by reflexivity. rewrite app_nil_r.
      cbn [labels]. rewrite Hevs. cbn.
      split; [reflexivity|]. split; [lia|]. split; [reflexivity|].
      exists (TxLabel retries :: pre). reflexivity.
    + intros ->. destruct Hf as (-> & -> & Hnil & Hkey).
      split; [reflexivity|]. exists retries. repeat split; try lia; assumption.
Qed.

Lemma beginTx_guard (maxRetries : Z) (methodKey : string) (db : Z -> Answers)
    (tx_open : bool) (retries : Z) :
  retries >= maxRetries ->
  beginTx maxRetries methodKey db tx_open retries
  = ([TxLabel retries; TxLog LvlCrit "too many retries on tx. aborting..."], Some ErrDB).
Proof.
  intros Hge.
  funelim (beginTx maxRetries methodKey db tx_open retries); try contradiction.
  unfold deferred. rewrite andb_false_r. reflexivity.
Qed.

Lemma tx_count_debugLog (P : TxEvent -> bool) (Debug : bool) :
  (forall lvl msg, P (TxLog lvl msg) = false) ->
  tx_count P (debugLog Debug) = 0%nat.
Proof.
  intros HP. destruct Debug; [|reflexivity].
  unfold debugLog. rewrite tx_count_cons, HP. reflexivity.
Qed.

End TxFacts.

(** X22. With [TransactionMaxRetries] at zero or below, [InitPayment] for
    an enabled method returns [ErrDB] without a single call to the
    database: not even a first attempt is made. *)
Theorem InitPayment_no_attempt_without_retries (Debug : bool) (maxRetries methodID : Z)
    (methodKey : string) (db : Z -> FritzPay.Answers) :
  maxRetries <= 0 ->
  snd (FritzPay.InitPayment Debug maxRetries methodID false methodKey db)
    = Some FritzPay.ErrDB
  /\ tx_count is_db_call
       (fst (FritzPay.InitPayment Debug maxRetries methodID false methodKey db)) = 0%nat.
Proof.
  intros Hmax. unfold FritzPay.InitPayment.
  rewrite beginTx_guard by lia. cbn [fst snd].
  split; [reflexivity|].
  rewrite tx_count_app, tx_count_debugLog by reflexivity. reflexivity.
Qed.

Lemma InitPayment_no_attempt_without_retries_witness :
  snd (FritzPay.InitPayment true 0 7 false "fritzpay_demo" (fun _ => healthy))
    = Some FritzPay.ErrDB
  /\ tx_count is_db_call
       (fst (FritzPay.InitPayment true 0 7 false "fritzpay_demo" (fun _ => healthy))) = 0%nat.
Proof.
  apply (InitPayment_no_attempt_without_retries true 0 7 "fritzpay_demo" (fun _ => healthy)).
  lia.
Defined.

(** X23. [InitPayment] begins at most [TransactionMaxRetries]
    transactions and rolls back at most one of them, whatever the database
    answers. *)
Theorem InitPayment_transactions_bounded (Debug : bool) (maxRetries methodID : Z)
    (methodDisabled : bool) (methodKey : string) (db : Z -> FritzPay.Answers) :
  (tx_count is_TxBegin
     (fst (FritzPay.InitPayment Debug maxRetries methodID methodDisabled methodKey db))
   <= Z.to_nat maxRetries)%nat
  /\ (tx_count is_TxRollback
        (fst (FritzPay.InitPayment Debug maxRetries methodID methodDisabled methodKey db))
      <= 1)%nat.
Proof.
  unfold FritzPay.InitPayment.
  destruct methodDisabled; cbn [fst snd];
    rewrite !tx_count_app, !tx_count_debugLog by reflexivity.
  - cbn. lia.
  - destruct (beginTx_tx maxRetries methodKey db false 0) as (Hb & Hr & _).
    rewrite Z.sub_0_r in Hb. cbn [Nat.add]. split; assumption.
Qed.

(** X24. When [InitPayment] returns no error, the last thing it did to the
    database was a [Commit]; it rolled nothing back, logged nothing at
    error or critical level, and began one transaction each time control
    reached the label [beginTx]. *)
Theorem InitPayment_success_commits (Debug : bool) (maxRetries methodID : Z)
    (methodDisabled : bool) (methodKey : string) (db : Z -> FritzPay.Answers) :
  snd (FritzPay.InitPayment Debug maxRetries methodID methodDisabled methodKey db) = None ->
  (exists pre,
     fst (FritzPay.InitPayment Debug maxRetries methodID methodDisabled methodKey db)
     = pre ++ [FritzPay.TxCommit])
  /\ tx_count is_TxRollback
       (fst (FritzPay.InitPayment Debug maxRetries methodID methodDisabled methodKey db))
     = 0%nat
  /\ tx_count is_tx_fault
       (fst (FritzPay.InitPayment Debug maxRetries methodID methodDisabled methodKey db))
     = 0%nat
  /\ tx_count is_TxBegin
       (fst (FritzPay.InitPayment Debug maxRetries methodID methodDisabled methodKey db))
     = length (FritzPay.labels
                 (fst (FritzPay.InitPayment Debug maxRetries methodID methodDisabled
                         methodKey db))).
Proof.
  unfold FritzPay.InitPayment.
  destruct methodDisabled; cbn [fst snd]; [discriminate|].
  intros Hnone.
  destruct (beginTx_tx maxRetries methodKey db false 0) as (_ & _ & Hn & _).
  destruct (Hn Hnone) as (Hr & Hf & Hb & pre & Hpre).
  assert (Hdbg : FritzPay.labels (FritzPay.debugLog Debug) = [])
    by (destruct Debug; reflexivity).
  assert (Hcnt : forall P, (forall msg, P (FritzPay.TxLog LvlDebug msg) = false) ->
                           tx_count P (FritzPay.debugLog Debug) = 0%nat).
  { intros P HP. destruct Debug; [|reflexivity].
    unfold FritzPay.debugLog. rewrite tx_count_cons, HP. reflexivity. }
  rewrite labels_app, !tx_count_app, !Hcnt, Hdbg by reflexivity. cbn [Nat.add app].
  split; [|split; [|split]]; try assumption.
  exists (FritzPay.debugLog Debug ++ pre). rewrite Hpre, app_assoc. reflexivity.
Qed.

Lemma InitPayment_success_commits_witness :
  (exists pre,
     fst (FritzPay.InitPayment true 3 7 false "fritzpay_demo"
            (fun i => if Z.eqb i 0 then Demo.deadlocked else healthy))
     = pre ++ [FritzPay.TxCommit])
  /\ tx_count is_TxRollback
       (fst (FritzPay.InitPayment true 3 7 false "fritzpay_demo"
               (fun i => if Z.eqb i 0 then Demo.deadlocked else healthy)))
     = 0%nat
  /\ tx_count is_tx_fault
       (fst (FritzPay.InitPayment true 3 7 false "fritzpay_demo"
               (fun i => if Z.eqb i 0 then Demo.deadlocked else healthy)))
     = 0%nat
  /\ tx_count is_TxBegin
       (fst (FritzPay.InitPayment true 3 7 false "fritzpay_demo"
               (fun i => if Z.eqb i 0 then Demo.deadlocked else healthy)))
     = length (FritzPay.labels
                 (fst (FritzPay.InitPayment true 3 7 false "fritzpay_demo"
                         (fun i => if Z.eqb i 0 then Demo.deadlocked else healthy)))).
Proof.
  apply (InitPayment_success_commits true 3 7 false "fritzpay_demo"
           (fun i => if Z.eqb i 0 then Demo.deadlocked else healthy)).
  vm_compute. reflexivity.
Defined.

(** X25. [InitPayment] returns [ErrConflict] only when, in some pass, the
    payment was found registered under a method key other than the
    requested one; the transaction of that pass is rolled back, and it is
    the only rollback. *)
Theorem InitPayment_conflict_rolls_back (Debug : bool) (maxRetries methodID : Z)
    (methodDisabled : bool) (methodKey : string) (db : Z -> FritzPay.Answers) :
  snd (FritzPay.InitPayment Debug maxRetries methodID methodDisabled methodKey db)
    = Some FritzPay.ErrConflict ->
  tx_count is_TxRollback
    (fst (FritzPay.InitPayment Debug maxRetries methodID methodDisabled methodKey db))
  = 1%nat
  /\ exists i : Z,
       0 <= i < maxRetries
       /\ snd (FritzPay.ans_PaymentByPaymentIDTx (db i)) = None
       /\ fst (FritzPay.ans_PaymentByPaymentIDTx (db i)) <> methodKey.
Proof.
  unfold FritzPay.InitPayment.
  destruct methodDisabled; cbn [fst snd]; [discriminate|].
  intros Hc.
  destruct (beginTx_tx maxRetries methodKey db false 0) as (_ & _ & _ & Hconf).
  destruct (Hconf Hc) as (Hr & i & Hi & Hnil & Hkey).
  rewrite tx_count_app, tx_count_debugLog by reflexivity.
  split; [exact Hr|]. exists i. repeat split; try lia; assumption.
Qed.

Lemma InitPayment_conflict_rolls_back_witness :
  tx_count is_TxRollback
    (fst (FritzPay.InitPayment true 3 7 false "fritzpay_demo" (fun _ => conflicting)))
  = 1%nat
  /\ exists i : Z,
       0 <= i < 3
       /\ snd (FritzPay.ans_PaymentByPaymentIDTx conflicting) = None
       /\ fst (FritzPay.ans_PaymentByPaymentIDTx conflicting) <> "fritzpay_demo".
Proof.
  apply (InitPayment_conflict_rolls_back true 3 7 false "fritzpay_demo"
           (fun _ => conflicting)).
  vm_compute. reflexivity.
Defined.

(** ** The start of the daemon: configuration file and databases *)

Module MainFacts.

Import Main.

Lemma loadConfig_name_empty (os : OS) (flag : string) :
  configName os flag = "" ->
  loadConfig os flag
  = ((if String.eqb flag "" then [MGetenv envVarConfigFileName] else [])
       ++ [MLog LvlInfo "no config file provided. trying default config..."],
     Returns "" false).
Proof.
  unfold configName, loadConfig.
  destruct (String.eqb_spec flag "") as [->|Hflag].
  - intros ->. reflexivity.
  - intros ->. contradiction.
Qed.

Lemma loadConfig_name_given (os : OS) (flag : string) :
  configName os flag <> "" ->
  loadConfig os flag
  = let name := configName os flag in
    let evs1 := preamble os flag ++ [MLog LvlInfo "opening config file..."; MOpen name] in
    match Open os name with
    | Some _ => exiting (evs1 ++ [MLog LvlCrit "could not open config file"])
    | None =>
        match ReadConfig os name with
        | Some _ =>
            exiting ((evs1 ++ [MReadConfig name])
                       ++ [MLog LvlCrit "error reading config file"])
        | None =>
            match Close os name with
            | Some _ =>
                exiting (((evs1 ++ [MReadConfig name]) ++ [MClose name])
                           ++ [MLog LvlCrit "error closing config file"])
            | None => ((evs1 ++ [MReadConfig name]) ++ [MClose name], Returns name true)
            end
        end
    end.
Proof.
  unfold configName, loadConfig, preamble.
  destruct (String.eqb_spec flag "") as [->|Hflag]; intros Hname.
  - change (String.eqb "" "") with true. cbn [andb negb].
    destruct (String.eqb_spec (Getenv os envVarConfigFileName) "") as [He|He];
      [contradiction|].
    cbn [negb]. destruct (String.eqb_spec (Getenv os envVarConfigFileName) "");
      [contradiction|]. reflexivity.
  - cbn [andb].
    destruct (String.eqb_spec flag ""); [contradiction|]. reflexivity.
Qed.

Lemma limited_app (sql_Open : string -> string -> option error) (d : Database)
    (l1 l2 : list MainEvent) :
  limited sql_Open d l1 -> limited sql_Open d l2 -> limited sql_Open d (l1 ++ l2).
Proof.
  intros H1 H2 type dsn Hin Hopen. rewrite !in_app_iff in *.
  destruct Hin as [Hin|Hin].
  - destruct (H1 type dsn Hin Hopen). auto.
  - destruct (H2 type dsn Hin Hopen). auto.
Qed.

Lemma limited_openLimited (sql_Open : string -> string -> option error) (d : Database)
    (c : DBConn) :
  limited sql_Open d (fst (openLimited sql_Open d c)).
Proof.
  unfold openLimited, limited. intros type dsn.
  destruct (sql_Open (conn_Type c) (conn_DSN c)) eqn:E; cbn.
  - intros [[= <- <-]|[]] Hopen. congruence.
  - intros [[= <- <-]|[[=]|[[=]|[]]]] _. auto.
Qed.

Lemma limited_openPair (sql_Open : string -> string -> option error) (d : Database)
    (write : DBConn) (readOnly : option DBConn) :
  limited sql_Open d (fst (openPair sql_Open d write readOnly)).
Proof.
  unfold openPair.
  pose proof (limited_openLimited sql_Open d write) as Hw.
  destruct (openLimited sql_Open d write) as [evs [err|]]; cbn [fst] in *; [exact Hw|].
  destruct readOnly as [ro|]; [|exact Hw].
  pose proof (limited_openLimited sql_Open d ro) as Hro.
  destruct (openLimited sql_Open d ro) as [evs' [err|]]; cbn [fst] in *;
    apply limited_app; assumption.
Qed.

Lemma limited_stored (sql_Open : string -> string -> option error) (d : Database)
    (e : MainEvent) :
  is_sql_open e = false -> limited sql_Open d [e].
Proof.
  intros He type dsn [->|[]]. discriminate.
Qed.

(** What opening a pair of handles returns. *)
Lemma openPair_ok (sql_Open : string -> string -> option error) (d : Database)
    (write : DBConn) (readOnly : option DBConn) :
  match snd (openPair sql_Open d write readOnly) with
  | Ok _ =>
      sql_Open (conn_Type write) (conn_DSN write) = None
      /\ match readOnly with
         | Some ro => sql_Open (conn_Type ro) (conn_DSN ro) = None
         | None => True
         end
  | Err _ =>
      sql_Open (conn_Type write) (conn_DSN write) <> None
      \/ match readOnly with
         | Some ro => sql_Open (conn_Type ro) (conn_DSN ro) <> None
         | None => False
         end
  end.
Proof.
  unfold openPair, openLimited.
  destruct (sql_Open (conn_Type write) (conn_DSN write)) eqn:Ew; cbn.
  - left. discriminate.
  - destruct readOnly as [ro|]; cbn; [|auto].
    destruct (sql_Open (conn_Type ro) (conn_DSN ro)) eqn:Er; cbn.
    + right. discriminate.
    + auto.
Qed.

End MainFacts.

(** X26. A file name given with the flag [-c] takes precedence: the
    environment is not consulted, and the only file [loadConfig] opens is
    the one named by the flag. *)
Theorem loadConfig_flag_precedence (os : Main.OS) (flag : string) :
  flag <> "" ->
  (forall name, ~ In (Main.MGetenv name) (fst (Main.loadConfig os flag)))
  /\ In (Main.MOpen flag) (fst (Main.loadConfig os flag))
  /\ (forall name, In (Main.MOpen name) (fst (Main.loadConfig os flag)) -> name = flag).
Proof.
  intros Hflag.
  assert (Hname : Main.configName os flag = flag).
  { unfold Main.configName. destruct (String.eqb_spec flag ""); [contradiction|reflexivity]. }
  rewrite MainFacts.loadConfig_name_given by (rewrite Hname; exact Hflag).
  cbv zeta. rewrite Hname. unfold Main.preamble, Main.exiting.
  destruct (String.eqb_spec flag ""); [contradiction|].
  destruct (Main.Open os flag), (Main.ReadConfig os flag), (Main.Close os flag);
    cbn; repeat split; try tauto;
    intros name Hin; intuition congruence.
Qed.

Lemma loadConfig_flag_precedence_witness :
  (forall name, ~ In (Main.MGetenv name) (fst (Main.loadConfig Main.plainOS "paymentd.json")))
  /\ In (Main.MOpen "paymentd.json") (fst (Main.loadConfig Main.plainOS "paymentd.json"))
  /\ (forall name,
        In (Main.MOpen name) (fst (Main.loadConfig Main.plainOS "paymentd.json")) ->
        name = "paymentd.json").
Proof.
  apply (loadConfig_flag_precedence Main.plainOS "paymentd.json"). discriminate.
Defined.

(** X27. [loadConfig] ends the process, always with code 1, exactly when a
    file name is set (by flag or environment) and opening, reading or
    closing that file fails; otherwise it returns with that name, and the
    configuration was read from a file exactly when the name is not
    empty. *)
Theorem loadConfig_exit_iff (os : Main.OS) (flag : string) :
  (forall code, snd (Main.loadConfig os flag) = Main.Exit code ->
     code = 1
     /\ Main.configName os flag <> ""
     /\ (Main.Open os (Main.configName os flag) <> None
         \/ Main.ReadConfig os (Main.configName os flag) <> None
         \/ Main.Close os (Main.configName os flag) <> None))
  /\ (forall name fromFile,
        snd (Main.loadConfig os flag) = Main.Returns name fromFile ->
        name = Main.configName os flag
        /\ fromFile = negb (String.eqb name "")
        /\ (name <> "" ->
            Main.Open os name = None /\ Main.ReadConfig os name = None
            /\ Main.Close os name = None)).
Proof.
  destruct (String.eqb_spec (Main.configName os flag) "") as [Hname|Hname].
  - rewrite (MainFacts.loadConfig_name_empty os flag Hname), Hname. cbn [snd].
    split; [discriminate|].
    intros name fromFile [= <- <-]. repeat split; contradiction.
  - rewrite (MainFacts.loadConfig_name_given os flag Hname). cbv zeta.
    unfold Main.exiting.
    destruct (Main.Open os (Main.configName os flag)) eqn:Eo;
      [|destruct (Main.ReadConfig os (Main.configName os flag)) eqn:Er;
        [|destruct (Main.Close os (Main.configName os flag)) eqn:Ec]];
      cbn [snd]; (split; [intros code [= <-] | intros name fromFile [= <- <-]]);
      try discriminate.
    + repeat split; [exact Hname|]. left. discriminate.
    + repeat split; [exact Hname|]. right. left. discriminate.
    + repeat split; [exact Hname|]. right. right. discriminate.
    + destruct (String.eqb_spec (Main.configName os flag) ""); [contradiction|].
      repeat split; assumption.
Qed.

(** X28. [connectDB] returns no error exactly when both write databases are
    configured and every configured database, read-only ones included,
    opens. *)
Theorem connectDB_success_iff (sql_Open : string -> string -> option error)
    (d : Main.Database) :
  snd (Main.connectDB sql_Open d) = None
  <-> Main.Principal_Write d <> None /\ Main.Payment_Write d <> None
      /\ Main.all_open sql_Open d = true.
Proof.
  unfold Main.connectDB, Main.all_open.
  destruct (Main.Principal_Write d) as [pw|]; [|cbn; intuition congruence].
  pose proof (MainFacts.openPair_ok sql_Open d pw (Main.Principal_ReadOnly d)) as Hp.
  destruct (Main.openPair sql_Open d pw (Main.Principal_ReadOnly d)) as [evs [[w ro]|err]];
    cbn [snd] in *.
  - destruct Hp as [Hpw Hpro]. rewrite Hpw.
    destruct (Main.Payment_Write d) as [yw|].
    + pose proof (MainFacts.openPair_ok sql_Open d yw (Main.Payment_ReadOnly d)) as Hy.
      destruct (Main.openPair sql_Open d yw (Main.Payment_ReadOnly d))
        as [evs' [[w' ro']|err']]; cbn [snd] in *.
      * destruct Hy as [Hyw Hyro]. rewrite Hyw.
        destruct (Main.Principal_ReadOnly d) as [pro|]; [rewrite Hpro|];
          (destruct (Main.Payment_ReadOnly d) as [yro|]; [rewrite Hyro|]);
          cbn; intuition congruence.
      * split; [discriminate|]. intros (_ & _ & Hall).
        destruct Hy as [Hy|Hy].
        -- destruct (sql_Open (Main.conn_Type yw) (Main.conn_DSN yw)); [|congruence].
           rewrite andb_false_r in Hall. discriminate.
        -- destruct (Main.Payment_ReadOnly d) as [yro|]; [|contradiction].
           destruct (sql_Open (Main.conn_Type yro) (Main.conn_DSN yro)); [|congruence].
           rewrite andb_false_r in Hall. discriminate.
    + cbn [snd]. intuition congruence.
  - split; [discriminate|]. intros (_ & _ & Hall).
    destruct Hp as [Hp|Hp].
    + destruct (sql_Open (Main.conn_Type pw) (Main.conn_DSN pw)); [|congruence].
      discriminate.
    + destruct (Main.Principal_ReadOnly d) as [pro|]; [|contradiction].
      destruct (sql_Open (Main.conn_Type pro) (Main.conn_DSN pro)); [|congruence].
      rewrite andb_false_r in Hall. discriminate.
Qed.

(** X29. Every handle that [sql.Open] returns during [connectDB] is given
    both pool limits of the configuration, [MaxOpenConns] and
    [MaxIdleConns], also when [connectDB] fails later. *)
Theorem connectDB_limits (sql_Open : string -> string -> option error)
    (d : Main.Database) (type dsn : string) :
  In (Main.MSqlOpen type dsn) (fst (Main.connectDB sql_Open d)) ->
  sql_Open type dsn = None ->
  In (Main.MSetMaxOpenConns dsn (Main.MaxOpenConns d)) (fst (Main.connectDB sql_Open d))
  /\ In (Main.MSetMaxIdleConns dsn (Main.MaxIdleConns d)) (fst (Main.connectDB sql_Open d)).
Proof.
  assert (H : Main.limited sql_Open d (fst (Main.connectDB sql_Open d))).
  { unfold Main.connectDB.
    destruct (Main.Principal_Write d) as [pw|]; [|intros ? ? []].
    pose proof (MainFacts.limited_openPair sql_Open d pw (Main.Principal_ReadOnly d)) as Hp.
    destruct (Main.openPair sql_Open d pw (Main.Principal_ReadOnly d)) as [evs [[w ro]|err]];
      cbn [fst] in *; [|exact Hp].
    assert (Hp' : Main.limited sql_Open d (evs ++ [Main.MSetPrincipalDB w ro]))
      by (apply MainFacts.limited_app;
          [exact Hp | apply MainFacts.limited_stored; reflexivity]).
    destruct (Main.Payment_Write d) as [yw|]; [|exact Hp'].
    pose proof (MainFacts.limited_openPair sql_Open d yw (Main.Payment_ReadOnly d)) as Hy.
    destruct (Main.openPair sql_Open d yw (Main.Payment_ReadOnly d))
      as [evs' [[w' ro']|err']]; cbn [fst] in *.
    - apply MainFacts.limited_app; [exact Hp'|].
      apply MainFacts.limited_app;
        [exact Hy | apply MainFacts.limited_stored; reflexivity].
    - apply MainFacts.limited_app; assumption. }
  exact (H type dsn).
Qed.

Lemma connectDB_limits_witness :
  In (Main.MSetMaxOpenConns "payment_ro" 10)
     (fst (Main.connectDB (fun _ _ => None) Main.demoDatabase))
  /\ In (Main.MSetMaxIdleConns "payment_ro" 5)
       (fst (Main.connectDB (fun _ _ => None) Main.demoDatabase)).
Proof.
  apply (connectDB_limits (fun _ _ => None) Main.demoDatabase "mysql" "payment_ro");
    [vm_compute; auto 10 | reflexivity].
Defined.
